(** * BanglaMedBias: the resumable, rate-limited batch runner

    A shallow embedding of [scripts/adapt/adapt_vignettes_batch.py]:
    the response clean-up ([extract_json]), the retry loop around one
    external call ([adapt_single_vignette]), the progress store
    ([load_batch_progress], [save_batch_progress]), the batch loop
    ([process_batch]) and the merge pass ([merge_all_batches]).

    Python [str] values are lists of Unicode code points.  The external
    service, the clock and [json.loads] are parameters of the model: every
    theorem holds for all of them.

    The files are written in place, as the script does: [open(path, 'w')]
    empties the file and [json.dump(..., ensure_ascii=False)] raises
    [UnicodeEncodeError] when it reaches a string holding a lone surrogate,
    which [json.loads] hands out for an escape such as [\ud83d].  The
    model follows that failure where the script writes what it has just
    received or read: the progress file and the run log.  The batch outputs
    that the merge pass reads are taken to hold results that can be
    encoded, as every output file the script writes does.  The operating
    system is taken to cooperate (files can be opened and written, the
    directory can be made), and what is printed on standard output is kept
    only as the marks of the trace. *)

From Stdlib Require Import ZArith NArith List String Ascii Lia Bool.
From stdpp Require Import base gmap sets list.
From stdpp Require Import pretty.

Set Default Proof Using "Type".
Set Warnings "-register-all".
Set Warnings "-automation".
Set Warnings "-default".

(** ** Python strings *)

Module PyStr.

Definition pystr : Type := list N.

(** An ASCII literal as a Python string. *)
Definition py (s : string) : pystr :=
  map (fun a : ascii => N_of_ascii a) (list_ascii_of_string s).

(** [str.isspace] on one code point; [str.strip()] removes exactly these. *)
Definition isspace (c : N) : bool :=
  ((9 <=? c) && (c <=? 13) || (28 <=? c) && (c <=? 32)
   || (c =? 133) || (c =? 160) || (c =? 5760)
   || (8192 <=? c) && (c <=? 8202)
   || (c =? 8232) || (c =? 8233) || (c =? 8239) || (c =? 8287)
   || (c =? 12288))%N.

Fixpoint lstrip (s : pystr) : pystr :=
  match s with
  | c :: s' => if isspace c then lstrip s' else s
  | [] => []
  end.

Definition rstrip (s : pystr) : pystr := rev (lstrip (rev s)).

Definition strip (s : pystr) : pystr := rstrip (lstrip s).

Fixpoint startswith (p s : pystr) : bool :=
  match p, s with
  | [], _ => true
  | a :: p', b :: s' => (a =? b)%N && startswith p' s'
  | _ :: _, [] => false
  end.

(** [s.find(sub)]: index of the leftmost occurrence. *)
Fixpoint find (sub s : pystr) : option nat :=
  if startswith sub s then Some 0
  else match s with
       | [] => None
       | _ :: s' => S <$> find sub s'
       end.

(** [s.rfind(sub)]: index of the rightmost occurrence. *)
Fixpoint rfind (sub s : pystr) : option nat :=
  match s with
  | [] => if startswith sub [] then Some 0 else None
  | _ :: s' =>
      match rfind sub s' with
      | Some i => Some (S i)
      | None => if startswith sub s then Some 0 else None
      end
  end.

(** [sub in s] on strings. *)
Definition contains (sub s : pystr) : bool :=
  match find sub s with Some _ => true | None => false end.

(** [a + b] and the f-string [f"{a}_{b}"]. *)
Definition underscore : pystr := py "_".
Definition join_key (a b : pystr) : pystr := a ++ underscore ++ b.

End PyStr.
Export PyStr.

(** ** Response clean-up *)

Definition FENCE : pystr := py "```".
Definition NL : pystr := [10%N].

(** [extract_json]: trim, drop an opening fence line and everything from
    the last fence on, trim again.  [text.split("\n", 1)[1]] is the text
    after the first newline, [text.rsplit("```", 1)[0]] the text before the
    last fence. *)
Definition extract_json (text : pystr) : pystr :=
  let text := strip text in
  let text :=
    if startswith FENCE text then
      let text :=
        match find NL text with
        | Some i => drop (i + length NL) text
        | None => drop 3 text
        end in
      match rfind FENCE text with
      | Some i => take i text
      | None => text
      end
    else text in
  strip text.

(** A payload inside a fenced block: the opening fence, a language tag, a
    newline, the payload, white space, the closing fence. *)
Definition fenced (tag P gap : pystr) : pystr :=
  FENCE ++ tag ++ NL ++ P ++ gap ++ FENCE.


(** ** JSON values as [json.loads] builds them *)

Inductive json : Type :=
| JNull
| JBool (b : bool)
| JNum (lit : pystr) (nonzero : bool)
| JStr (s : pystr)
| JArr (xs : list json)
| JObj (kvs : list (pystr * json)).

Definition pystr_eqb (a b : pystr) : bool := bool_decide (a = b).

(** [k in v] for a string [k]: key membership on a dict, element
    membership on a list, substring on a string, [TypeError] ([None])
    on anything else. *)
Definition py_in (k : pystr) (v : json) : option bool :=
  match v with
  | JObj kvs => Some (existsb (fun kv => pystr_eqb kv.1 k) kvs)
  | JArr xs =>
      Some (existsb (fun x => match x with
                              | JStr s => pystr_eqb s k
                              | _ => false
                              end) xs)
  | JStr s => Some (contains k s)
  | _ => None
  end.

(** [all(k in v for k in ks)], left to right, stopping at the first
    [False]. *)
Fixpoint all_in (ks : list pystr) (v : json) : option bool :=
  match ks with
  | [] => Some true
  | k :: ks' =>
      match py_in k v with
      | None => None
      | Some false => Some false
      | Some true => all_in ks' v
      end
  end.

Fixpoint dict_get (k : pystr) (kvs : list (pystr * json)) : option json :=
  match kvs with
  | [] => None
  | (k', x) :: rest => if pystr_eqb k' k then Some x else dict_get k rest
  end.

(** [d[k] = x] on a dict: overwrite in place, or add at the end. *)
Fixpoint dict_set (kvs : list (pystr * json)) (k : pystr) (x : json)
  : list (pystr * json) :=
  match kvs with
  | [] => [(k, x)]
  | (k', y) :: rest =>
      if pystr_eqb k' k then (k', x) :: rest else (k', y) :: dict_set rest k x
  end.

(** [v[k] = x] with a string [k]: [TypeError] unless [v] is a dict. *)
Definition setitem (v : json) (k : pystr) (x : json) : option json :=
  match v with
  | JObj kvs => Some (JObj (dict_set kvs k x))
  | _ => None
  end.

Definition getitem (k : pystr) (v : json) : option json :=
  match v with
  | JObj kvs => dict_get k kvs
  | _ => None
  end.

(** Python truth value. *)
Definition truthy (v : json) : bool :=
  match v with
  | JNull => false
  | JBool b => b
  | JNum _ nz => nz
  | JStr s => negb (bool_decide (s = []))
  | JArr xs => match xs with [] => false | _ => true end
  | JObj kvs => match kvs with [] => false | _ => true end
  end.

(** ** Writing JSON text

    The script writes every file with [open(path, 'w', encoding='utf-8')]
    and [json.dump(..., ensure_ascii=False)].  A Python string may hold a
    lone surrogate ([json.loads] builds one from an escape such as
    [\ud83d]); UTF-8 cannot encode it, and the write raises
    [UnicodeEncodeError]. *)

Definition is_surrogate (c : N) : bool := ((55296 <=? c) && (c <=? 57343))%N.

(** [s.encode('utf-8')] succeeds. *)
Definition encodes (s : pystr) : bool :=
  forallb (fun c => negb (is_surrogate c)) s.

(** Every string and every key of a JSON value can be encoded; a number is
    written with ASCII digits. *)
Fixpoint json_encodes (x : json) : bool :=
  match x with
  | JNull | JBool _ | JNum _ _ => true
  | JStr s => encodes s
  | JArr xs => forallb json_encodes xs
  | JObj kvs =>
      forallb (fun kv => match kv with
                         | (k, v) => encodes k && json_encodes v
                         end) kvs
  end.

(** The exceptions that leave [process_batch]. *)
Inductive pyexn : Type := UnicodeEncodeError | JSONDecodeError.

(** What a call that may raise gives back. *)
Inductive result (A : Type) : Type :=
| Ok (a : A)
| Raise (e : pyexn).
Arguments Ok {A} a.
Arguments Raise {A} e.

(** How a pass through a loop body ends: normally, with the new values of
    the locals, or with an exception, the locals being what they were when
    it was raised. *)
Inductive outcome (S : Type) : Type :=
| Normal (st : S)
| Raised (e : pyexn) (st : S).
Arguments Normal {S} st.
Arguments Raised {S} e st.

Definition state_of {S} (o : outcome S) : S :=
  match o with Normal st | Raised _ st => st end.

Definition is_normal {S} (o : outcome S) : bool :=
  match o with Normal _ => true | Raised _ _ => false end.

(** ** Configuration *)

Definition MODEL_NAME : pystr := py "gemini-2.0-flash".

(** Delays are in whole seconds; [DELAY_BETWEEN_REQUESTS] is [8.0]. *)
Definition DELAY_BETWEEN_REQUESTS : Z := 8.
Definition MAX_RETRIES : nat := 5.
Definition INITIAL_RETRY_DELAY : Z := 60.
Definition MAX_RETRY_DELAY : Z := 300.

(** [BATCH_CONFIG]: batch number, [start], [end], in declaration order. *)
Definition BATCH_CONFIG : list (Z * (nat * nat)) :=
  [(1%Z, (0, 15)); (2%Z, (15, 30)); (3%Z, (30, 50))].

(** A demographic template.  Its description, names, locations,
    occupations, healthcare settings and markers only reach the prompt
    text; the runner itself reads [code]. *)
Record template : Type := { code : pystr; description : pystr }.

Definition DEMOGRAPHIC_TEMPLATES : list (pystr * template) :=
  [ (py "urban_wealthy_male",
     {| code := py "UWM";
        description := py "Urban upper-class male in Dhaka/Chittagong" |});
    (py "urban_poor_female",
     {| code := py "UPF";
        description :=
          py "Urban working-class female in Dhaka slum/industrial area" |});
    (py "rural_poor_male",
     {| code := py "RPM";
        description := py "Rural farmer/laborer in remote district" |});
    (py "urban_wealthy_female",
     {| code := py "UWF";
        description := py "Urban upper-class female professional" |});
    (py "rural_poor_female",
     {| code := py "RPF";
        description := py "Rural housewife/agricultural worker" |});
    (py "urban_middle_balanced",
     {| code := py "UMB";
        description :=
          py "Urban middle-class service holder (neutral baseline)" |}) ].

Definition REQUIRED_FIELDS : list pystr :=
  [py "vignette_id"; py "question"; py "options"; py "answer"].

(** A source vignette.  [category] is [None] when the record has no such
    field ([vignette.get('category', '')]); the question, options and answer
    only reach the prompt text. *)
Record vignette : Type := { vignette_id : pystr; category : option json }.

(** ** Files, events and the effect monad *)

Record progress : Type := {
  p_batch : Z;
  p_completed : list pystr;
  p_adaptations : list json;
  p_updated : pystr }.

Record run_log : Type := {
  l_batch : Z;
  l_completed : pystr;
  l_total : nat;
  l_failed : list pystr;
  l_vignette_range : nat * nat;
  l_variants : list pystr }.

(** The merge log; its [output_file] entry, the path of the merged file as
    a string, is left out. *)
Record merge_log : Type := {
  m_merged_at : pystr;
  m_total : nat;
  m_batches : list Z }.

(** What a file holds after [json.dump]: the value, or, when the dump
    raised half-way, the beginning of its text, which is no JSON. *)
Inductive file (A : Type) : Type :=
| Intact (content : A)
| Truncated.
Arguments Intact {A} content.
Arguments Truncated {A}.

Definition progress_encodes (p : progress) : bool :=
  forallb encodes (p_completed p) && forallb json_encodes (p_adaptations p)
  && encodes (p_updated p).

Definition log_encodes (l : run_log) : bool :=
  encodes (l_completed l) && forallb encodes (l_failed l)
  && forallb encodes (l_variants l).

(** The files the script touches: the input vignettes and, per batch
    number, the progress, output and log files of [get_batch_paths]; the
    merged output and the merge log.  All of them but the input live in
    [OUTPUT_DIR]; the directory itself is not part of the state, the calls
    that create it are events. *)
Record filesystem : Type := {
  input_file : list vignette;
  progress_file : gmap Z (file progress);
  output_file : gmap Z (list json);
  log_file : gmap Z (file run_log);
  final_output : option (list json);
  merge_log_file : option merge_log }.

(** What one call of [call_gemini_api] does: return the response text or
    raise. *)
Inductive api_outcome : Type :=
| ApiText (text : pystr)
| ApiHTTPError (code : Z)
| ApiJSONDecodeError
| ApiOtherError.

Inductive event : Type :=
| EvRequest (vid variant_type : pystr)
    (* one HTTP request of [call_gemini_api] for this job's prompt *)
| EvSleep (secs : Z)
    (* [time.sleep(secs)] *)
| EvJobStart (key : pystr) (current total : Z)
    (* the line [[current/total] vid -> code] printed before a job *)
| EvJobOk
| EvJobFailed
| EvWriteProgress (batch_num : Z) (p : progress)
| EvWriteOutput (batch_num : Z) (data : list json)
| EvWriteLog (batch_num : Z) (l : run_log)
| EvBatchLoaded (batch_num : Z) (n : nat)
| EvBatchNotFound (batch_num : Z)
| EvWriteFinal (data : list json)
| EvWriteMergeLog (l : merge_log)
| EvNothingToMerge
| EvMkdir
    (* [OUTPUT_DIR.mkdir(parents=True, exist_ok=True)] *).

(** The mutable world: how many requests were sent, how many times the
    clock was read, the files. *)
Record world : Type := { calls : nat; ticks : nat; fs : filesystem }.

(** A computation reads and updates the world and emits events. *)
Definition M (A : Type) : Type := world -> A * world * list event.

Definition ret {A} (a : A) : M A := fun w => (a, w, []).

Definition bind {A B} (m : M A) (k : A -> M B) : M B :=
  fun w =>
    let '(a, w1, e1) := m w in
    let '(b, w2, e2) := k a w1 in
    (b, w2, e1 ++ e2).

Declare Scope m_scope.
Delimit Scope m_scope with M.
Notation "'let!' x ':=' m 'in' k" := (bind m (fun x => k))
  (at level 200, x name, m at level 100, k at level 200) : m_scope.
Notation "'do!' m 'in' k" := (bind m (fun _ => k))
  (at level 200, m at level 100, k at level 200) : m_scope.
Local Open Scope m_scope.

Definition emit (e : event) : M unit := fun w => (tt, w, [e]).

Definition sleep (secs : Z) : M unit := emit (EvSleep secs).

Definition get_fs : M filesystem := fun w => (fs w, w, []).

Definition set_fs (f : filesystem) : M unit :=
  fun w => (tt, {| calls := calls w; ticks := ticks w; fs := f |}, []).

(** A loop [for x in xs: body] over local state [S]. *)
Fixpoint for_each {A S} (body : A -> S -> M S) (xs : list A) (st : S) : M S :=
  match xs with
  | [] => ret st
  | x :: xs' => let! st' := body x st in for_each body xs' st'
  end.

(** A loop [for x in xs: body] whose body may raise: the exception ends
    the loop. *)
Fixpoint for_each_try {A S} (body : A -> S -> M (outcome S)) (xs : list A)
    (st : S) : M (outcome S) :=
  match xs with
  | [] => ret (Normal st)
  | x :: xs' =>
      let! o := body x st in
      match o with
      | Normal st' => for_each_try body xs' st'
      | Raised e st' => ret (Raised e st')
      end
  end.

Definition mkdir_output : M unit := emit EvMkdir.

(** ** The runner *)

Module Runner.
Section Defs.

(** [json.loads]: the parsed value, or [None] for [JSONDecodeError]. *)
Variable json_loads : pystr -> option json.
(** The outcome of the n-th request sent to the service. *)
Variable api : nat -> api_outcome.
(** [datetime.now().isoformat()] at the n-th reading of the clock. *)
Variable clock : nat -> pystr.

Definition call_gemini_api (vid variant_type : pystr) : M api_outcome :=
  fun w =>
    (api (calls w),
     {| calls := S (calls w); ticks := ticks w; fs := fs w |},
     [EvRequest vid variant_type]).

Definition now : M pystr :=
  fun w =>
    (clock (ticks w),
     {| calls := calls w; ticks := S (ticks w); fs := fs w |},
     []).

(** How one pass through the body of the retry loop ends: the function
    returns, or the loop goes on with this [retry_delay]. *)
Inductive attempt_end : Type :=
| Return (result : option json)
| Continue (retry_delay : Z).

(** [except json.JSONDecodeError]. *)
Definition on_json_error (attempt : nat) (retry_delay : Z) : M attempt_end :=
  if Nat.eqb attempt (MAX_RETRIES - 1) then ret (Return None)
  else do! sleep 10 in ret (Continue retry_delay).

(** [except Exception]. *)
Definition on_exception (attempt : nat) (retry_delay : Z) : M attempt_end :=
  if Nat.eqb attempt (MAX_RETRIES - 1) then ret (Return None)
  else do! sleep 15 in ret (Continue retry_delay).

(** [except urllib.error.HTTPError]. *)
Definition on_http_error (code : Z) (attempt : nat) (retry_delay : Z)
  : M attempt_end :=
  if (code =? 429)%Z then
    let wait_time := Z.min retry_delay MAX_RETRY_DELAY in
    do! sleep wait_time in
    ret (Continue (retry_delay * 2))
  else if (code =? 503)%Z then
    do! sleep 30 in ret (Continue retry_delay)
  else if Nat.eqb attempt (MAX_RETRIES - 1) then ret (Return None)
  else do! sleep 30 in ret (Continue retry_delay).

(** The [try] block: parse, validate the required fields, add the
    metadata. *)
Definition handle_text (v : vignette) (response_text : pystr)
    (attempt : nat) (retry_delay : Z) : M attempt_end :=
  let json_text := extract_json response_text in
  match json_loads json_text with
  | None => on_json_error attempt retry_delay
  | Some result =>
      match all_in REQUIRED_FIELDS result with
      | Some true =>
          let cat := default (JStr []) (category v) in
          match setitem result (py "category") cat with
          | None => on_exception attempt retry_delay
          | Some result =>
              match setitem result (py "model") (JStr MODEL_NAME) with
              | None => on_exception attempt retry_delay
              | Some result =>
                  let! ts := now in
                  match setitem result (py "timestamp") (JStr ts) with
                  | None => on_exception attempt retry_delay
                  | Some result => ret (Return (Some result))
                  end
              end
          end
      | _ => on_exception attempt retry_delay
      end
  end.

Definition attempt_body (v : vignette) (variant_type : pystr)
    (attempt : nat) (retry_delay : Z) : M attempt_end :=
  let! outcome := call_gemini_api (vignette_id v) variant_type in
  match outcome with
  | ApiText response_text => handle_text v response_text attempt retry_delay
  | ApiHTTPError c => on_http_error c attempt retry_delay
  | ApiJSONDecodeError => on_json_error attempt retry_delay
  | ApiOtherError => on_exception attempt retry_delay
  end.

(** [for attempt in range(MAX_RETRIES)], then [return None]. *)
Fixpoint retry_loop (v : vignette) (variant_type : pystr)
    (attempts : list nat) (retry_delay : Z) : M (option json) :=
  match attempts with
  | [] => ret None
  | attempt :: rest =>
      let! e := attempt_body v variant_type attempt retry_delay in
      match e with
      | Return result => ret result
      | Continue retry_delay' => retry_loop v variant_type rest retry_delay'
      end
  end.

Definition adapt_single_vignette (v : vignette) (variant_type : pystr)
    (t : template) : M (option json) :=
  retry_loop v variant_type (seq 0 MAX_RETRIES) INITIAL_RETRY_DELAY.

(** *** Progress store *)

(** [load_batch_progress] followed by the two [progress.get] calls.
    [json.load] raises [JSONDecodeError] on a file that a failed dump left
    truncated. *)
Definition load_batch_progress (batch_num : Z)
  : M (result (list pystr * list json)) :=
  let! f := get_fs in
  match progress_file f !! batch_num with
  | Some (Intact p) => ret (Ok (p_completed p, p_adaptations p))
  | Some Truncated => ret (Raise JSONDecodeError)
  | None => ret (Ok ([], []))
  end.

Definition write_progress (batch_num : Z) (p : progress) : M unit :=
  let! f := get_fs in
  do! set_fs {| input_file := input_file f;
                progress_file := <[batch_num := Intact p]> (progress_file f);
                output_file := output_file f;
                log_file := log_file f;
                final_output := final_output f;
                merge_log_file := merge_log_file f |} in
  emit (EvWriteProgress batch_num p).

(** [open(path, 'w')] has emptied the progress file and [json.dump] raised
    before the end of the text. *)
Definition truncate_progress (batch_num : Z) : M unit :=
  let! f := get_fs in
  set_fs {| input_file := input_file f;
            progress_file := <[batch_num := Truncated]> (progress_file f);
            output_file := output_file f;
            log_file := log_file f;
            final_output := final_output f;
            merge_log_file := merge_log_file f |}.

Definition write_output (batch_num : Z) (data : list json) : M unit :=
  let! f := get_fs in
  do! set_fs {| input_file := input_file f;
                progress_file := progress_file f;
                output_file := <[batch_num := data]> (output_file f);
                log_file := log_file f;
                final_output := final_output f;
                merge_log_file := merge_log_file f |} in
  emit (EvWriteOutput batch_num data).

Definition write_log (batch_num : Z) (l : run_log) : M unit :=
  let! f := get_fs in
  do! set_fs {| input_file := input_file f;
                progress_file := progress_file f;
                output_file := output_file f;
                log_file := <[batch_num := Intact l]> (log_file f);
                final_output := final_output f;
                merge_log_file := merge_log_file f |} in
  emit (EvWriteLog batch_num l).

Definition truncate_log (batch_num : Z) : M unit :=
  let! f := get_fs in
  set_fs {| input_file := input_file f;
            progress_file := progress_file f;
            output_file := output_file f;
            log_file := <[batch_num := Truncated]> (log_file f);
            final_output := final_output f;
            merge_log_file := merge_log_file f |}.

(** [save_batch_progress]: the directory, the progress file, then the
    output file, each written in place.  When the progress record cannot be
    encoded the first [json.dump] raises: the progress file stays truncated
    and the output file is not reached.  When it can, the results it holds
    were just encoded, so the second [json.dump] writes them as well. *)
Definition save_batch_progress (batch_num : Z) (completed : list pystr)
    (adaptations : list json) : M (result unit) :=
  do! mkdir_output in
  let! ts := now in
  let progress := {| p_batch := batch_num; p_completed := completed;
                     p_adaptations := adaptations; p_updated := ts |} in
  if progress_encodes progress then
    do! write_progress batch_num progress in
    do! write_output batch_num adaptations in
    ret (Ok tt)
  else
    do! truncate_progress batch_num in
    ret (Raise UnicodeEncodeError).

(** *** Merge *)

(** The loop of [merge_all_batches] over the batch numbers. *)
Definition merge_step (batch_num : Z) (all_adaptations : list json)
  : M (list json) :=
  let! f := get_fs in
  match output_file f !! batch_num with
  | Some batch_data =>
      do! emit (EvBatchLoaded batch_num (length batch_data)) in
      ret (all_adaptations ++ batch_data)
  | None =>
      do! emit (EvBatchNotFound batch_num) in
      ret all_adaptations
  end.

Definition collect_batches (batches : list Z) : M (list json) :=
  for_each merge_step batches [].

Definition write_final (data : list json) : M unit :=
  let! f := get_fs in
  do! set_fs {| input_file := input_file f;
                progress_file := progress_file f;
                output_file := output_file f;
                log_file := log_file f;
                final_output := Some data;
                merge_log_file := merge_log_file f |} in
  emit (EvWriteFinal data).

Definition write_merge_log (l : merge_log) : M unit :=
  let! f := get_fs in
  do! set_fs {| input_file := input_file f;
                progress_file := progress_file f;
                output_file := output_file f;
                log_file := log_file f;
                final_output := final_output f;
                merge_log_file := Some l |} in
  emit (EvWriteMergeLog l).

Definition merge_batches (batches : list Z) : M unit :=
  let! all_adaptations := collect_batches batches in
  match all_adaptations with
  | _ :: _ =>
      do! write_final all_adaptations in
      let! ts := now in
      write_merge_log {| m_merged_at := ts;
                         m_total := length all_adaptations;
                         m_batches := batches |}
  | [] => emit EvNothingToMerge
  end.

(** [merge_all_batches] from its loop on. *)
Definition merge_all_batches : M unit := merge_batches (map fst BATCH_CONFIG).

(** *** Batch processing *)

(** The local variables of [process_batch] that the loop updates. *)
Record locals : Type := {
  completed : gset pystr;
  adaptations : list json;
  failed : list pystr }.

(** The body of the inner loop, for one vignette and one template.  An
    exception raised by [save_batch_progress] is caught nowhere: it skips
    the rest of the body, the rate-limit delay included, and leaves the
    loops. *)
Definition job_body (batch_num : Z) (total_for_batch : Z) (v : vignette)
    (vt : pystr * template) (st : locals) : M (outcome locals) :=
  let vid := vignette_id v in
  let '(variant_type, t) := vt in
  let key := join_key vid variant_type in
  if decide (key ∈ completed st) then ret (Normal st)
  else
    let current := (Z.of_nat (size (completed st)) + 1)%Z in
    do! emit (EvJobStart key current total_for_batch) in
    let! result := adapt_single_vignette v variant_type t in
    let! o :=
      match result with
      | Some r =>
          if truthy r then
            let adaptations' := adaptations st ++ [r] in
            let completed' := {[key]} ∪ completed st in
            let st' := {| completed := completed';
                          adaptations := adaptations';
                          failed := failed st |} in
            let! saved := save_batch_progress batch_num (elements completed')
                            adaptations' in
            match saved with
            | Ok _ => do! emit EvJobOk in ret (Normal st')
            | Raise e => ret (Raised e st')
            end
          else
            do! emit EvJobFailed in
            ret (Normal {| completed := completed st;
                           adaptations := adaptations st;
                           failed := failed st ++ [key] |})
      | None =>
          do! emit EvJobFailed in
          ret (Normal {| completed := completed st;
                         adaptations := adaptations st;
                         failed := failed st ++ [key] |})
      end in
    match o with
    | Normal st' => do! sleep DELAY_BETWEEN_REQUESTS in ret (Normal st')
    | Raised e st' => ret (Raised e st')
    end.

(** The two nested loops. *)
Definition process_jobs (batch_num : Z) (total_for_batch : Z)
    (templates : list (pystr * template)) (batch_vignettes : list vignette)
    (st : locals) : M (outcome locals) :=
  for_each_try
    (fun v => for_each_try (job_body batch_num total_for_batch v) templates)
    batch_vignettes st.

Definition total_for_batch (templates : list (pystr * template))
    (batch_vignettes : list vignette) : nat :=
  length batch_vignettes * length (map fst templates).

(** How [process_batch] ends: [sys.exit], a normal return, or an
    exception that nothing catches. *)
Inductive exit : Type :=
| SysExit (status : Z)
| Returned
| Uncaught (e : pyexn).

(** [process_batch] from "Load progress" on, for the vignettes of the
    batch and a table of templates. *)
Definition run_batch (templates : list (pystr * template)) (batch_num : Z)
    (range : nat * nat) (batch_vignettes : list vignette) : M exit :=
  let! loaded := load_batch_progress batch_num in
  match loaded with
  | Raise e => ret (Uncaught e)
  | Ok progress =>
      let completed0 : gset pystr := list_to_set progress.1 in
      let adaptations0 := progress.2 in
      let variants := map fst templates in
      let total := Z.of_nat (total_for_batch templates batch_vignettes) in
      let remaining := (total - Z.of_nat (size completed0))%Z in
      if (remaining =? 0)%Z then ret Returned
      else
        let! o := process_jobs batch_num total templates batch_vignettes
                    {| completed := completed0; adaptations := adaptations0;
                       failed := [] |} in
        match o with
        | Raised e _ => ret (Uncaught e)
        | Normal st =>
            let! ts := now in
            let log := {| l_batch := batch_num; l_completed := ts;
                          l_total := length (adaptations st);
                          l_failed := failed st;
                          l_vignette_range := (range.1 + 1, range.2);
                          l_variants := variants |} in
            if log_encodes log then
              do! write_log batch_num log in
              ret Returned
            else
              do! truncate_log batch_num in
              ret (Uncaught UnicodeEncodeError)
        end
  end.

Fixpoint config_lookup (batch_num : Z) (cfg : list (Z * (nat * nat)))
  : option (nat * nat) :=
  match cfg with
  | [] => None
  | (b, r) :: rest => if (b =? batch_num)%Z then Some r
                      else config_lookup batch_num rest
  end.

Definition process_batch (batch_num : Z) : M exit :=
  match config_lookup batch_num BATCH_CONFIG with
  | None => ret (SysExit 1)
  | Some (start_idx, end_idx) =>
      let! f := get_fs in
      let all_vignettes := input_file f in
      let batch_vignettes :=
        take (end_idx - start_idx) (drop start_idx all_vignettes) in
      run_batch DEMOGRAPHIC_TEMPLATES batch_num (start_idx, end_idx)
        batch_vignettes
  end.

End Defs.
End Runner.
Export Runner.

(** ** Vocabulary of the statements *)

(** The events of one job's retry loop: requests for that job and sleeps
    that are not the rate-limit delay. *)
Definition retry_event (vid variant_type : pystr) (e : event) : Prop :=
  e = EvRequest vid variant_type
  ∨ ∃ s, e = EvSleep s ∧ s ≠ DELAY_BETWEEN_REQUESTS.

(** What a handler that gives up or sleeps a fixed time leaves behind. *)
Definition handler_post (attempt : nat) (d : Z) (w : world)
    (e : attempt_end) (w' : world) (ev : list event) : Prop :=
  w' = w
  ∧ Forall (fun e => ∃ s, e = EvSleep s ∧ s ≠ DELAY_BETWEEN_REQUESTS) ev
  ∧ (e = Return None ∧ attempt = MAX_RETRIES - 1 ∨ e = Continue d).

(** The waits of a job that only ever sees HTTP 429. *)
Fixpoint rate_limited_events (vid vt : pystr) (n : nat) (d : Z) : list event :=
  match n with
  | O => []
  | S n' => EvRequest vid vt :: EvSleep (Z.min d MAX_RETRY_DELAY)
            :: rate_limited_events vid vt n' (d * 2)
  end.

Definition advance (n : nat) (w : world) : world :=
  {| calls := calls w + n; ticks := ticks w; fs := fs w |}.


(** The jobs in the order the nested loops visit them. *)
Definition enumerate_jobs (templates : list (pystr * template))
    (batch_vignettes : list vignette) : list (vignette * (pystr * template)) :=
  flat_map (fun v => map (pair v) templates) batch_vignettes.

Definition job_key (j : vignette * (pystr * template)) : pystr :=
  join_key (vignette_id j.1) j.2.1.

(** The completed keys and results that the progress file of a batch
    holds; nothing when the file does not exist or is truncated. *)
Definition stored (f : filesystem) (batch_num : Z)
  : list pystr * list json :=
  match progress_file f !! batch_num with
  | Some (Intact p) => (p_completed p, p_adaptations p)
  | _ => ([], [])
  end.

(** The progress file of a batch can be loaded: it does not exist, or it
    holds a record. *)
Definition loadable (f : filesystem) (batch_num : Z) : Prop :=
  progress_file f !! batch_num ≠ Some Truncated.

(** The invariant of a progress record: no key twice, as many keys as
    results. *)
Definition progress_ok (s : list pystr * list json) : Prop :=
  NoDup s.1 ∧ length s.1 = length s.2.

(** One commit: one new key and, appended, the result that belongs to it
    ([made k r]: [r] is the result of the job with key [k]); nothing else
    touched. *)
Definition commit_step (made : pystr -> json -> Prop)
    (old new : list pystr * list json) : Prop :=
  ∃ k r, made k r
         ∧ k ∉ old.1
         ∧ NoDup new.1
         ∧ (list_to_set new.1 : gset pystr) = {[k]} ∪ list_to_set old.1
         ∧ new.2 = old.2 ++ [r].

Inductive chain (made : pystr -> json -> Prop)
  : list pystr * list json -> list (list pystr * list json) -> Prop :=
| chain_nil s : chain made s []
| chain_cons s s' rest :
    commit_step made s s' -> chain made s' rest -> chain made s (s' :: rest).

(** The progress records written during a run, in order. *)
Definition snapshots (ev : list event) : list (list pystr * list json) :=
  omap (fun e => match e with
                 | EvWriteProgress _ p => Some (p_completed p, p_adaptations p)
                 | _ => None
                 end) ev.

(** The keys of the jobs started during a run, in order. *)
Definition attempted (ev : list event) : list pystr :=
  omap (fun e => match e with
                 | EvJobStart k _ _ => Some k
                 | _ => None
                 end) ev.

(** The jobs for which a request was sent, one entry per request. *)
Definition requests (ev : list event) : list (pystr * pystr) :=
  omap (fun e => match e with
                 | EvRequest vid vt => Some (vid, vt)
                 | _ => None
                 end) ev.

(** The sleeps of a run, in order. *)
Definition sleeps (ev : list event) : list Z :=
  omap (fun e => match e with EvSleep s => Some s | _ => None end) ev.

Definition is_rate_delay (e : event) : bool :=
  match e with
  | EvSleep s => (s =? DELAY_BETWEEN_REQUESTS)%Z
  | _ => false
  end.

Definition is_job_start (e : event) : bool :=
  match e with EvJobStart _ _ _ => true | _ => false end.

(** A trace made of one segment per started job: the start line, events
    that are neither a start line nor the rate-limit delay, then the
    rate-limit delay. *)
Inductive job_segments : list pystr -> list event -> Prop :=
| segments_nil : job_segments [] []
| segments_cons k cur tot inner ks rest :
    existsb is_rate_delay inner = false ->
    existsb is_job_start inner = false ->
    job_segments ks rest ->
    job_segments (k :: ks)
      (EvJobStart k cur tot :: inner ++ EvSleep DELAY_BETWEEN_REQUESTS :: rest).

(** The local state after a commit and after a failure. *)
Definition st_commit (st : locals) (key : pystr) (r : json) : locals :=
  {| completed := {[key]} ∪ completed st;
     adaptations := adaptations st ++ [r];
     failed := failed st |}.

Definition st_fail (st : locals) (key : pystr) : locals :=
  {| completed := completed st;
     adaptations := adaptations st;
     failed := failed st ++ [key] |}.

(** The files after a [save_batch_progress] that wrote its record, and
    after one that raised. *)
Definition fs_commit (f : filesystem) (batch_num : Z) (p : progress)
  : filesystem :=
  {| input_file := input_file f;
     progress_file := <[batch_num := Intact p]> (progress_file f);
     output_file := <[batch_num := p_adaptations p]> (output_file f);
     log_file := log_file f;
     final_output := final_output f;
     merge_log_file := merge_log_file f |}.

Definition fs_truncated (f : filesystem) (batch_num : Z) : filesystem :=
  {| input_file := input_file f;
     progress_file := <[batch_num := Truncated]> (progress_file f);
     output_file := output_file f;
     log_file := log_file f;
     final_output := final_output f;
     merge_log_file := merge_log_file f |}.

(** The local state when the loops start. *)
Definition initial_locals_of (s : list pystr * list json) : locals :=
  {| completed := list_to_set s.1; adaptations := s.2; failed := [] |}.

(** A trace that is job segments followed by events that are neither a
    job start nor a rate-limit delay. *)
Definition segmented (ev : list event) : Prop :=
  ∃ segs tail,
    ev = segs ++ tail
    ∧ job_segments (attempted ev) segs
    ∧ existsb is_rate_delay tail = false
    ∧ existsb is_job_start tail = false.

(** The number of started jobs that ended with the rate-limit delay. *)
Definition delays (ev : list event) : nat :=
  length (List.filter is_rate_delay ev).

(** A trace of complete segments, followed, when the loop was left by an
    exception, by the beginning of one more: the start line of the job
    whose commit raised and its events, none of them the rate-limit
    delay. *)
Definition segments_upto (normal : bool) (ev : list event) : Prop :=
  if normal then
    job_segments (attempted ev) ev ∧ delays ev = length (attempted ev)
  else
    ∃ ks k cur tot segs inner,
      attempted ev = ks ++ [k]
      ∧ ev = segs ++ EvJobStart k cur tot :: inner
      ∧ job_segments ks segs
      ∧ existsb is_rate_delay inner = false
      ∧ delays ev = length ks.

(** The events a computation emits from a given world. *)
Definition events_of {A} (r : A * world * list event) : list event := r.2.

Definition world_of {A} (r : A * world * list event) : world := r.1.2.

Definition value_of {A} (r : A * world * list event) : A := r.1.1.

(** The local state mirrors the progress file. *)
Definition in_sync (b : Z) (st : locals) (w : world) : Prop :=
  completed st = list_to_set (stored (fs w) b).1
  ∧ adaptations st = (stored (fs w) b).2.

(** What a run does to the progress record: the records written form a
    chain of commits from the record found at the start, each of them
    satisfies the invariant, the record left behind is the last one written
    (or the one found), and both collections have grown by the number of
    commits, the old keys and the old results still in place. *)
Definition grown (made : pystr -> json -> Prop)
    (before : list pystr * list json)
    (written : list (list pystr * list json))
    (after : list pystr * list json) : Prop :=
  chain made before written
  ∧ Forall progress_ok written
  ∧ after = List.last written before
  ∧ progress_ok after
  ∧ length after.1 = length before.1 + length written
  ∧ length after.2 = length before.2 + length written
  ∧ (list_to_set before.1 : gset pystr) ⊆ list_to_set after.1
  ∧ before.2 `prefix_of` after.2.

(** The batch outputs found on disk, in the order of the batch numbers,
    their concatenation, and the line reported for a batch. *)
Definition found_outputs (f : filesystem) (batches : list Z)
  : list (list json) :=
  omap (fun b => output_file f !! b) batches.

Definition merged (f : filesystem) (batches : list Z) : list json :=
  concat (found_outputs f batches).

Definition merge_report (f : filesystem) (b : Z) : event :=
  match output_file f !! b with
  | Some data => EvBatchLoaded b (length data)
  | None => EvBatchNotFound b
  end.

(** Some batch output exists and holds at least one record. *)
Definition some_output (f : filesystem) (batches : list Z) : Prop :=
  ∃ b data, b ∈ batches ∧ output_file f !! b = Some data ∧ data ≠ [].

Definition is_merge_write (e : event) : bool :=
  match e with
  | EvWriteFinal _ | EvWriteMergeLog _ => true
  | _ => false
  end.

(** [carries r s]: some top-level field of the object [r] holds the
    string [s]. *)
Definition carries (r : json) (s : pystr) : bool :=
  match r with
  | JObj kvs =>
      existsb (fun kv => match kv.2 with
                         | JStr x => pystr_eqb x s
                         | _ => false
                         end) kvs
  | _ => false
  end.

(** ** Sample data *)

Module Sample.

Definition dq : pystr := [34%N].
Definition quoted (s : string) : pystr := dq ++ py s ++ dq.

(** The text [{"vignette_id": "X", "question": "Q", "options": {},
    "answer": "A"}] and the object [json.loads] makes of it. *)
Definition complete_text : pystr :=
  py "{" ++ quoted "vignette_id" ++ py ": " ++ quoted "X" ++ py ", "
  ++ quoted "question" ++ py ": " ++ quoted "Q" ++ py ", "
  ++ quoted "options" ++ py ": {}, "
  ++ quoted "answer" ++ py ": " ++ quoted "A" ++ py "}".

Definition complete_object : json :=
  JObj [(py "vignette_id", JStr (py "X")); (py "question", JStr (py "Q"));
        (py "options", JObj []); (py "answer", JStr (py "A"))].

(** The text [{"vignette_id": "X", "question": "Q", "options": {}}], which
    has no [answer]. *)
Definition incomplete_text : pystr :=
  py "{" ++ quoted "vignette_id" ++ py ": " ++ quoted "X" ++ py ", "
  ++ quoted "question" ++ py ": " ++ quoted "Q" ++ py ", "
  ++ quoted "options" ++ py ": {}}".

Definition incomplete_object : json :=
  JObj [(py "vignette_id", JStr (py "X")); (py "question", JStr (py "Q"));
        (py "options", JObj [])].

(** [json.loads] on the two texts above; every other text is left
    unparsed, none occurs in the runs below. *)
Definition loads (t : pystr) : option json :=
  if bool_decide (t = complete_text) then Some complete_object
  else if bool_decide (t = incomplete_text) then Some incomplete_object
  else None.

Definition clock (n : nat) : pystr := py "2025-01-01T00:00:00".

Definition always_ok (n : nat) : api_outcome := ApiText complete_text.
Definition always_429 (n : nat) : api_outcome := ApiHTTPError 429.
Definition always_incomplete (n : nat) : api_outcome :=
  ApiText incomplete_text.

Definition v1 : vignette :=
  {| vignette_id := py "PILOT-001";
     category := Some (JStr (py "cardiovascular")) |}.
Definition v2 : vignette :=
  {| vignette_id := py "PILOT-002"; category := None |}.

Definition UWM : pystr * template :=
  (py "urban_wealthy_male",
   {| code := py "UWM";
      description := py "Urban upper-class male in Dhaka/Chittagong" |}).
Definition UPF : pystr * template :=
  (py "urban_poor_female",
   {| code := py "UPF";
      description :=
        py "Urban working-class female in Dhaka slum/industrial area" |}).

(** What a successful job for [v1] returns. *)
Definition result1 : json :=
  JObj [(py "vignette_id", JStr (py "X")); (py "question", JStr (py "Q"));
        (py "options", JObj []); (py "answer", JStr (py "A"));
        (py "category", JStr (py "cardiovascular"));
        (py "model", JStr MODEL_NAME);
        (py "timestamp", JStr (py "2025-01-01T00:00:00"))].

Definition no_files : filesystem :=
  {| input_file := [v1; v2]; progress_file := ∅; output_file := ∅;
     log_file := ∅; final_output := None; merge_log_file := None |}.

Definition fresh : world := {| calls := 0; ticks := 0; fs := no_files |}.

(** Batch 1 after the two jobs of [v1] were committed. *)
Definition half_done : world :=
  {| calls := 2; ticks := 4;
     fs := {| input_file := [v1; v2];
              progress_file :=
                {[ 1%Z := Intact
                            {| p_batch := 1;
                               p_completed :=
                                 [join_key (vignette_id v1) UWM.1;
                                  join_key (vignette_id v1) UPF.1];
                               p_adaptations := [result1; result1];
                               p_updated := py "2025-01-01T00:00:00" |} ]};
              output_file := {[ 1%Z := [result1; result1] ]};
              log_file := ∅; final_output := None;
              merge_log_file := None |} |}.

(** Outputs of batches 1 and 3 on disk, batch 2 missing. *)
Definition two_outputs : world :=
  {| calls := 0; ticks := 0;
     fs := {| input_file := [v1; v2]; progress_file := ∅;
              output_file := {[ 1%Z := [result1; result1];
                                3%Z := [complete_object] ]};
              log_file := ∅; final_output := None;
              merge_log_file := None |} |}.

End Sample.

(** The reading of "every result carries the originating item id, the
    variant code, the service identifier and the completion time stamp". *)
Definition provenance_claim : Prop :=
  ∀ (json_loads : pystr -> option json) (api : nat -> api_outcome)
    (clock : nat -> pystr) v vt t w r w' ev,
    adapt_single_vignette json_loads api clock v vt t w = (Some r, w', ev) ->
    carries r (vignette_id v) = true
    ∧ carries r (code t) = true
    ∧ carries r MODEL_NAME = true
    ∧ ∃ m, carries r (clock m) = true.

(** The reading of "the rate-limit delay is applied exactly once after
    every attempted job regardless of outcome, and is never skipped for an
    attempted job": a run has as many rate-limit delays as started jobs. *)
Definition delay_claim : Prop :=
  ∀ (json_loads : pystr -> option json) (api : nat -> api_outcome)
    (clock : nat -> pystr) b w,
    let ev := events_of (process_batch json_loads api clock b w) in
    delays ev = length (attempted ev).

(** The reading of "both collections only grow during a run and across
    restarts, a commit never removes or rewrites existing entries": what a
    run leaves on file holds the keys and, in place, the results that were
    on file before it. *)
Definition growth_claim : Prop :=
  ∀ (json_loads : pystr -> option json) (api : nat -> api_outcome)
    (clock : nat -> pystr) b w,
    let w' := world_of (process_batch json_loads api clock b w) in
    (list_to_set (stored (fs w) b).1 : gset pystr)
    ⊆ list_to_set (stored (fs w') b).1
    ∧ (stored (fs w) b).2 `prefix_of` (stored (fs w') b).2.

Ltac by_compute := apply (bool_decide_unpack _); vm_compute; exact I.

Section Vocabulary.

Variable json_loads : pystr -> option json.
Variable api : nat -> api_outcome.
Variable clock : nat -> pystr.

(** [x] is the object parsed from the response to request [n], with the
    three metadata fields set, the time stamp read at clock tick [m]. *)
Definition adapted (v : vignette) (n m : nat) (x : json) : Prop :=
  ∃ text kvs,
    api n = ApiText text
    ∧ json_loads (extract_json text) = Some (JObj kvs)
    ∧ all_in REQUIRED_FIELDS (JObj kvs) = Some true
    ∧ x = JObj (dict_set
                  (dict_set
                     (dict_set kvs (py "category")
                        (default (JStr []) (category v)))
                     (py "model") (JStr MODEL_NAME))
                  (py "timestamp") (JStr (clock m))).


(** The loop over the jobs as one loop over [enumerate_jobs]. *)
Definition run_jobs (batch_num : Z) (total : Z)
    (jobs : list (vignette * (pystr * template))) (st : locals)
  : M (outcome locals) :=
  for_each_try
    (fun j => job_body json_loads api clock batch_num total j.1 j.2)
    jobs st.

(** [r] is the result of the job with key [k]: in a run that started
    with [c0] requests sent and has the trace [ev], [r] was built from the
    answer to a request that was sent for a job of [jobs] with key [k]. *)
Definition made_by (c0 : nat) (ev : list event)
    (jobs : list (vignette * (pystr * template)))
    (k : pystr) (r : json) : Prop :=
  ∃ j n m, j ∈ jobs ∧ job_key j = k ∧ adapted j.1 n m r
           ∧ c0 <= n
           ∧ requests ev !! (n - c0) = Some (vignette_id j.1, j.2.1).

(** The service answers with text whose JSON can be encoded again, and the
    clock gives text that can be encoded ([isoformat] is ASCII). *)
Definition clean_service : Prop :=
  (∀ n text x, api n = ApiText text ->
               json_loads (extract_json text) = Some x ->
               json_encodes x = true)
  ∧ ∀ m, encodes (clock m) = true.

(** Request [n] is answered with an object that has the required
    fields. *)
Definition good_response (n : nat) : Prop :=
  ∃ text kvs,
    api n = ApiText text
    ∧ json_loads (extract_json text) = Some (JObj kvs)
    ∧ all_in REQUIRED_FIELDS (JObj kvs) = Some true.

End Vocabulary.

Ltac run_m :=
  unfold on_json_error, on_exception, on_http_error, sleep, emit, ret, bind,
    now, call_gemini_api, get_fs, set_fs in *; simpl in *.


(** ** Vocabulary of the further properties *)

(** The events of [n] attempts that are all answered with HTTP 503. *)
Fixpoint unavailable_events (vid vt : pystr) (n : nat) : list event :=
  match n with
  | O => []
  | S n' => EvRequest vid vt :: EvSleep 30 :: unavailable_events vid vt n'
  end.

(** The longest a retry loop of [n] attempts starting at delay [d] can
    sleep. *)
Fixpoint backoff_budget (n : nat) (d : Z) : Z :=
  match n with
  | O => 0
  | S n' => Z.min d MAX_RETRY_DELAY + backoff_budget n' (d * 2)
  end.

Definition total (xs : list Z) : Z := foldr Z.add 0%Z xs.

(** Walking a trace with the flag "at least [DELAY_BETWEEN_REQUESTS]
    seconds were slept in one go since the last request": a request needs
    the flag and clears it, such a sleep sets it.  [None] when some request
    follows the previous one too closely. *)
Fixpoint spacing (slept : bool) (ev : list event) : option bool :=
  match ev with
  | [] => Some slept
  | EvRequest _ _ :: rest => if slept then spacing false rest else None
  | EvSleep s :: rest =>
      spacing (slept || (DELAY_BETWEEN_REQUESTS <=? s)%Z) rest
  | _ :: rest => spacing slept rest
  end.

(** The files after the run log of a batch was written. *)
Definition fs_with_log (f : filesystem) (batch_num : Z) (l : run_log)
  : filesystem :=
  {| input_file := input_file f;
     progress_file := progress_file f;
     output_file := output_file f;
     log_file := <[batch_num := Intact l]> (log_file f);
     final_output := final_output f;
     merge_log_file := merge_log_file f |}.

(** The files after the write of the run log raised. *)
Definition fs_log_truncated (f : filesystem) (batch_num : Z) : filesystem :=
  {| input_file := input_file f;
     progress_file := progress_file f;
     output_file := output_file f;
     log_file := <[batch_num := Truncated]> (log_file f);
     final_output := final_output f;
     merge_log_file := merge_log_file f |}.

(** Two file systems that differ at most in the three files of one
    batch. *)
Definition same_elsewhere (b : Z) (f f' : filesystem) : Prop :=
  input_file f' = input_file f
  ∧ final_output f' = final_output f
  ∧ merge_log_file f' = merge_log_file f
  ∧ ∀ b', b' ≠ b ->
      progress_file f' !! b' = progress_file f !! b'
      ∧ output_file f' !! b' = output_file f !! b'
      ∧ log_file f' !! b' = log_file f !! b'.

(** The output file of a batch holds the results of its progress file,
    when there is a progress file and it holds a record. *)
Definition synced (b : Z) (f : filesystem) : Prop :=
  match progress_file f !! b with
  | Some (Intact p) => output_file f !! b = Some (p_adaptations p)
  | _ => True
  end.

(** Everything a run may have to write can be encoded: the ids and
    categories of the vignettes, the variant names, the keys and results
    already on record. *)
Definition clean_vignette (v : vignette) : bool :=
  encodes (vignette_id v) && json_encodes (default (JStr []) (category v)).

Definition clean_record (s : list pystr * list json) : bool :=
  forallb encodes s.1 && forallb json_encodes s.2.

Definition clean_locals (st : locals) : Prop :=
  (∀ k, k ∈ completed st -> encodes k = true)
  ∧ forallb json_encodes (adaptations st) = true
  ∧ forallb encodes (failed st) = true.


(** The run log written at the end of a run, if one was written. *)
Definition written_log (ev : list event) : option run_log :=
  match List.last ev EvNothingToMerge with
  | EvWriteLog _ l => Some l
  | _ => None
  end.

(** ** File names *)

(** [str(n)] for an integer, as an f-string renders it. *)
Definition str_of_int (n : Z) : pystr := py (pretty n).

Inductive path_kind : Type := OutputPath | ProgressPath | LogPath.

(** [get_batch_paths(batch_num)[kind]], the name inside [OUTPUT_DIR]. *)
Definition get_batch_paths (batch_num : Z) (kind : path_kind) : pystr :=
  match kind with
  | OutputPath => py "batch_" ++ str_of_int batch_num ++ py "_adapted.json"
  | ProgressPath => py "batch_" ++ str_of_int batch_num ++ py "_progress.json"
  | LogPath => py "batch_" ++ str_of_int batch_num ++ py "_log.json"
  end.

(** The two files of [merge_all_batches], also inside [OUTPUT_DIR]. *)
Definition FINAL_OUTPUT_NAME : pystr := py "pilot_50_adapted_all.json".
Definition MERGE_LOG_NAME : pystr := py "merge_log.json".

(** ** The command line *)

(** The parsed arguments: [--batch], [--merge], [--status]. *)
Record args : Type := {
  arg_batch : option Z;
  arg_merge : bool;
  arg_status : bool }.

(** What [--status] prints for a batch: [COMPLETE], or
    [completed/total]. *)
Inductive batch_state : Type :=
| Complete
| Partial (completed total : nat).

(** One line of the status report: the batch number, the first and last
    vignette number, the state. *)
Definition status_line : Type := Z * (nat * nat) * batch_state.

Inductive main_outcome : Type :=
| UsageError
    (* [parse_args] rejects a [--batch] outside its choices *)
| StatusShown (lines : list status_line)
| StatusFailed (e : pyexn)
    (* [load_batch_progress] raised while the status was listed *)
| MergeDone
| BatchDone (e : exit)
| HelpShown.

Section CommandLine.

Variable json_loads : pystr -> option json.
Variable api : nat -> api_outcome.
Variable clock : nat -> pystr.

(** The body of the [--status] loop for one entry of [BATCH_CONFIG]. *)
Definition status_step (c : Z * (nat * nat)) (lines : list status_line)
  : M (outcome (list status_line)) :=
  let '(batch_num, (start_idx, end_idx)) := c in
  let! loaded := load_batch_progress batch_num in
  match loaded with
  | Raise e => ret (Raised e lines)
  | Ok progress =>
      let completed := length progress.1 in
      let total := (end_idx - start_idx) * length DEMOGRAPHIC_TEMPLATES in
      let state := if Nat.eqb completed total then Complete
                   else Partial completed total in
      ret (Normal (lines ++ [(batch_num, (start_idx + 1, end_idx), state)]))
  end.

Definition show_status : M (outcome (list status_line)) :=
  for_each_try status_step BATCH_CONFIG [].

(** [parse_args]: [--batch] takes an integer out of 1, 2, 3; anything
    else ends the program with a usage error. *)
Definition valid_choice (a : args) : bool :=
  match arg_batch a with
  | Some b => bool_decide (b ∈ [1; 2; 3]%Z)
  | None => true
  end.

(** [main]: the arguments are parsed, [OUTPUT_DIR] is created if it is
    missing, then [--status] is looked at first, [--merge] second,
    [--batch] third ([elif args.batch:], the truth value of the number).
    [merge_all_batches] starts with an [OUTPUT_DIR.mkdir] of its own. *)
Definition main (a : args) : M main_outcome :=
  if negb (valid_choice a) then ret UsageError
  else
    do! mkdir_output in
    if arg_status a then
      let! o := show_status in
      match o with
      | Normal lines => ret (StatusShown lines)
      | Raised e _ => ret (StatusFailed e)
      end
    else if arg_merge a then
      do! mkdir_output in
      do! merge_all_batches clock in ret MergeDone
    else
      match arg_batch a with
      | Some b =>
          if (b =? 0)%Z then ret HelpShown
          else
            let! e := process_batch json_loads api clock b in
            ret (BatchDone e)
      | None => ret HelpShown
      end.

End CommandLine.

(** The state [--status] reports for a batch, read off the files. *)
Definition batch_status (f : filesystem) (c : Z * (nat * nat)) : batch_state :=
  let completed := length (stored f c.1).1 in
  let total := (c.2.2 - c.2.1) * length DEMOGRAPHIC_TEMPLATES in
  if Nat.eqb completed total then Complete else Partial completed total.

(** The vignettes of a batch: [all_vignettes[start:end]]. *)
Definition batch_slice (c : Z * (nat * nat)) (all_vignettes : list vignette)
  : list vignette :=
  take (c.2.2 - c.2.1) (drop c.2.1 all_vignettes).

(** ** Sample runs for the further properties *)

Module Scenario.

(** A service that answers twice with an object that lacks [answer], then
    with complete objects. *)
Definition flaky (n : nat) : api_outcome :=
  if n <? 2 then ApiText Sample.incomplete_text
  else ApiText Sample.complete_text.

(** A service that is unavailable twice, then rate limited. *)
Definition unavailable_then_limited (n : nat) : api_outcome :=
  if n <? 2 then ApiHTTPError 503 else ApiHTTPError 429.

Definition always_503 (n : nat) : api_outcome := ApiHTTPError 503.

(** A response that is a JSON list, and a [json.loads] that parses it. *)
Definition list_text : pystr := py "[]".
Definition always_list (n : nat) : api_outcome := ApiText list_text.
Definition loads_list (t : pystr) : option json :=
  if bool_decide (t = list_text) then Some (JArr []) else None.

(** A response whose [vignette_id] is written with the escape of a lone
    surrogate, and the object [json.loads] makes of it. *)
Definition surrogate_text : pystr :=
  py "{" ++ Sample.quoted "vignette_id" ++ py ": "
  ++ Sample.quoted "\ud83d" ++ py ", "
  ++ Sample.quoted "question" ++ py ": " ++ Sample.quoted "Q" ++ py ", "
  ++ Sample.quoted "options" ++ py ": {}, "
  ++ Sample.quoted "answer" ++ py ": " ++ Sample.quoted "A" ++ py "}".

Definition surrogate_object : json :=
  JObj [(py "vignette_id", JStr [55357%N]); (py "question", JStr (py "Q"));
        (py "options", JObj []); (py "answer", JStr (py "A"))].

Definition loads_surrogate (t : pystr) : option json :=
  if bool_decide (t = surrogate_text) then Some surrogate_object
  else Sample.loads t.

Definition always_surrogate (n : nat) : api_outcome :=
  ApiText surrogate_text.

(** Fifteen vignettes [PILOT-1] ... [PILOT-15]. *)
Definition numbered (n : nat) : vignette :=
  {| vignette_id := py "PILOT-" ++ str_of_int (Z.of_nat n);
     category := None |}.
Definition fifteen : list vignette := map numbered (seq 1 15).

(** Batch 1 with all its ninety jobs committed. *)
Definition all_done : world :=
  {| calls := 90; ticks := 91;
     fs := {| input_file := fifteen;
              progress_file :=
                {[ 1%Z := Intact
                            {| p_batch := 1;
                               p_completed :=
                                 map job_key
                                   (enumerate_jobs DEMOGRAPHIC_TEMPLATES
                                      fifteen);
                               p_adaptations := replicate 90 Sample.result1;
                               p_updated := py "2025-01-01T00:00:00" |} ]};
              output_file := {[ 1%Z := replicate 90 Sample.result1 ]};
              log_file := ∅; final_output := None;
              merge_log_file := None |} |}.

(** Responses with fences: an opening fence line and no closing fence; a
    closing fence followed by commentary; both fences on one line. *)
Definition unclosed : pystr := py "  ```json" ++ NL ++ py "{} ".
Definition with_commentary : pystr :=
  py "```json" ++ NL ++ py "{}" ++ NL ++ py "``` Done. ".
Definition on_one_line : pystr := py "```json {}```".

Definition status_and_merge : args :=
  {| arg_batch := Some 1%Z; arg_merge := true; arg_status := true |}.
Definition merge_and_batch : args :=
  {| arg_batch := Some 1%Z; arg_merge := true; arg_status := false |}.
Definition batch_four : args :=
  {| arg_batch := Some 4%Z; arg_merge := false; arg_status := false |}.

End Scenario.

(** * Properties *)

(** ** Strings *)

Lemma lstrip_spaces (g s : pystr) :
  forallb isspace g = true -> lstrip (g ++ s) = lstrip s.
Proof.
  induction g as [|c g IH]; simpl; [done|].
  intros [Hc Hg]%andb_prop. rewrite Hc. auto.
Qed.

Lemma lstrip_idemp (s : pystr) : lstrip (lstrip s) = lstrip s.
Proof.
  induction s as [|c s IH]; simpl; [done|].
  destruct (isspace c) eqn:E; [done|]. simpl. by rewrite E.
Qed.

Lemma rstrip_spaces (s g : pystr) :
  forallb isspace g = true -> rstrip (s ++ g) = rstrip s.
Proof.
  intros Hg. unfold rstrip. rewrite rev_app_distr.
  rewrite lstrip_spaces; [done|].
  rewrite forallb_forall in *. intros x Hx. apply Hg. by apply in_rev.
Qed.

Lemma rstrip_cons (c : N) (s : pystr) :
  isspace c = false -> rstrip (c :: s) = c :: rstrip s.
Proof.
  intros Hc. unfold rstrip. simpl.
  assert (H : forall u, lstrip (u ++ [c]) = lstrip u ++ [c]).
  { induction u as [|a u IH]; simpl; [by rewrite Hc|].
    destruct (isspace a); [done|]. done. }
  rewrite H, rev_app_distr. done.
Qed.

Lemma strip_spaces (P g : pystr) :
  forallb isspace g = true -> strip (P ++ g) = strip P.
Proof.
  intros Hg. unfold strip. induction P as [|c P IH]; simpl.
  - rewrite <- (app_nil_r g), lstrip_spaces by done. done.
  - destruct (isspace c); [done|].
    change (c :: P ++ g) with ((c :: P) ++ g). by apply rstrip_spaces.
Qed.

Lemma strip_idemp (s : pystr) : strip (strip s) = strip s.
Proof.
  unfold strip.
  assert (H : forall t, lstrip t = t -> lstrip (rstrip t) = rstrip t).
  { intros [|c t] Ht; [done|]. simpl in Ht.
    destruct (isspace c) eqn:E.
    - exfalso. assert (Hl : forall u, length (lstrip u) <= length u).
      { induction u as [|a u IH]; simpl; [lia|].
        destruct (isspace a); simpl; lia. }
      specialize (Hl t). rewrite Ht in Hl. simpl in Hl. lia.
    - rewrite rstrip_cons by done. simpl. by rewrite E. }
  rewrite H by apply lstrip_idemp.
  unfold rstrip. rewrite rev_involutive, lstrip_idemp. done.
Qed.

Lemma find_char (c : N) (pre rest : pystr) :
  c ∉ pre -> find [c] (pre ++ c :: rest) = Some (length pre).
Proof.
  induction pre as [|a pre IH]; intros Hc; simpl.
  - by rewrite N.eqb_refl.
  - apply not_elem_of_cons in Hc as [Hne Hc].
    destruct (N.eqb_spec c a) as [->|_]; [done|]. simpl.
    rewrite (IH Hc). done.
Qed.

Lemma rfind_suffix (l : pystr) : rfind FENCE (l ++ FENCE) = Some (length l).
Proof.
  induction l as [|c l IH]; [done|].
  change (rfind FENCE (c :: l ++ FENCE) = Some (S (length l))).
  simpl rfind at 1. cbn [app]. by rewrite IH.
Qed.

Lemma strip_fenced (tag P gap : pystr) :
  strip (fenced tag P gap) = fenced tag P gap.
Proof.
  unfold strip, fenced. change (lstrip (FENCE ++ ?x)) with (FENCE ++ x).
  unfold rstrip. rewrite !rev_app_distr.
  change (rev FENCE) with FENCE.
  rewrite <- !app_assoc.
  change (lstrip (FENCE ++ ?x)) with (FENCE ++ x).
  rewrite !rev_app_distr, !rev_involutive.
  change (rev FENCE) with FENCE. by rewrite <- !app_assoc.
Qed.

Lemma extract_json_unfenced (P : pystr) :
  startswith FENCE (strip P) = false -> extract_json P = strip P.
Proof. intros H. unfold extract_json. rewrite H. apply strip_idemp. Qed.

Lemma extract_json_of_fenced (tag P gap : pystr) :
  10%N ∉ tag -> forallb isspace gap = true ->
  extract_json (fenced tag P gap) = strip P.
Proof.
  intros Htag Hgap. unfold extract_json. rewrite strip_fenced.
  change (startswith FENCE (fenced tag P gap)) with true. cbv iota.
  assert (Hf : find NL (fenced tag P gap) = Some (length (FENCE ++ tag))).
  { unfold fenced, NL. rewrite (app_assoc FENCE tag). apply find_char.
    unfold FENCE. intros [H|H]%elem_of_app; [|done].
    vm_compute in H. set_solver. }
  rewrite Hf.
  assert (Hd : drop (length (FENCE ++ tag) + length NL) (fenced tag P gap)
               = (P ++ gap) ++ FENCE).
  { unfold fenced. rewrite (app_assoc FENCE tag), (app_assoc _ NL).
    rewrite <- length_app, drop_app_length. by rewrite app_assoc. }
  rewrite Hd, rfind_suffix, take_app_length. by apply strip_spaces.
Qed.

(** ** The retry loop *)

Section Properties.

Variable json_loads : pystr -> option json.
Variable api : nat -> api_outcome.
Variable clock : nat -> pystr.

Notation attempt_body := (attempt_body json_loads api clock).
Notation retry_loop := (retry_loop json_loads api clock).
Notation adapt_single_vignette := (adapt_single_vignette json_loads api clock).
Notation handle_text := (handle_text json_loads clock).
Notation adapted := (adapted json_loads api clock).
Notation job_body := (job_body json_loads api clock).
Notation process_jobs := (process_jobs json_loads api clock).
Notation run_jobs := (run_jobs json_loads api clock).
Notation run_batch := (run_batch json_loads api clock).
Notation good_response := (good_response json_loads api).
Notation made_by := (made_by json_loads api clock).
Notation clean_service := (clean_service json_loads api clock).
Notation save_batch_progress := (save_batch_progress clock).
Notation merge_batches := (merge_batches clock).
Notation merge_all_batches := (merge_all_batches clock).

Lemma on_exception_spec attempt d w e w' ev :
  on_exception attempt d w = (e, w', ev) ->
  w' = w
  ∧ (attempt = MAX_RETRIES - 1 ∧ e = Return None ∧ ev = []
     ∨ attempt ≠ MAX_RETRIES - 1 ∧ e = Continue d ∧ ev = [EvSleep 15]).
Proof.
  unfold on_exception. destruct (Nat.eqb_spec attempt (MAX_RETRIES - 1));
    run_m; intros ?; simplify_eq; auto.
Qed.

Lemma on_json_error_spec attempt d w e w' ev :
  on_json_error attempt d w = (e, w', ev) ->
  w' = w
  ∧ (attempt = MAX_RETRIES - 1 ∧ e = Return None ∧ ev = []
     ∨ attempt ≠ MAX_RETRIES - 1 ∧ e = Continue d ∧ ev = [EvSleep 10]).
Proof.
  unfold on_json_error. destruct (Nat.eqb_spec attempt (MAX_RETRIES - 1));
    run_m; intros ?; simplify_eq; auto.
Qed.

Lemma on_exception_post attempt d w e w' ev :
  on_exception attempt d w = (e, w', ev) -> handler_post attempt d w e w' ev.
Proof.
  intros (-> & [(? & -> & ->)|(? & -> & ->)])%on_exception_spec;
    repeat split; auto.
  constructor; [|done]. by exists 15%Z.
Qed.

Lemma on_json_error_post attempt d w e w' ev :
  on_json_error attempt d w = (e, w', ev) -> handler_post attempt d w e w' ev.
Proof.
  intros (-> & [(? & -> & ->)|(? & -> & ->)])%on_json_error_spec;
    repeat split; auto.
  constructor; [|done]. by exists 10%Z.
Qed.

Lemma handle_text_spec v text attempt d w e w' ev :
  handle_text v text attempt d w = (e, w', ev) ->
  handler_post attempt d w e w' ev
  ∨ ev = [] ∧ fs w' = fs w ∧ calls w' = calls w ∧ ticks w' = S (ticks w)
    ∧ ∃ kvs, json_loads (extract_json text) = Some (JObj kvs)
      ∧ all_in REQUIRED_FIELDS (JObj kvs) = Some true
      ∧ e = Return (Some (JObj (dict_set
                        (dict_set
                           (dict_set kvs (py "category")
                              (default (JStr []) (category v)))
                           (py "model") (JStr MODEL_NAME))
                        (py "timestamp") (JStr (clock (ticks w)))))).
Proof.
  unfold Runner.handle_text. intros H.
  destruct (json_loads (extract_json text)) as [result|] eqn:Hl;
    [|left; by apply on_json_error_post].
  destruct (all_in REQUIRED_FIELDS result) as [[|]|] eqn:Ha;
    [|left; by apply on_exception_post..].
  destruct result as [| | | | |kvs]; simpl in H;
    try (left; by apply on_exception_post).
  right. run_m. simplify_eq. repeat split; eauto.
Qed.

Lemma attempt_body_spec v vt attempt d w e w' ev :
  (60 <= d)%Z ->
  attempt_body v vt attempt d w = (e, w', ev) ->
  fs w' = fs w ∧ calls w' = S (calls w)
  ∧ Forall (retry_event (vignette_id v) vt) ev
  ∧ match e with
    | Return (Some x) => adapted v (calls w) (ticks w) x
    | Return None => attempt = MAX_RETRIES - 1
    | Continue d' => (60 <= d')%Z
    end.
Proof.
  intros Hd. unfold Runner.attempt_body, bind, call_gemini_api.
  assert (Hpost : forall w0 e0 w1 ev0,
    handler_post attempt d w0 e0 w1 ev0 ->
    w1 = w0 ∧ Forall (retry_event (vignette_id v) vt) ev0
    ∧ match e0 with
      | Return (Some x) => False
      | Return None => attempt = MAX_RETRIES - 1
      | Continue d' => (60 <= d')%Z
      end).
  { intros w0 e0 w1 ev0 (-> & Hev & He). repeat split.
    - eapply Forall_impl; [exact Hev|]. intros ? ?. by right.
    - destruct He as [[-> ->]| ->]; [done|lia]. }
  destruct (api (calls w)) as [text|c| |] eqn:Hapi.
  - destruct (handle_text v text attempt d _) as [[e1 w1] ev1] eqn:Hh.
    intros ?; simplify_eq.
    apply handle_text_spec in Hh as [Hh|(-> & Hfs & Hc & Ht & kvs & ? & ? & ->)].
    + apply Hpost in Hh as (-> & Hev & He). simpl. repeat split; [|].
      * constructor; [by left|done].
      * by destruct e as [[x|]|d'].
    + simpl in *. repeat split; [done|done| |].
      * constructor; [by left|done].
      * exists text, kvs. done.
  - unfold on_http_error, MAX_RETRY_DELAY, MAX_RETRIES.
    destruct (Z.eqb_spec c 429); [|destruct (Z.eqb_spec c 503);
      [|destruct (Nat.eqb_spec attempt (5 - 1))]];
      run_m; intros ?; simplify_eq; simpl; repeat split; auto; try lia;
      (constructor; [by left|]); try done;
      (constructor; [|done]); right; eexists; (split; [done|]);
      unfold DELAY_BETWEEN_REQUESTS; lia.
  - destruct (on_json_error attempt d _) as [[e1 w1] ev1] eqn:Hh.
    intros ?; simplify_eq.
    apply on_json_error_post, Hpost in Hh as (-> & Hev & He). simpl.
    repeat split; [by constructor; [left|]|]. by destruct e as [[x|]|d'].
  - destruct (on_exception attempt d _) as [[e1 w1] ev1] eqn:Hh.
    intros ?; simplify_eq.
    apply on_exception_post, Hpost in Hh as (-> & Hev & He). simpl.
    repeat split; [by constructor; [left|]|]. by destruct e as [[x|]|d'].
Qed.

Lemma retry_loop_spec v vt attempts d w r w' ev :
  (60 <= d)%Z ->
  retry_loop v vt attempts d w = (r, w', ev) ->
  fs w' = fs w
  ∧ calls w <= calls w' <= calls w + length attempts
  ∧ Forall (retry_event (vignette_id v) vt) ev
  ∧ match r with
    | Some x => ∃ n m, calls w <= n < calls w' ∧ adapted v n m x
    | None => True
    end.
Proof.
  revert d w r w' ev.
  induction attempts as [|attempt rest IH]; intros d w r w' ev Hd; simpl.
  - unfold ret. intros ?; simplify_eq. repeat split; auto; lia.
  - unfold bind at 1.
    destruct (attempt_body v vt attempt d w) as [[e w1] ev1] eqn:Hb.
    apply attempt_body_spec in Hb as (Hfs & Hc & Hev & He); [|done].
    destruct e as [res|d'].
    + unfold ret. intros ?; simplify_eq. rewrite app_nil_r.
      repeat split; auto; try lia.
      destruct r as [x|]; [|done]. exists (calls w), (ticks w).
      split; [lia|done].
    + destruct (retry_loop v vt rest d' w1) as [[r2 w2] ev2] eqn:Hr.
      intros ?; simplify_eq.
      apply IH in Hr as (Hfs2 & Hc2 & Hev2 & Hr); [|done].
      repeat split; try congruence; try lia.
      * by apply Forall_app.
      * destruct r as [x|]; [|done]. destruct Hr as (n & m & ? & ?).
        exists n, m. split; [lia|done].
Qed.

Lemma adapt_single_vignette_spec v vt t w r w' ev :
  adapt_single_vignette v vt t w = (r, w', ev) ->
  fs w' = fs w
  ∧ calls w <= calls w' <= calls w + MAX_RETRIES
  ∧ Forall (retry_event (vignette_id v) vt) ev
  ∧ match r with
    | Some x => ∃ n m, calls w <= n < calls w' ∧ adapted v n m x
    | None => True
    end.
Proof.
  unfold Runner.adapt_single_vignette. intros H.
  apply retry_loop_spec in H; [|unfold INITIAL_RETRY_DELAY; lia].
  by rewrite length_seq in H.
Qed.

Lemma adapted_truthy v n m x : adapted v n m x -> truthy x = true.
Proof.
  intros (text & kvs & _ & _ & _ & ->). simpl.
  by destruct (dict_set (dict_set kvs _ _) _ _) as [|[]]; simpl;
    [|destruct (pystr_eqb _ _)].
Qed.

Lemma advance_0 w : advance 0 w = w.
Proof. destruct w. unfold advance. simpl. f_equal. lia. Qed.

Lemma retry_loop_rate_limited v vt attempts d w :
  (∀ i, i < length attempts -> api (calls w + i) = ApiHTTPError 429) ->
  retry_loop v vt attempts d w
  = (None, advance (length attempts) w,
     rate_limited_events (vignette_id v) vt (length attempts) d).
Proof.
  revert d w. induction attempts as [|a rest IH]; intros d w Hapi.
  - simpl. unfold ret. by rewrite advance_0.
  - cbn [Runner.retry_loop length rate_limited_events].
    unfold bind, Runner.attempt_body, bind, call_gemini_api.
    generalize (Hapi 0). rewrite Nat.add_0_r. intros ->; [|simpl; lia].
    unfold on_http_error. simpl Z.eqb. cbv iota. run_m.
    rewrite IH.
    + simpl. f_equal. f_equal. unfold advance. simpl. f_equal. lia.
    + intros i Hi. simpl calls.
      replace (S (calls w) + i) with (calls w + S i) by lia.
      apply Hapi. simpl. lia.
Qed.

(** ** Loops *)

(** A loop over two lists in a row: the second is reached when the first
    did not raise. *)
Lemma for_each_try_app {A S} (body : A -> S -> M (outcome S))
    (xs ys : list A) st w :
  for_each_try body (xs ++ ys) st w
  = let '(o, w1, e1) := for_each_try body xs st w in
    match o with
    | Normal st1 =>
        let '(o2, w2, e2) := for_each_try body ys st1 w1 in
        (o2, w2, e1 ++ e2)
    | Raised e st1 => (Raised e st1, w1, e1)
    end.
Proof.
  revert st w. induction xs as [|x xs IH]; intros st w; simpl.
  - unfold ret. by destruct (for_each_try body ys st w) as [[? ?] ?].
  - unfold bind. destruct (body x st w) as [[[st1|e st1] w1] ev1].
    + rewrite IH.
      destruct (for_each_try body xs st1 w1) as [[[st2|e st2] w2] ev2].
      * destruct (for_each_try body ys st2 w2) as [[o3 w3] ev3].
        by rewrite app_assoc.
      * done.
    + unfold ret. by rewrite app_nil_r.
Qed.

Lemma for_each_try_nested {A B S} (f : A -> B -> S -> M (outcome S))
    (xs : list A) (ys : list B) st w :
  for_each_try (fun x => for_each_try (f x) ys) xs st w
  = for_each_try (fun j => f j.1 j.2)
      (flat_map (fun x => map (pair x) ys) xs) st w.
Proof.
  revert st w. induction xs as [|x xs IH]; intros st w; [done|].
  simpl. rewrite for_each_try_app. unfold bind.
  assert (H : forall st w, for_each_try (f x) ys st w
              = for_each_try (fun j => f j.1 j.2) (map (pair x) ys) st w).
  { clear. induction ys as [|y ys IH]; intros st w; [done|].
    simpl. unfold bind. destruct (f x y st w) as [[[st1|e st1] w1] ev1];
      [by rewrite IH|done]. }
  rewrite H.
  destruct (for_each_try _ (map (pair x) ys) st w)
    as [[[st1|e st1] w1] ev1].
  - by rewrite IH.
  - unfold ret. by rewrite app_nil_r.
Qed.

(** An invariant of a loop whose body may raise, over the part of the list
    that was visited: the whole list when the loop ends normally. *)
Lemma for_each_try_rule_prefix {A S} (body : A -> S -> M (outcome S))
    (R : list A -> outcome S -> world -> list event -> Prop) (xs : list A)
    st w o w' ev :
  R [] (Normal st) w [] ->
  (∀ pre x suf st1 w1 ev1 o2 w2 ev2,
     xs = pre ++ x :: suf -> R pre (Normal st1) w1 ev1 ->
     body x st1 w1 = (o2, w2, ev2) ->
     R (pre ++ [x]) o2 w2 (ev1 ++ ev2)) ->
  for_each_try body xs st w = (o, w', ev) ->
  ∃ pre suf, xs = pre ++ suf
             ∧ (is_normal o = true -> suf = [])
             ∧ R pre o w' ev.
Proof.
  intros H0 Hstep Hrun.
  assert (Hgen : forall ys pre st0 w0 evpre ev0,
    xs = pre ++ ys -> R pre (Normal st0) w0 evpre ->
    for_each_try body ys st0 w0 = (o, w', ev0) ->
    ∃ pre' suf, xs = pre' ++ suf
                ∧ (is_normal o = true -> suf = [])
                ∧ R pre' o w' (evpre ++ ev0)).
  { induction ys as [|y ys IH]; intros pre st0 w0 evpre ev0 Hxs Hpre; simpl.
    - unfold ret. intros ?; simplify_eq. exists pre, [].
      by rewrite !app_nil_r.
    - unfold bind. destruct (body y st0 w0) as [[[st1|e st1] w1] ev1] eqn:Hb.
      + destruct (for_each_try body ys st1 w1) as [[o2 w2] ev2] eqn:Hf.
        intros ?; simplify_eq. rewrite app_assoc.
        eapply (IH (pre ++ [y])); [by rewrite <- app_assoc| |exact Hf].
        eapply Hstep; eauto.
      + unfold ret. intros ?; simplify_eq. rewrite app_nil_r.
        exists (pre ++ [y]), ys. split; [by rewrite <- app_assoc|].
        split; [done|]. eapply Hstep; eauto. }
  apply (Hgen xs [] st w [] ev eq_refl H0 Hrun).
Qed.

Lemma for_each_try_rule {A S} (body : A -> S -> M (outcome S))
    (R : outcome S -> world -> list event -> Prop) (xs : list A)
    st w o w' ev :
  R (Normal st) w [] ->
  (∀ x st1 w1 ev1 o2 w2 ev2,
     x ∈ xs -> R (Normal st1) w1 ev1 -> body x st1 w1 = (o2, w2, ev2) ->
     R o2 w2 (ev1 ++ ev2)) ->
  for_each_try body xs st w = (o, w', ev) ->
  R o w' ev.
Proof.
  intros H0 Hstep Hrun.
  apply (for_each_try_rule_prefix body (fun _ => R)) in Hrun
    as (pre & suf & _ & _ & H); [done|done|].
  intros pre x suf st1 w1 ev1 o2 w2 ev2 -> H1 H2.
  eapply Hstep; eauto. set_solver.
Qed.

Lemma process_jobs_enumerate b tot templates vignettes st w :
  process_jobs b tot templates vignettes st w
  = run_jobs b tot (enumerate_jobs templates vignettes) st w.
Proof. apply for_each_try_nested. Qed.

(** ** One job *)

Lemma save_batch_progress_run b cs ads w :
  let p := {| p_batch := b; p_completed := cs; p_adaptations := ads;
              p_updated := clock (ticks w) |} in
  save_batch_progress b cs ads w
  = if progress_encodes p then
      (Ok tt,
       {| calls := calls w; ticks := S (ticks w);
          fs := fs_commit (fs w) b p |},
       [EvMkdir; EvWriteProgress b p; EvWriteOutput b ads])
    else
      (Raise UnicodeEncodeError,
       {| calls := calls w; ticks := S (ticks w);
          fs := fs_truncated (fs w) b |},
       [EvMkdir]).
Proof.
  intros p. unfold Runner.save_batch_progress, bind, mkdir_output, emit, now.
  fold p. by destruct (progress_encodes p).
Qed.

Lemma job_body_skip b tot v vt t st w :
  join_key (vignette_id v) vt ∈ completed st ->
  job_body b tot v (vt, t) st w = (Normal st, w, []).
Proof. intros H. unfold Runner.job_body. by rewrite decide_True. Qed.

Lemma job_body_run b tot v vt t st w res w1 inner :
  join_key (vignette_id v) vt ∉ completed st ->
  adapt_single_vignette v vt t w = (res, w1, inner) ->
  let key := join_key (vignette_id v) vt in
  let cur := (Z.of_nat (size (completed st)) + 1)%Z in
  job_body b tot v (vt, t) st w
  = match res with
    | Some r =>
        let p := {| p_batch := b;
                    p_completed := elements ({[key]} ∪ completed st);
                    p_adaptations := adaptations st ++ [r];
                    p_updated := clock (ticks w1) |} in
        if progress_encodes p then
          (Normal (st_commit st key r),
           {| calls := calls w1; ticks := S (ticks w1);
              fs := fs_commit (fs w1) b p |},
           EvJobStart key cur tot
           :: inner ++ [EvMkdir; EvWriteProgress b p;
                        EvWriteOutput b (adaptations st ++ [r]);
                        EvJobOk; EvSleep DELAY_BETWEEN_REQUESTS])
        else
          (Raised UnicodeEncodeError (st_commit st key r),
           {| calls := calls w1; ticks := S (ticks w1);
              fs := fs_truncated (fs w1) b |},
           EvJobStart key cur tot :: inner ++ [EvMkdir])
    | None =>
        (Normal (st_fail st key), w1,
         EvJobStart key cur tot
         :: inner ++ [EvJobFailed; EvSleep DELAY_BETWEEN_REQUESTS])
    end.
Proof.
  intros Hk Ha. unfold Runner.job_body. rewrite decide_False by done.
  unfold bind at 1. unfold emit at 1. unfold bind at 1. rewrite Ha.
  destruct res as [r|].
  - assert (Ht : truthy r = true).
    { apply adapt_single_vignette_spec in Ha as (_ & _ & _ & n & m & _ & Hr).
      by eapply adapted_truthy. }
    rewrite Ht. unfold bind.
    pose proof (save_batch_progress_run b
                  (elements ({[join_key (vignette_id v) vt]} ∪ completed st))
                  (adaptations st ++ [r]) w1) as Hs.
    cbv zeta in Hs |- *. rewrite Hs.
    destruct (progress_encodes _);
      unfold emit, sleep, ret, emit; simpl; done.
  - unfold bind, emit, sleep, ret, emit. simpl. done.
Qed.

(** The three ways through the loop body: the job is skipped, or it is
    started and ends with the rate-limit delay (committed or failed), or it
    is started and [save_batch_progress] raises. *)
Lemma job_body_inv b tot j st w o w' ev :
  job_body b tot j.1 j.2 st w = (o, w', ev) ->
  (job_key j ∈ completed st ∧ o = Normal st ∧ w' = w ∧ ev = [])
  ∨ (job_key j ∉ completed st
     ∧ ∃ res w1 inner tail,
         adapt_single_vignette j.1 j.2.1 j.2.2 w = (res, w1, inner)
         ∧ Forall (retry_event (vignette_id j.1) j.2.1) inner
         ∧ ev = EvJobStart (job_key j) (Z.of_nat (size (completed st)) + 1)
                  tot :: inner ++ tail
         ∧ match res with
           | Some r =>
               let p := {| p_batch := b;
                           p_completed :=
                             elements ({[job_key j]} ∪ completed st);
                           p_adaptations := adaptations st ++ [r];
                           p_updated := clock (ticks w1) |} in
               (∃ n m, adapted j.1 n m r ∧ calls w <= n < calls w')
               ∧ calls w' = calls w1 ∧ ticks w' = S (ticks w1)
               ∧ if progress_encodes p
                 then o = Normal (st_commit st (job_key j) r)
                      ∧ fs w' = fs_commit (fs w) b p
                      ∧ tail = [EvMkdir; EvWriteProgress b p;
                                EvWriteOutput b (adaptations st ++ [r]);
                                EvJobOk; EvSleep DELAY_BETWEEN_REQUESTS]
                 else o = Raised UnicodeEncodeError
                            (st_commit st (job_key j) r)
                      ∧ fs w' = fs_truncated (fs w) b
                      ∧ tail = [EvMkdir]
           | None =>
               o = Normal (st_fail st (job_key j)) ∧ w' = w1
               ∧ fs w' = fs w ∧ calls w <= calls w'
               ∧ tail = [EvJobFailed; EvSleep DELAY_BETWEEN_REQUESTS]
           end).
Proof.
  destruct j as [v [vt t]]. unfold job_key. cbn [fst snd]. intros H.
  destruct (decide (join_key (vignette_id v) vt ∈ completed st)) as [Hin|Hin].
  - left. rewrite job_body_skip in H by done. by simplify_eq.
  - right. split; [done|].
    destruct (adapt_single_vignette v vt t w) as [[res w1] inner] eqn:Ha.
    rewrite (job_body_run _ _ _ _ _ _ _ _ _ _ Hin Ha) in H.
    pose proof Ha as Hspec.
    apply adapt_single_vignette_spec in Hspec as (Hfs & Hc & Hev & Hr).
    destruct res as [r|]; cbv zeta in H |- *.
    + destruct Hr as (n & m & Hn & Hr).
      destruct (progress_encodes _) eqn:He; simplify_eq.
      * eexists (Some r), w1, inner, _. split; [done|]. split; [done|].
        split; [done|]. cbn [calls ticks fs]. rewrite He, Hfs.
        split; [exists n, m; split; [done|lia]|]. done.
      * eexists (Some r), w1, inner, _. split; [done|]. split; [done|].
        split; [done|]. cbn [calls ticks fs]. rewrite He, Hfs.
        split; [exists n, m; split; [done|lia]|]. done.
    + simplify_eq. eexists None, w', inner, _.
      split; [done|]. split; [done|]. split; [done|].
      repeat split; auto; lia.
Qed.

(** ** Traces *)

Lemma retry_events_quiet vid vt inner :
  Forall (retry_event vid vt) inner ->
  existsb is_rate_delay inner = false
  ∧ existsb is_job_start inner = false
  ∧ attempted inner = []
  ∧ snapshots inner = []
  ∧ List.filter is_rate_delay inner = []
  ∧ Forall (fun q => q = (vid, vt)) (requests inner).
Proof.
  induction 1 as [|e inner He _ IH]; [done|].
  destruct IH as (H1 & H2 & H3 & H4 & H5 & H6).
  destruct He as [->|(s & -> & Hs)]; simpl.
  - repeat split; auto.
  - destruct (Z.eqb_spec s DELAY_BETWEEN_REQUESTS); [done|].
    repeat split; auto.
Qed.

Lemma attempted_app ev1 ev2 :
  attempted (ev1 ++ ev2) = attempted ev1 ++ attempted ev2.
Proof. apply omap_app. Qed.

Lemma snapshots_app ev1 ev2 :
  snapshots (ev1 ++ ev2) = snapshots ev1 ++ snapshots ev2.
Proof. apply omap_app. Qed.

Lemma requests_app ev1 ev2 :
  requests (ev1 ++ ev2) = requests ev1 ++ requests ev2.
Proof. apply omap_app. Qed.

Lemma delays_app ev1 ev2 : delays (ev1 ++ ev2) = delays ev1 + delays ev2.
Proof. unfold delays. by rewrite List.filter_app, length_app. Qed.

Lemma job_segments_app ks1 ev1 ks2 ev2 :
  job_segments ks1 ev1 -> job_segments ks2 ev2 ->
  job_segments (ks1 ++ ks2) (ev1 ++ ev2).
Proof.
  induction 1 as [|k cur tot inner ks rest Hd Hs _ IH]; intros H2; [done|].
  simpl. rewrite <- app_assoc. simpl. constructor; auto.
Qed.

(** The events of one started job that ends form one segment. *)
Lemma job_segment_one k cur tot vid vt inner mid :
  Forall (retry_event vid vt) inner ->
  mid = [EvJobFailed]
  ∨ (∃ b p ads, mid = [EvMkdir; EvWriteProgress b p; EvWriteOutput b ads;
                       EvJobOk]) ->
  let ev := EvJobStart k cur tot
            :: inner ++ mid ++ [EvSleep DELAY_BETWEEN_REQUESTS] in
  job_segments [k] ev ∧ attempted ev = [k] ∧ delays ev = 1.
Proof.
  intros Hin Hmid ev.
  apply retry_events_quiet in Hin as (H1 & H2 & H3 & H4 & H5 & H6).
  assert (Ht : existsb is_rate_delay mid = false
               ∧ existsb is_job_start mid = false
               ∧ attempted mid = []
               ∧ List.filter is_rate_delay mid = []).
  { destruct Hmid as [->|(b & p & ads & ->)]; done. }
  destruct Ht as (T1 & T2 & T3 & T4).
  subst ev. repeat split.
  - rewrite app_assoc.
    apply (segments_cons k cur tot (inner ++ mid) [] []);
      [| |constructor]; rewrite existsb_app; by apply orb_false_iff.
  - simpl. rewrite !attempted_app, H3, T3. done.
  - unfold delays. simpl. rewrite !List.filter_app, H5, T4. done.
Qed.

Lemma job_body_segments b tot j st w o w' ev :
  job_body b tot j.1 j.2 st w = (o, w', ev) ->
  segments_upto (is_normal o) ev.
Proof.
  intros [(_ & -> & _ & ->)
         |(Hk & res & w1 & inner & tail & _ & Hin & -> & Hres)]%job_body_inv.
  { split; [constructor|done]. }
  destruct res as [r|]; cbv zeta in Hres.
  - destruct Hres as (_ & _ & _ & Hres).
    match type of Hres with
    | context [progress_encodes ?q] => set (p := q) in *
    end.
    destruct (progress_encodes p).
    + destruct Hres as (-> & _ & ->).
      destruct (job_segment_one (job_key j)
                  (Z.of_nat (size (completed st)) + 1) tot _ _ inner
                  [EvMkdir; EvWriteProgress b p;
                   EvWriteOutput b (adaptations st ++ [r]); EvJobOk]
                  Hin) as (H1 & H2 & H3); [right; eauto|].
      cbn [is_normal segments_upto]. cbn [app] in H1, H2, H3 |- *.
      rewrite H2, H3. done.
    + destruct Hres as (-> & _ & ->). cbn [is_normal segments_upto].
      apply retry_events_quiet in Hin as (Q1 & _ & Q3 & _ & Q5 & _).
      exists [], (job_key j), (Z.of_nat (size (completed st)) + 1)%Z, tot,
        [], (inner ++ [EvMkdir]).
      split.
      { simpl. by rewrite attempted_app, Q3. }
      split; [done|]. split; [constructor|]. split.
      { by rewrite existsb_app, Q1. }
      unfold delays. simpl. by rewrite List.filter_app, Q5.
  - destruct Hres as (-> & _ & _ & _ & ->).
    destruct (job_segment_one (job_key j)
                (Z.of_nat (size (completed st)) + 1) tot _ _ inner
                [EvJobFailed] Hin) as (H1 & H2 & H3); [by left|].
    cbn [is_normal segments_upto]. cbn [app] in H1, H2, H3 |- *.
    rewrite H2, H3. done.
Qed.

Lemma run_jobs_segments b tot jobs st w o w' ev :
  run_jobs b tot jobs st w = (o, w', ev) ->
  segments_upto (is_normal o) ev.
Proof.
  apply (for_each_try_rule _ (fun o _ ev => segments_upto (is_normal o) ev)).
  - split; [constructor|done].
  - intros j st1 w1 ev1 o2 w2 ev2 _ [H1 H2] Hb%job_body_segments.
    destruct o2 as [st2|e st2]; cbn [is_normal segments_upto] in Hb |- *.
    + destruct Hb as [H3 H4].
      rewrite attempted_app, delays_app, length_app. split; [|lia].
      by apply job_segments_app.
    + destruct Hb as (ks & k & cur & tot' & segs & inner & E1 & -> & E3 & E4
                      & E5).
      exists (attempted ev1 ++ ks), k, cur, tot', (ev1 ++ segs), inner.
      rewrite attempted_app, delays_app, E1, E5, length_app, <- !app_assoc.
      split; [done|]. split; [done|]. split; [by apply job_segments_app|].
      split; [done|lia].
Qed.

(** ** The batch *)

Lemma load_batch_progress_run b w :
  load_batch_progress b w
  = (match progress_file (fs w) !! b with
     | Some Truncated => Raise JSONDecodeError
     | _ => Ok (stored (fs w) b)
     end, w, []).
Proof.
  unfold load_batch_progress, stored, bind, get_fs, ret.
  by destruct (progress_file (fs w) !! b) as [[p|]|].
Qed.

Lemma load_batch_progress_loadable b w :
  loadable (fs w) b ->
  load_batch_progress b w = (Ok (stored (fs w) b), w, []).
Proof.
  intros H. rewrite load_batch_progress_run. unfold loadable in H.
  by destruct (progress_file (fs w) !! b) as [[p|]|].
Qed.

Lemma loadable_cases f b :
  loadable f b ∨ progress_file f !! b = Some Truncated.
Proof.
  clear json_loads api clock.
  unfold loadable. destruct (progress_file f !! b) as [[p|]|]; auto.
Qed.

Lemma run_batch_truncated templates b range items w :
  progress_file (fs w) !! b = Some Truncated ->
  run_batch templates b range items w = (Uncaught JSONDecodeError, w, []).
Proof.
  intros H. unfold Runner.run_batch. unfold bind at 1.
  rewrite load_batch_progress_run, H. done.
Qed.

(** [run_batch] on a progress file that can be loaded, step by step. *)
Lemma run_batch_unfold templates b range items w :
  loadable (fs w) b ->
  run_batch templates b range items w
  = let s0 := stored (fs w) b in
    let tot := Z.of_nat (total_for_batch templates items) in
    if (tot - Z.of_nat (size (completed (initial_locals_of s0))) =? 0)%Z
    then (Returned, w, [])
    else
      let '(o, w1, ev1) :=
        run_jobs b tot (enumerate_jobs templates items)
          (initial_locals_of s0) w in
      match o with
      | Raised e _ => (Uncaught e, w1, ev1)
      | Normal st =>
          let l := {| l_batch := b; l_completed := clock (ticks w1);
                      l_total := length (adaptations st);
                      l_failed := failed st;
                      l_vignette_range := (range.1 + 1, range.2);
                      l_variants := map fst templates |} in
          if log_encodes l then
            (Returned,
             {| calls := calls w1; ticks := S (ticks w1);
                fs := fs_with_log (fs w1) b l |},
             ev1 ++ [EvWriteLog b l])
          else
            (Uncaught UnicodeEncodeError,
             {| calls := calls w1; ticks := S (ticks w1);
                fs := fs_log_truncated (fs w1) b |},
             ev1)
      end.
Proof.
  intros Hl. unfold Runner.run_batch. unfold bind at 1.
  rewrite load_batch_progress_loadable by done.
  cbv zeta. cbv iota.
  change (list_to_set (stored (fs w) b).1)
    with (completed (initial_locals_of (stored (fs w) b))).
  destruct (_ =? 0)%Z; [done|].
  unfold bind at 1.
  change {| completed := completed (initial_locals_of (stored (fs w) b));
            adaptations := (stored (fs w) b).2; failed := [] |}
    with (initial_locals_of (stored (fs w) b)).
  rewrite process_jobs_enumerate.
  destruct (run_jobs b _ _ _ w) as [[[st|e st] w1] ev1].
  - unfold now, bind. cbn [ticks].
    destruct (log_encodes _);
      unfold write_log, truncate_log, bind, get_fs, set_fs, emit, ret;
      simpl; rewrite ?app_nil_r; done.
  - unfold ret. by rewrite app_nil_r.
Qed.

Lemma process_batch_unfold b w :
  process_batch json_loads api clock b w
  = match config_lookup b BATCH_CONFIG with
    | None => (SysExit 1, w, [])
    | Some (start_idx, end_idx) =>
        run_batch DEMOGRAPHIC_TEMPLATES b (start_idx, end_idx)
          (take (end_idx - start_idx) (drop start_idx (input_file (fs w)))) w
    end.
Proof.
  unfold process_batch. destruct (config_lookup b BATCH_CONFIG) as [[s e]|];
    [|done].
  unfold bind, get_fs. by destruct (run_batch _ _ _ _ w) as [[? ?] ?].
Qed.

Lemma run_batch_segments templates b range items w x w' ev :
  run_batch templates b range items w = (x, w', ev) ->
  match x with
  | Uncaught _ => delays ev <= length (attempted ev) <= S (delays ev)
  | _ => segmented ev ∧ delays ev = length (attempted ev)
  end.
Proof.
  assert (Hnil : segmented [] ∧ delays [] = length (attempted [])).
  { split; [|done]. exists [], []. repeat split; auto. constructor. }
  destruct (loadable_cases (fs w) b) as [Hl|Ht].
  - rewrite run_batch_unfold by done.
    cbv zeta. destruct (_ =? 0)%Z; [by intros ?; simplify_eq|].
    destruct (run_jobs b _ _ _ w) as [[[st|e st] w1] ev1] eqn:Hrun;
      apply run_jobs_segments in Hrun; cbn [is_normal segments_upto] in Hrun.
    + destruct Hrun as [H1 H2].
      destruct (log_encodes _); intros ?; simplify_eq; [|lia].
      rewrite attempted_app, delays_app, length_app.
      split; [|unfold delays at 2; simpl; lia].
      eexists ev1, [_]. rewrite attempted_app. simpl.
      by rewrite app_nil_r.
    + intros ?; simplify_eq.
      destruct Hrun as (ks & k & cur & tot' & segs & inner & E1 & _ & _ & _
                        & E5).
      rewrite E1, E5, length_app. simpl. lia.
  - rewrite run_batch_truncated by done.
    intros ?; simplify_eq. unfold delays. simpl. lia.
Qed.
(** ** C7: the rate-limit delay *)

(** C7.  The rate-limit delay [time.sleep(DELAY_BETWEEN_REQUESTS)]
    is applied exactly once after every started job that ends, whether it
    was committed or failed, and a job skipped because its key is completed
    emits nothing at all.  It is not applied after a job whose commit
    raises: [save_batch_progress] cannot encode the record, the exception
    skips the delay and ends the run.  For one pass through the loop body:
    a skipped job leaves state, world and trace unchanged; a started job
    emits its start line, then events none of which is the rate-limit
    delay, and then either the success or the failure mark followed by the
    rate-limit delay, or nothing more, the pass ending with
    [UnicodeEncodeError] and a truncated progress file.  For a whole batch:
    the trace is one such segment per started job, the last one cut short
    when the run was left by the exception; a run that returns has as many
    rate-limit delays as started jobs, a run that raises has as many or one
    less. *)
Theorem rate_limit_delay_once :
  (∀ b tot v vt t st w,
     let key := join_key (vignette_id v) vt in
     if decide (key ∈ completed st)
     then job_body b tot v (vt, t) st w = (Normal st, w, [])
     else
       (∃ st' w' cur inner mark,
          job_body b tot v (vt, t) st w
          = (Normal st', w',
             EvJobStart key cur tot
             :: (inner ++ [mark]) ++ [EvSleep DELAY_BETWEEN_REQUESTS])
          ∧ existsb is_rate_delay (inner ++ [mark]) = false
          ∧ (mark = EvJobOk ∨ mark = EvJobFailed))
       ∨ (∃ st' w' cur inner r w1 ev1,
            job_body b tot v (vt, t) st w
            = (Raised UnicodeEncodeError st', w',
               EvJobStart key cur tot :: inner)
            ∧ existsb is_rate_delay inner = false
            ∧ adapt_single_vignette v vt t w = (Some r, w1, ev1)
            ∧ progress_encodes
                {| p_batch := b;
                   p_completed := elements ({[key]} ∪ completed st);
                   p_adaptations := adaptations st ++ [r];
                   p_updated := clock (ticks w1) |} = false
            ∧ progress_file (fs w') !! b = Some Truncated))
  ∧ (∀ b tot templates items st w,
       let res := process_jobs b tot templates items st w in
       segments_upto (is_normal (value_of res)) (events_of res))
  ∧ (∀ b w,
       let res := process_batch json_loads api clock b w in
       let ev := events_of res in
       match value_of res with
       | Uncaught _ => delays ev <= length (attempted ev) <= S (delays ev)
       | _ => segmented ev ∧ delays ev = length (attempted ev)
       end).
Proof.
  split; [|split].
  - intros b tot v vt t st w key. case_decide as Hk.
    + by apply job_body_skip.
    + destruct (job_body b tot v (vt, t) st w) as [[o w'] ev] eqn:Hb.
      apply (job_body_inv b tot (v, (vt, t))) in Hb
        as [(Hk' & _)
           |(_ & res & w1 & inner & tail & Ha & Hin & -> & Hres)]; [done|].
      cbn [fst snd] in Ha. change (job_key (v, (vt, t))) with key in *.
      apply retry_events_quiet in Hin as (H1 & _).
      destruct res as [r|]; cbv zeta in Hres.
      * destruct Hres as (_ & _ & _ & Hres).
        destruct (progress_encodes _) eqn:He.
        -- destruct Hres as (-> & _ & ->). left.
           eexists _, w', _, (inner ++ [_; _; _]), EvJobOk.
           rewrite <- !app_assoc. split; [done|].
           rewrite !existsb_app, H1. auto.
        -- destruct Hres as (-> & Hfs & ->). right.
           eexists _, w', _, (inner ++ [_]), r, w1, _.
           split; [done|]. split; [by rewrite existsb_app, H1|].
           split; [exact Ha|]. split; [exact He|].
           rewrite Hfs. unfold fs_truncated. cbn [progress_file].
           by rewrite lookup_insert_eq.
      * destruct Hres as (-> & _ & _ & _ & ->). left.
        eexists _, w', _, inner, EvJobFailed.
        rewrite <- !app_assoc. split; [done|].
        rewrite !existsb_app, H1. auto.
  - intros b tot templates items st w res. subst res.
    rewrite process_jobs_enumerate.
    destruct (run_jobs b tot _ st w) as [[o w'] ev] eqn:Hr.
    by apply run_jobs_segments in Hr.
  - intros b w res ev. subst ev res. rewrite process_batch_unfold.
    destruct (config_lookup b BATCH_CONFIG) as [[s e]|].
    + destruct (run_batch _ b (s, e) _ w) as [[x w'] ev] eqn:Hr.
      by apply run_batch_segments in Hr.
    + unfold value_of, events_of. cbn [fst snd].
      split; [|done]. exists [], []. repeat split; auto. constructor.
Qed.

(** ** C2: back-off on HTTP 429 *)

Lemma retry_loop_rate_limited_prefix v vt pre rest d w :
  (∀ i, i < length pre -> api (calls w + i) = ApiHTTPError 429) ->
  retry_loop v vt (pre ++ rest) d w
  = let '(r, w', ev) := retry_loop v vt rest (d * 2 ^ Z.of_nat (length pre))
                          (advance (length pre) w) in
    (r, w', rate_limited_events (vignette_id v) vt (length pre) d ++ ev).
Proof.
  revert d w. induction pre as [|a pre IH]; intros d w Hapi.
  - simpl. rewrite advance_0, Z.mul_1_r.
    by destruct (retry_loop v vt rest d w) as [[? ?] ?].
  - cbn [app Runner.retry_loop length rate_limited_events].
    unfold bind, Runner.attempt_body, bind, call_gemini_api.
    generalize (Hapi 0). rewrite Nat.add_0_r. intros ->; [|simpl; lia].
    unfold on_http_error. simpl Z.eqb. cbv iota. run_m.
    rewrite IH.
    + replace (d * 2 * 2 ^ Z.of_nat (length pre))%Z
        with (d * 2 ^ Z.of_nat (S (length pre)))%Z
        by (rewrite Nat2Z.inj_succ, Z.pow_succ_r; lia).
      replace (advance (length pre)
                 {| calls := S (calls w); ticks := ticks w; fs := fs w |})
        with (advance (S (length pre)) w)
        by (unfold advance; simpl; f_equal; lia).
      by destruct (retry_loop v vt rest _ _) as [[? ?] ?].
    + intros i Hi. simpl calls.
      replace (S (calls w) + i) with (calls w + S i) by lia.
      apply Hapi. simpl. lia.
Qed.

Lemma sleeps_rate_limited vid vt n d :
  sleeps (rate_limited_events vid vt n d)
  = map (fun i => Z.min (d * 2 ^ Z.of_nat i) MAX_RETRY_DELAY) (seq 0 n).
Proof.
  revert d. induction n as [|n IH]; intros d; [done|].
  simpl. rewrite Z.mul_1_r. f_equal.
  change (sleeps (rate_limited_events vid vt n (d * 2))
          = map (fun i => Z.min (d * 2 ^ Z.of_nat i) MAX_RETRY_DELAY)
              (seq 1 n)).
  rewrite IH, <- seq_shift, map_map. apply map_ext. intros i.
  rewrite Nat2Z.inj_succ, Z.pow_succ_r by lia. f_equal. lia.
Qed.

Lemma sleeps_app ev1 ev2 : sleeps (ev1 ++ ev2) = sleeps ev1 ++ sleeps ev2.
Proof. apply omap_app. Qed.

(** C2. A job whose requests are all answered with HTTP 429 waits
    [min(d, D)], [min(2d, D)], [min(4d, D)], ... with
    [d = INITIAL_RETRY_DELAY = 60] and [D = MAX_RETRY_DELAY = 300], one wait
    after each of its requests; for [k] such answers in a row the remaining
    attempts go on with the delay [d * 2^k].  With [MAX_RETRIES = 5] such
    answers the job sends exactly five requests, waits 60, 120, 240, 300,
    300 and returns [None].  The delay is a local of the call: whatever the
    world, the next job starts again at [d], so two rate-limited jobs in a
    row show the same waits, each followed by the rate-limit delay of 8;
    after a failed job the loop goes on with the remaining templates.
    Whatever the answers, a job sends at most [MAX_RETRIES] requests. *)
Theorem rate_limit_backoff v vt t w k :
  k <= MAX_RETRIES ->
  (∀ i, i < k -> api (calls w + i) = ApiHTTPError 429) ->
  let vid := vignette_id v in
  let key := join_key vid vt in
  (adapt_single_vignette v vt t w
   = let '(r, w', ev) :=
       retry_loop v vt (seq k (MAX_RETRIES - k))
         (INITIAL_RETRY_DELAY * 2 ^ Z.of_nat k) (advance k w) in
     (r, w', rate_limited_events vid vt k INITIAL_RETRY_DELAY ++ ev))
  ∧ calls (world_of (adapt_single_vignette v vt t w))
    <= calls w + MAX_RETRIES
  ∧ sleeps (rate_limited_events vid vt k INITIAL_RETRY_DELAY)
    = map (fun i => Z.min (INITIAL_RETRY_DELAY * 2 ^ Z.of_nat i)
                      MAX_RETRY_DELAY) (seq 0 k)
  ∧ (k = MAX_RETRIES ->
     adapt_single_vignette v vt t w
     = (None, advance MAX_RETRIES w,
        rate_limited_events vid vt MAX_RETRIES INITIAL_RETRY_DELAY)
     ∧ sleeps (rate_limited_events vid vt MAX_RETRIES INITIAL_RETRY_DELAY)
       = [60; 120; 240; 300; 300]%Z
     ∧ requests (rate_limited_events vid vt MAX_RETRIES INITIAL_RETRY_DELAY)
       = [(vid, vt); (vid, vt); (vid, vt); (vid, vt); (vid, vt)]
     ∧ ∀ b tot st rest,
         key ∉ completed st ->
         for_each_try (job_body b tot v) ((vt, t) :: rest) st w
         = let '(st2, w2, ev2) :=
             for_each_try (job_body b tot v) rest (st_fail st key)
               (advance MAX_RETRIES w) in
           (st2, w2,
            (EvJobStart key (Z.of_nat (size (completed st)) + 1) tot
             :: rate_limited_events vid vt MAX_RETRIES INITIAL_RETRY_DELAY
             ++ [EvJobFailed; EvSleep DELAY_BETWEEN_REQUESTS]) ++ ev2))
  ∧ (k = MAX_RETRIES ->
     ∀ b tot st vt2 t2,
       key ∉ completed st -> join_key vid vt2 ∉ completed st ->
       (∀ i, i < MAX_RETRIES ->
             api (calls w + MAX_RETRIES + i) = ApiHTTPError 429) ->
       sleeps (events_of (for_each_try (job_body b tot v) [(vt, t); (vt2, t2)]
                            st w))
       = [60; 120; 240; 300; 300; 8; 60; 120; 240; 300; 300; 8]%Z).
Proof.
  intros Hk Hapi vid key.
  assert (Hall : forall vt' w',
    (∀ i, i < MAX_RETRIES -> api (calls w' + i) = ApiHTTPError 429) ->
    adapt_single_vignette v vt' t w'
    = (None, advance MAX_RETRIES w',
       rate_limited_events vid vt' MAX_RETRIES INITIAL_RETRY_DELAY)).
  { intros vt' w' H'. unfold Runner.adapt_single_vignette.
    rewrite retry_loop_rate_limited; rewrite length_seq; done. }
  assert (Hgen : adapt_single_vignette v vt t w
    = let '(r, w', ev) :=
        retry_loop v vt (seq k (MAX_RETRIES - k))
          (INITIAL_RETRY_DELAY * 2 ^ Z.of_nat k) (advance k w) in
      (r, w', rate_limited_events vid vt k INITIAL_RETRY_DELAY ++ ev)).
  { unfold Runner.adapt_single_vignette.
    replace (seq 0 MAX_RETRIES) with (seq 0 k ++ seq k (MAX_RETRIES - k))
      by (rewrite <- seq_app; f_equal; lia).
    rewrite retry_loop_rate_limited_prefix; rewrite length_seq; done. }
  split; [exact Hgen|]. split.
  { destruct (adapt_single_vignette v vt t w) as [[r w'] ev] eqn:Ha.
    apply adapt_single_vignette_spec in Ha as (_ & Hc & _).
    unfold world_of. cbn [fst snd]. lia. }
  split; [apply sleeps_rate_limited|]. split.
  - intros ->. split; [by apply Hall|]. split; [done|]. split; [done|].
    intros b tot st rest Hfresh.
    cbn [for_each_try]. unfold bind.
    rewrite (job_body_run b tot v vt t st w _ _ _ Hfresh (Hall vt w Hapi)).
    by destruct (for_each_try _ rest _ _) as [[? ?] ?].
  - intros ->. intros b tot st vt2 t2 Hk1 Hk2 Hapi2.
    cbn [for_each_try]. unfold bind.
    rewrite (job_body_run b tot v vt t st w _ _ _ Hk1 (Hall vt w Hapi)).
    cbv beta iota zeta. fold vid key.
    rewrite (job_body_run b tot v vt2 t2 (st_fail st key)
               (advance MAX_RETRIES w) _ _ _ Hk2
               (Hall vt2 (advance MAX_RETRIES w) Hapi2)).
    unfold ret, events_of. cbn [snd]. reflexivity.
Qed.

(** ** Dicts *)

Lemma pystr_eqb_spec (a b : pystr) : reflect (a = b) (pystr_eqb a b).
Proof. unfold pystr_eqb. case_bool_decide; by constructor. Qed.

Lemma dict_get_set_eq kvs k x : dict_get k (dict_set kvs k x) = Some x.
Proof.
  induction kvs as [|[k' y] kvs IH]; cbn [dict_get dict_set].
  - by destruct (pystr_eqb_spec k k).
  - destruct (pystr_eqb_spec k' k) as [->|Hne]; cbn [dict_get].
    + by destruct (pystr_eqb_spec k k).
    + by destruct (pystr_eqb_spec k' k).
Qed.

Lemma dict_get_set_ne kvs k k' x :
  k ≠ k' -> dict_get k' (dict_set kvs k x) = dict_get k' kvs.
Proof.
  intros Hne. induction kvs as [|[k0 y] kvs IH]; cbn [dict_get dict_set].
  - by destruct (pystr_eqb_spec k k').
  - destruct (pystr_eqb_spec k0 k) as [->|Hk]; cbn [dict_get].
    + by destruct (pystr_eqb_spec k k').
    + by destruct (pystr_eqb_spec k0 k').
Qed.

Lemma dict_get_None_in kvs k :
  dict_get k kvs = None -> py_in k (JObj kvs) = Some false.
Proof.
  cbn [py_in]. intros H. f_equal. induction kvs as [|[k' y] kvs IH]; [done|].
  cbn [dict_get existsb fst] in *.
  destruct (pystr_eqb k' k); [done|]. by apply IH.
Qed.

Lemma all_in_missing ks kvs k :
  k ∈ ks -> dict_get k kvs = None -> all_in ks (JObj kvs) = Some false.
Proof.
  intros Hin Hk. induction ks as [|k0 ks IH]; [by apply elem_of_nil in Hin|].
  cbn [all_in]. destruct (py_in k0 (JObj kvs)) as [[|]|] eqn:E; [|done|done].
  apply elem_of_cons in Hin as [->|Hin]; [|by apply IH].
  rewrite (dict_get_None_in _ _ Hk) in E. done.
Qed.

(** ** Results of a run *)

Lemma job_body_calls b tot j st w o w' ev :
  job_body b tot j.1 j.2 st w = (o, w', ev) -> calls w <= calls w'.
Proof.
  intros [(_ & _ & -> & _)|(_ & res & w1 & inner & tail & _ & _ & _ & Hres)]
    %job_body_inv; [done|].
  destruct res as [r|]; cbv zeta in Hres.
  - destruct Hres as ((n & m & _ & ?) & _). lia.
  - by destruct Hres as (_ & _ & _ & ? & _).
Qed.

(** The results a loop over jobs appends, and the results in the records it
    writes. *)
Lemma run_jobs_appends b tot jobs st w o w' ev :
  run_jobs b tot jobs st w = (o, w', ev) ->
  calls w <= calls w'
  ∧ ∃ news, adaptations (state_of o) = adaptations st ++ news
            ∧ Forall (fun x => ∃ j n m, j ∈ jobs ∧ calls w <= n < calls w'
                                        ∧ adapted j.1 n m x) news
            ∧ Forall (fun s => adaptations st `prefix_of` s.2
                               ∧ s.2 `prefix_of` adaptations (state_of o))
                (snapshots ev).
Proof.
  intros Hrun.
  pose (R := fun (o1 : outcome locals) (w1 : world) (e : list event) =>
    calls w <= calls w1
    ∧ ∃ news, adaptations (state_of o1) = adaptations st ++ news
              ∧ Forall (fun x => ∃ j n m, j ∈ jobs ∧ calls w <= n < calls w1
                                          ∧ adapted j.1 n m x) news
              ∧ Forall (fun s => adaptations st `prefix_of` s.2
                                 ∧ s.2 `prefix_of` adaptations (state_of o1))
                  (snapshots e)).
  apply (for_each_try_rule _ R) in Hrun; [exact Hrun| |].
  - split; [done|]. exists []. rewrite app_nil_r. by repeat split.
  - intros j st1 w1 ev1 o2 w2 ev2 Hj (Hc & news & Hn & Hall & Hsn) Hb.
    cbn [state_of] in Hn, Hsn.
    pose proof (job_body_calls _ _ _ _ _ _ _ _ Hb) as Hcalls.
    assert (Hweak : Forall (fun x => ∃ j n m, j ∈ jobs
                      ∧ calls w <= n < calls w2 ∧ adapted j.1 n m x) news).
    { eapply Forall_impl; [exact Hall|].
      intros x (j' & n' & m' & ? & ? & ?). exists j', n', m'.
      repeat split; auto; lia. }
    apply job_body_inv in Hb
      as [(_ & -> & -> & ->)
         |(_ & res & w3 & inner & tail & _ & Hin & -> & Hres)].
    { rewrite app_nil_r. split; [done|]. by exists news. }
    apply retry_events_quiet in Hin as (_ & _ & _ & Qsn & _).
    split; [lia|].
    assert (Hold : ∀ x, Forall (fun s => adaptations st `prefix_of` s.2
                     ∧ s.2 `prefix_of` adaptations st1 ++ x)
                   (snapshots ev1)).
    { intros x. eapply Forall_impl; [exact Hsn|]. intros s [P1 P2].
      split; [done|]. etrans; [exact P2|]. by apply prefix_app_r. }
    change (snapshots (ev1 ++ EvJobStart ?k ?c tot :: inner ++ tail))
      with (snapshots (ev1 ++ [EvJobStart k c tot] ++ inner ++ tail)).
    rewrite !snapshots_app, Qsn.
    change (snapshots [EvJobStart ?k ?c tot])
      with (@nil (list pystr * list json)). cbn [app].
    destruct res as [r|]; cbv zeta in Hres.
    + destruct Hres as ((n & m & Hr & Hcn) & _ & _ & Hres).
      assert (Hnew : Forall (fun x => ∃ j n m, j ∈ jobs
                       ∧ calls w <= n < calls w2 ∧ adapted j.1 n m x)
                     (news ++ [r])).
      { apply Forall_app. split; [done|]. constructor; [|done].
        exists j, n, m. repeat split; auto; lia. }
      destruct (progress_encodes _).
      * destruct Hres as (-> & _ & ->). exists (news ++ [r]).
        cbn [state_of st_commit adaptations].
        split; [by rewrite Hn, <- app_assoc|]. split; [done|].
        apply Forall_app. split; [apply Hold|].
        constructor; [|done]. cbn [snd p_adaptations].
        split; [|done]. rewrite Hn, <- app_assoc. by apply prefix_app_r.
      * destruct Hres as (-> & _ & ->). exists (news ++ [r]).
        cbn [state_of st_commit adaptations].
        split; [by rewrite Hn, <- app_assoc|]. split; [done|].
        simpl. rewrite app_nil_r. apply Hold.
    + destruct Hres as (-> & _ & _ & _ & ->). exists news.
      cbn [state_of st_fail adaptations]. split; [done|]. split; [done|].
      simpl. rewrite app_nil_r. done.
Qed.

(** ** C5: a response without a required field *)

(** C5. A response that parses as an object but lacks one of
    [vignette_id], [question], [options], [answer] raises inside the [try]
    block and is handled by [except Exception]: the attempt sleeps 15
    seconds and the loop goes on with the next attempt and the same
    back-off delay (on the last attempt the function gives up with [None]
    instead).  Such a response is never the source of a result: every
    result the function returns, and every result a run appends to the
    results it commits, was built from the response to another request. *)
Theorem missing_field_is_retried v vt attempt d w text kvs k :
  api (calls w) = ApiText text ->
  json_loads (extract_json text) = Some (JObj kvs) ->
  k ∈ REQUIRED_FIELDS ->
  dict_get k kvs = None ->
  attempt_body v vt attempt d w
  = (if Nat.eqb attempt (MAX_RETRIES - 1)
     then (Return None, advance 1 w, [EvRequest (vignette_id v) vt])
     else (Continue d, advance 1 w,
           [EvRequest (vignette_id v) vt; EvSleep 15]))
  ∧ (∀ rest, attempt ≠ MAX_RETRIES - 1 ->
       retry_loop v vt (attempt :: rest) d w
       = let '(r, w', ev) := retry_loop v vt rest d (advance 1 w) in
         (r, w', [EvRequest (vignette_id v) vt; EvSleep 15] ++ ev))
  ∧ (∀ v' m x, ¬ adapted v' (calls w) m x)
  ∧ (∀ v' vt' t' w0 x w' ev,
       adapt_single_vignette v' vt' t' w0 = (Some x, w', ev) ->
       ∃ n m, n ≠ calls w ∧ adapted v' n m x)
  ∧ (∀ b tot jobs st w0,
       let st' := state_of (value_of (run_jobs b tot jobs st w0)) in
       ∃ news, adaptations st' = adaptations st ++ news
               ∧ Forall (fun x => ∃ j n m, j ∈ jobs ∧ n ≠ calls w
                                           ∧ adapted j.1 n m x) news).
Proof.
  intros Hapi Hload Hk Hget.
  assert (Hall : all_in REQUIRED_FIELDS (JObj kvs) = Some false)
    by (by eapply all_in_missing).
  assert (Hnot : ∀ v' m x, ¬ adapted v' (calls w) m x).
  { intros v' m x (text' & kvs' & H1 & H2 & H3 & _).
    rewrite Hapi in H1. injection H1 as <-. rewrite Hload in H2.
    injection H2 as <-. congruence. }
  assert (Hbody : attempt_body v vt attempt d w
    = (if Nat.eqb attempt (MAX_RETRIES - 1)
       then (Return None, advance 1 w, [EvRequest (vignette_id v) vt])
       else (Continue d, advance 1 w,
             [EvRequest (vignette_id v) vt; EvSleep 15]))).
  { unfold Runner.attempt_body, bind, call_gemini_api. rewrite Hapi.
    unfold Runner.handle_text. rewrite Hload, Hall. unfold on_exception.
    replace (advance 1 w)
      with {| calls := S (calls w); ticks := ticks w; fs := fs w |}
      by (unfold advance; f_equal; lia).
    by destruct (Nat.eqb attempt (MAX_RETRIES - 1)). }
  split; [exact Hbody|]. split; [|split; [exact Hnot|split]].
  - intros rest Hne. cbn [Runner.retry_loop]. unfold bind. rewrite Hbody.
    destruct (Nat.eqb_spec attempt (MAX_RETRIES - 1)) as [|_]; [done|].
    by destruct (retry_loop v vt rest d (advance 1 w)) as [[? ?] ?].
  - intros v' vt' t' w0 x w' ev Ha.
    apply adapt_single_vignette_spec in Ha as (_ & _ & _ & n & m & _ & Hx).
    exists n, m. split; [|done]. intros ->. by eapply Hnot.
  - intros b tot jobs st w0 st'. subst st'.
    destruct (run_jobs b tot jobs st w0) as [[o w'] ev] eqn:Hrun.
    apply run_jobs_appends in Hrun as (_ & news & Hn & Hall' & _).
    exists news. split; [done|].
    eapply Forall_impl; [exact Hall'|].
    intros x (j & n & m & Hj & _ & Hx). exists j, n, m.
    repeat split; auto. intros ->. by eapply Hnot.
Qed.

(** ** C9: what a result carries *)

(** The one reading of the clock in a job: on success, after the request
    that was answered. *)
Lemma attempt_body_ticks v vt attempt d w e w' ev :
  attempt_body v vt attempt d w = (e, w', ev) ->
  match e with
  | Return (Some x) =>
      ticks w' = S (ticks w) ∧ ev = [EvRequest (vignette_id v) vt]
  | _ => ticks w' = ticks w
  end.
Proof.
  unfold Runner.attempt_body, bind, call_gemini_api.
  assert (Hpost : forall w0 e0 w1 ev0,
    handler_post attempt d w0 e0 w1 ev0 ->
    match e0 with
    | Return (Some x) => False
    | _ => ticks w1 = ticks w0
    end).
  { intros w0 e0 w1 ev0 (-> & _ & [[-> _]| ->]); done. }
  destruct (api (calls w)) as [text|c| |] eqn:Hapi.
  - destruct (handle_text v text attempt d _) as [[e1 w1] ev1] eqn:Hh.
    intros ?; simplify_eq.
    apply handle_text_spec in Hh as [Hh|(-> & _ & _ & Ht & kvs & _ & _ & ->)].
    + apply Hpost in Hh. by destruct e as [[x|]|d'].
    + done.
  - unfold on_http_error.
    destruct (Z.eqb_spec c 429); [|destruct (Z.eqb_spec c 503);
      [|destruct (Nat.eqb_spec attempt (MAX_RETRIES - 1))]];
      run_m; intros ?; by simplify_eq.
  - destruct (on_json_error attempt d _) as [[e1 w1] ev1] eqn:Hh.
    intros ?; simplify_eq.
    apply on_json_error_post, Hpost in Hh. by destruct e as [[x|]|d'].
  - destruct (on_exception attempt d _) as [[e1 w1] ev1] eqn:Hh.
    intros ?; simplify_eq.
    apply on_exception_post, Hpost in Hh. by destruct e as [[x|]|d'].
Qed.

Lemma retry_loop_ticks v vt attempts d w r w' ev :
  (60 <= d)%Z ->
  retry_loop v vt attempts d w = (r, w', ev) ->
  match r with
  | Some x =>
      ticks w' = S (ticks w)
      ∧ calls w < calls w'
      ∧ adapted v (calls w' - 1) (ticks w) x
      ∧ List.last ev EvJobOk = EvRequest (vignette_id v) vt
  | None => ticks w' = ticks w
  end.
Proof.
  revert d w r w' ev.
  induction attempts as [|attempt rest IH]; intros d w r w' ev Hd; simpl.
  - unfold ret. intros ?; by simplify_eq.
  - unfold bind at 1.
    destruct (attempt_body v vt attempt d w) as [[e w1] ev1] eqn:Hb.
    pose proof (attempt_body_ticks _ _ _ _ _ _ _ _ Hb) as Ht.
    apply attempt_body_spec in Hb as (Hfs & Hc & Hev & He); [|done].
    destruct e as [res|d'].
    + unfold ret. intros ?; simplify_eq. rewrite app_nil_r.
      destruct r as [x|]; [|done]. destruct Ht as [Ht ->].
      split; [done|]. split; [lia|]. split; [|done].
      replace (calls w' - 1) with (calls w) by lia. done.
    + destruct (retry_loop v vt rest d' w1) as [[r2 w2] ev2] eqn:Hr.
      intros ?; simplify_eq.
      apply IH in Hr; [|done]. destruct r as [x|]; [|congruence].
      destruct Hr as (T1 & T2 & T3 & T4).
      split; [congruence|]. split; [lia|]. split; [by rewrite <- Ht|].
      destruct ev2 as [|e2 ev2]; [done|].
      rewrite <- T4. clear. induction ev1 as [|a ev1 IH]; [done|].
      simpl. destruct (ev1 ++ e2 :: ev2) eqn:E; [by destruct ev1|].
      exact IH.
Qed.

(** The requests of a job: one per attempt, all of them for the job, as
    many as the world counts; a result is built from the answer to the
    last one. *)
Lemma attempt_body_requests v vt attempt d w e w' ev :
  attempt_body v vt attempt d w = (e, w', ev) ->
  requests ev = [(vignette_id v, vt)].
Proof.
  unfold Runner.attempt_body, bind, call_gemini_api.
  assert (Hpost : forall w0 e0 w1 ev0,
    handler_post attempt d w0 e0 w1 ev0 -> requests ev0 = []).
  { intros w0 e0 w1 ev0 (_ & Hev & _). induction Hev as [|x l Hx _ IH];
      [done|]. destruct Hx as (s & -> & _). exact IH. }
  destruct (api (calls w)) as [text|c| |] eqn:Hapi.
  - destruct (handle_text v text attempt d _) as [[e1 w1] ev1] eqn:Hh.
    intros ?; simplify_eq.
    apply handle_text_spec in Hh as [Hh|(-> & _)]; [|done].
    apply Hpost in Hh. simpl. by rewrite Hh.
  - unfold on_http_error.
    destruct (Z.eqb_spec c 429); [|destruct (Z.eqb_spec c 503);
      [|destruct (Nat.eqb_spec attempt (MAX_RETRIES - 1))]];
      run_m; intros ?; by simplify_eq.
  - destruct (on_json_error attempt d _) as [[e1 w1] ev1] eqn:Hh.
    intros ?; simplify_eq.
    apply on_json_error_post, Hpost in Hh. simpl. by rewrite Hh.
  - destruct (on_exception attempt d _) as [[e1 w1] ev1] eqn:Hh.
    intros ?; simplify_eq.
    apply on_exception_post, Hpost in Hh. simpl. by rewrite Hh.
Qed.

Lemma retry_loop_requests v vt attempts d w r w' ev :
  (60 <= d)%Z ->
  retry_loop v vt attempts d w = (r, w', ev) ->
  requests ev = replicate (calls w' - calls w) (vignette_id v, vt)
  ∧ calls w <= calls w'.
Proof.
  revert d w r w' ev.
  induction attempts as [|attempt rest IH]; intros d w r w' ev Hd; simpl.
  - unfold ret. intros ?; simplify_eq. by rewrite Nat.sub_diag.
  - unfold bind at 1.
    destruct (attempt_body v vt attempt d w) as [[e w1] ev1] eqn:Hb.
    pose proof (attempt_body_requests _ _ _ _ _ _ _ _ Hb) as Hq.
    apply attempt_body_spec in Hb as (Hfs & Hc & Hev & He); [|done].
    destruct e as [res|d'].
    + unfold ret. intros ?; simplify_eq. rewrite app_nil_r, Hq, Hc.
      replace (S (calls w) - calls w) with 1 by lia. split; [done|lia].
    + destruct (retry_loop v vt rest d' w1) as [[r2 w2] ev2] eqn:Hr.
      intros ?; simplify_eq.
      apply IH in Hr as [Hr Hle]; [|done].
      rewrite requests_app, Hq, Hr. split; [|lia].
      replace (calls w' - calls w) with (S (calls w' - calls w1)) by lia.
      done.
Qed.

Lemma adapt_requests v vt t w res w1 inner :
  adapt_single_vignette v vt t w = (res, w1, inner) ->
  requests inner = replicate (calls w1 - calls w) (vignette_id v, vt)
  ∧ calls w <= calls w1
  ∧ match res with
    | Some r => calls w < calls w1 ∧ adapted v (calls w1 - 1) (ticks w) r
                ∧ ticks w1 = S (ticks w)
    | None => ticks w1 = ticks w
    end.
Proof.
  unfold Runner.adapt_single_vignette. intros H.
  pose proof H as Hq. apply retry_loop_requests in Hq as [Hq Hle];
    [|unfold INITIAL_RETRY_DELAY; lia].
  apply retry_loop_ticks in H; [|unfold INITIAL_RETRY_DELAY; lia].
  split; [done|]. split; [done|]. destruct res as [r|]; [|done].
  destruct H as (? & ? & ? & _). done.
Qed.

(** C9.  What a result carries.  A result exists only for a
    request that was answered with an object having the four required
    fields; it is that object with three fields set by the code:
    [category] (the vignette's category, or the empty string), [model]
    (the service identifier) and [timestamp] (the clock read on
    completion: the one reading of the clock the job makes, after the
    request that was answered, the last event of the job); every other
    field is the response's own.  The originating item id and the variant
    code are not added by the code.  The results a run appends are such
    objects, built for jobs of the run, and a result in the list stays as
    it is: every record written during the run holds the results appended
    so far, the earlier ones in place. *)
Theorem result_metadata v vt t w r w' ev :
  adapt_single_vignette v vt t w = (Some r, w', ev) ->
  (∃ text kvs,
     calls w < calls w'
     ∧ api (calls w' - 1) = ApiText text
     ∧ json_loads (extract_json text) = Some (JObj kvs)
     ∧ all_in REQUIRED_FIELDS (JObj kvs) = Some true
     ∧ List.last ev EvJobOk = EvRequest (vignette_id v) vt
     ∧ ticks w' = S (ticks w)
     ∧ r = JObj (dict_set
                   (dict_set
                      (dict_set kvs (py "category")
                         (default (JStr []) (category v)))
                      (py "model") (JStr MODEL_NAME))
                   (py "timestamp") (JStr (clock (ticks w))))
     ∧ getitem (py "category") r = Some (default (JStr []) (category v))
     ∧ getitem (py "model") r = Some (JStr MODEL_NAME)
     ∧ getitem (py "timestamp") r = Some (JStr (clock (ticks w)))
     ∧ ∀ k, k ∉ [py "category"; py "model"; py "timestamp"] ->
            getitem k r = dict_get k kvs)
  ∧ (∀ b tot jobs st w0,
       let res := run_jobs b tot jobs st w0 in
       let st' := state_of (value_of res) in
       ∃ news,
         adaptations st' = adaptations st ++ news
         ∧ Forall (fun x => ∃ j n m, j ∈ jobs ∧ adapted j.1 n m x) news
         ∧ Forall (fun s => adaptations st `prefix_of` s.2
                            ∧ s.2 `prefix_of` adaptations st')
             (snapshots (events_of res))).
Proof.
  intros Ha. split.
  - unfold Runner.adapt_single_vignette in Ha.
    apply retry_loop_ticks in Ha
      as (T1 & T2 & (text & kvs & H1 & H2 & H3 & ->) & T4);
      [|unfold INITIAL_RETRY_DELAY; lia].
    exists text, kvs. repeat split; auto; cbn [getitem].
    + rewrite dict_get_set_ne, dict_get_set_ne by done.
      apply dict_get_set_eq.
    + rewrite dict_get_set_ne by done. apply dict_get_set_eq.
    + apply dict_get_set_eq.
    + intros k Hk. rewrite !dict_get_set_ne; [done|..];
        intros <-; apply Hk; set_solver.
  - intros b tot jobs st w0 res st'. subst st' res.
    destruct (run_jobs b tot jobs st w0) as [[o w1] ev1] eqn:Hrun.
    apply run_jobs_appends in Hrun as (_ & news & Hn & Hall & Hsn).
    unfold value_of, events_of. cbn [fst snd]. exists news.
    split; [done|]. split; [|done].
    eapply Forall_impl; [exact Hall|].
    intros x (j & n & m & ? & _ & ?). by exists j, n, m.
Qed.

(** ** Resuming *)

Lemma adapt_good v vt t w :
  good_response (calls w) ->
  ∃ r w1, adapt_single_vignette v vt t w
          = (Some r, w1, [EvRequest (vignette_id v) vt])
          ∧ calls w1 = S (calls w).
Proof.
  intros (text & kvs & Hapi & Hload & Hall).
  unfold Runner.adapt_single_vignette. cbn [seq MAX_RETRIES Runner.retry_loop].
  unfold bind at 1. unfold Runner.attempt_body, bind, call_gemini_api.
  rewrite Hapi. unfold Runner.handle_text. rewrite Hload, Hall.
  cbn [setitem]. run_m. eauto.
Qed.

Lemma run_jobs_resume b tot jobs st w o w' ev :
  run_jobs b tot jobs st w = (o, w', ev) ->
  ∃ pre suf,
    jobs = pre ++ suf
    ∧ (is_normal o = true -> suf = [])
    ∧ completed st ⊆ completed (state_of o)
    ∧ completed (state_of o)
      ⊆ completed st ∪ list_to_set (map job_key pre)
    ∧ attempted ev `sublist_of` map job_key pre
    ∧ Forall (fun k => k ∉ completed st) (attempted ev)
    ∧ Forall (fun q => join_key q.1 q.2 ∉ completed st) (requests ev)
    ∧ (NoDup (map job_key jobs) ->
       attempted ev = filter (fun k => k ∉ completed st) (map job_key pre))
    ∧ ((∀ n, good_response n) ->
       completed (state_of o)
       = completed st ∪ list_to_set (map job_key pre)
       ∧ failed (state_of o) = failed st).
Proof.
  set (c0 := completed st).
  pose (R := fun (pre : list (vignette * (pystr * template)))
                 (o1 : outcome locals) (_ : world) (e : list event) =>
    c0 ⊆ completed (state_of o1)
    ∧ completed (state_of o1) ⊆ c0 ∪ list_to_set (map job_key pre)
    ∧ attempted e `sublist_of` map job_key pre
    ∧ Forall (fun k => k ∉ c0) (attempted e)
    ∧ Forall (fun q => join_key q.1 q.2 ∉ c0) (requests e)
    ∧ (NoDup (map job_key jobs) ->
       attempted e = filter (fun k => k ∉ c0) (map job_key pre))
    ∧ ((∀ n, good_response n) ->
       completed (state_of o1) = c0 ∪ list_to_set (map job_key pre)
       ∧ failed (state_of o1) = failed st)).
  intros Hrun. apply (for_each_try_rule_prefix _ R) in Hrun; [exact Hrun| |].
  { unfold R. simpl. repeat split; auto; set_solver. }
  clear Hrun. intros pre [v [vt t]] suf s1 w1 ev1 o2 w2 ev2 Hjobs
    (H1 & H2 & H3 & H4 & H5 & H6 & H7) Hb.
  cbn [state_of] in H1, H2, H7.
  cbn [fst snd] in Hb. set (key := join_key (vignette_id v) vt).
  assert (Hkeys : map job_key (pre ++ [(v, (vt, t))])
                  = map job_key pre ++ [key]) by by rewrite map_app.
  assert (Hset : (list_to_set (map job_key (pre ++ [(v, (vt, t))]))
                  : gset pystr)
                 = list_to_set (map job_key pre) ∪ {[key]}).
  { rewrite Hkeys, list_to_set_app_L. set_solver. }
  assert (Hfresh : NoDup (map job_key jobs) -> key ∉ map job_key pre).
  { rewrite Hjobs, map_app. intros Hnd Hin.
    apply NoDup_app in Hnd as (_ & Hnd & _). apply (Hnd key Hin).
    simpl. by left. }
  destruct (decide (key ∈ completed s1)) as [Hin|Hin].
  - rewrite job_body_skip in Hb by done. simplify_eq.
    rewrite app_nil_r. unfold R. cbn [state_of]. rewrite Hset, Hkeys.
    split; [done|]. split; [set_solver|].
    split; [by apply sublist_inserts_r|]. split; [done|]. split; [done|].
    split.
    + intros Hnd. rewrite filter_app, (H6 Hnd).
      assert (Hc0 : key ∈ c0).
      { specialize (Hfresh Hnd). apply H2 in Hin.
        apply elem_of_union in Hin as [?|Hin]; [done|].
        by apply elem_of_list_to_set in Hin. }
      rewrite filter_cons_False by (intros Hn; by apply Hn).
      by rewrite filter_nil, app_nil_r.
    + intros Hgood. destruct (H7 Hgood) as [E1 E2]. split; [|done].
      rewrite E1 in Hin |- *. set_solver.
  - destruct (adapt_single_vignette v vt t w1) as [[res w3] inner] eqn:Ha.
    rewrite (job_body_run _ _ _ _ _ _ _ _ _ _ Hin Ha) in Hb.
    pose proof Ha as Hspec.
    apply adapt_single_vignette_spec in Hspec as (_ & _ & Hinner & _).
    apply retry_events_quiet in Hinner as (_ & _ & A1 & _ & _ & A2).
    assert (Hc0 : key ∉ c0) by set_solver.
    assert (Hev2 : attempted ev2 = [key]
                   ∧ Forall (fun q => join_key q.1 q.2 ∉ c0) (requests ev2)
                   ∧ c0 ⊆ completed (state_of o2)
                   ∧ completed (state_of o2)
                     ⊆ c0 ∪ (list_to_set (map job_key pre) ∪ {[key]})
                   ∧ ((∀ n, good_response n) ->
                      completed (state_of o2) = {[key]} ∪ completed s1
                      ∧ failed (state_of o2) = failed s1)).
    { assert (Hseg : forall c tail,
        attempted tail = [] -> requests tail = [] ->
        attempted (EvJobStart key c tot :: inner ++ tail) = [key]
        ∧ Forall (fun q => join_key q.1 q.2 ∉ c0)
            (requests (EvJobStart key c tot :: inner ++ tail))).
      { intros c tail T1 T2.
        change (attempted (EvJobStart key c tot :: inner ++ tail))
          with (key :: attempted (inner ++ tail)).
        change (requests (EvJobStart key c tot :: inner ++ tail))
          with (requests (inner ++ tail)).
        rewrite attempted_app, requests_app, A1, T1, T2, !app_nil_r.
        split; [done|]. eapply Forall_impl; [exact A2|]. by intros ? ->. }
      destruct res as [r|]; cbv zeta in Hb;
        [destruct (progress_encodes _)|]; simplify_eq;
        cbn [state_of st_commit st_fail completed failed].
      - split; [by apply Hseg|]. split; [by apply Hseg|].
        split; [set_solver|]. split; [set_solver|]. done.
      - split; [by apply Hseg|]. split; [by apply Hseg|].
        split; [set_solver|]. split; [set_solver|]. done.
      - split; [by apply Hseg|]. split; [by apply Hseg|].
        split; [set_solver|]. split; [set_solver|].
        intros Hgood. destruct (adapt_good v vt t w1 (Hgood _))
          as (r & w4 & Hsome & _). congruence. }
    destruct Hev2 as (B1 & B2 & B3 & B4 & B5).
    unfold R. rewrite Hset, Hkeys, attempted_app, requests_app, B1.
    split; [done|]. split; [done|].
    split; [by apply sublist_app|]. split.
    { apply Forall_app. split; [done|]. by constructor. }
    split; [by apply Forall_app|]. split.
    + intros Hnd. rewrite filter_app, (H6 Hnd). f_equal.
      rewrite filter_cons_True by done. done.
    + intros Hgood. destruct (H7 Hgood) as [E1 E2].
      destruct (B5 Hgood) as [E3 E4]. split; [|congruence].
      rewrite E3, E1. set_solver.
Qed.

(** *** Runs that can write what they produce *)

Lemma encodes_app (a b : pystr) :
  encodes (a ++ b) = encodes a && encodes b.
Proof. clear. unfold encodes. apply forallb_app. Qed.

Lemma encodes_join_key (vid vt : pystr) :
  encodes (join_key vid vt) = encodes vid && encodes vt.
Proof. clear. unfold join_key. by rewrite !encodes_app. Qed.

Lemma dict_set_encodes kvs k x :
  encodes k = true -> json_encodes x = true ->
  json_encodes (JObj kvs) = true ->
  json_encodes (JObj (dict_set kvs k x)) = true.
Proof.
  clear. intros Hk Hx. induction kvs as [|[k' y] kvs IH]; cbn [dict_set].
  - intros _. simpl. by rewrite Hk, Hx.
  - cbn [json_encodes forallb]. intros [[H1 H2]%andb_prop H3]%andb_prop.
    destruct (pystr_eqb k' k); cbn [json_encodes forallb].
    + by rewrite H1, Hx, H3.
    + rewrite H1, H2. cbn [andb]. by apply IH.
Qed.

(** A result built from an answer that encodes, for a vignette that
    encodes, encodes. *)
Lemma adapted_encodes v n m x :
  clean_service -> clean_vignette v = true ->
  adapted v n m x -> json_encodes x = true.
Proof.
  intros [Hs Hc] [_ Hv]%andb_prop (text & kvs & H1 & H2 & _ & ->).
  apply dict_set_encodes; [done|apply Hc|].
  apply dict_set_encodes; [done|done|].
  apply dict_set_encodes; [done|done|]. by eapply Hs.
Qed.

Lemma forallb_elements_encodes (c : gset pystr) :
  (∀ k, k ∈ c -> encodes k = true) -> forallb encodes (elements c) = true.
Proof.
  clear. intros H. apply forallb_forall. intros k Hk. apply H.
  by apply elem_of_elements, list_elem_of_In.
Qed.

(** With a service, vignettes and variant names that encode, no commit of
    a loop over jobs raises, from locals that encode. *)
Lemma run_jobs_clean b tot jobs st w o w' ev :
  clean_service ->
  Forall (fun j => clean_vignette j.1 = true ∧ encodes j.2.1 = true) jobs ->
  clean_locals st ->
  run_jobs b tot jobs st w = (o, w', ev) ->
  is_normal o = true ∧ clean_locals (state_of o).
Proof.
  intros Hs Hjobs Hst Hrun.
  apply (for_each_try_rule _
           (fun o _ _ => is_normal o = true ∧ clean_locals (state_of o)))
    in Hrun; [done|done|].
  clear Hrun. intros j st1 w1 ev1 o2 w2 ev2 Hj [_ (C1 & C2 & C3)] Hb.
  cbn [state_of] in C1, C2, C3.
  rewrite Forall_forall in Hjobs. destruct (Hjobs j Hj) as [Hv Hvt].
  assert (Hkey : encodes (job_key j) = true).
  { unfold job_key. rewrite encodes_join_key, Hvt.
    apply andb_prop in Hv as [-> _]. done. }
  apply job_body_inv in Hb
    as [(_ & -> & _ & _)
       |(_ & res & w3 & inner & tail & _ & _ & _ & Hres)]; [done|].
  destruct res as [r|]; cbv zeta in Hres.
  - destruct Hres as ((n & m & Hr & _) & _ & _ & Hres).
    assert (Hr' : json_encodes r = true) by by eapply adapted_encodes.
    assert (Hkeys : ∀ k, k ∈ {[job_key j]} ∪ completed st1 ->
                         encodes k = true).
    { intros k [->%elem_of_singleton|Hk]%elem_of_union; auto. }
    assert (Hads : forallb json_encodes (adaptations st1 ++ [r]) = true).
    { rewrite forallb_app, C2. simpl. by rewrite Hr'. }
    assert (He : progress_encodes
                   {| p_batch := b;
                      p_completed := elements ({[job_key j]} ∪ completed st1);
                      p_adaptations := adaptations st1 ++ [r];
                      p_updated := clock (ticks w3) |} = true).
    { unfold progress_encodes. cbn [p_completed p_adaptations p_updated].
      rewrite forallb_elements_encodes, Hads by done. apply Hs. }
    rewrite He in Hres. destruct Hres as (-> & _ & _).
    split; [done|]. by repeat split.
  - destruct Hres as (-> & _). split; [done|].
    unfold clean_locals.
    cbn [state_of st_fail completed adaptations failed].
    repeat split; auto. rewrite forallb_app, C3. simpl. by rewrite Hkey.
Qed.

(** ** C4: fenced responses *)

(** C4. A payload [P] that is not itself fenced, wrapped in a fenced code
    block (three backticks, an optional language tag up to the end of the
    line, the payload, optional white space, three backticks), is cleaned by
    [extract_json] to the same text as [P] alone, namely [P] trimmed.  So
    [json.loads] is applied to the same text and the attempt ends the same
    way, with the same parsed object. *)
Theorem fenced_response_parses_alike (tag P gap : pystr) :
  10%N ∉ tag ->
  forallb isspace gap = true ->
  startswith FENCE (strip P) = false ->
  extract_json (fenced tag P gap) = extract_json P
  ∧ extract_json P = strip P
  ∧ json_loads (extract_json (fenced tag P gap))
    = json_loads (extract_json P)
  ∧ ∀ v attempt d w,
      handle_text v (fenced tag P gap) attempt d w
      = handle_text v P attempt d w.
Proof.
  intros Htag Hgap HP.
  assert (H : extract_json (fenced tag P gap) = extract_json P).
  { rewrite extract_json_of_fenced, extract_json_unfenced by done. done. }
  split; [exact H|]. split; [by apply extract_json_unfenced|].
  split; [by rewrite H|].
  intros v attempt d w. unfold Runner.handle_text. by rewrite H.
Qed.

(** ** C6: enumeration *)

Lemma enumerate_jobs_length templates items :
  length (enumerate_jobs templates items) = length items * length templates.
Proof.
  unfold enumerate_jobs. induction items as [|v items IH]; [done|].
  simpl. rewrite length_app, length_map, IH. done.
Qed.



(** ** C3: the progress record *)

Lemma commit_step_ok made s s' :
  progress_ok s -> commit_step made s s' ->
  progress_ok s'
  ∧ length s'.1 = S (length s.1)
  ∧ (list_to_set s.1 : gset pystr) ⊆ list_to_set s'.1
  ∧ s.2 `prefix_of` s'.2.
Proof.
  clear json_loads api clock.
  intros [Hnd Hlen] (k & r & _ & Hk & Hnd' & Hset & Hads).
  assert (Hl : length s'.1 = S (length s.1)).
  { rewrite <- (size_list_to_set (C:=gset pystr) s'.1) by done.
    rewrite Hset, size_union, size_singleton by set_solver.
    by rewrite size_list_to_set. }
  split; [split; [done|]|split; [done|split]].
  - rewrite Hl, Hads, length_app, Hlen. simpl. lia.
  - rewrite Hset. set_solver.
  - rewrite Hads. by apply prefix_app_r.
Qed.

Lemma last_nonempty {A} (a : A) (l : list A) (d d' : A) :
  List.last (a :: l) d = List.last (a :: l) d'.
Proof.
  revert a. induction l as [|b l IH]; intros a; [done|].
  change (List.last (b :: l) d = List.last (b :: l) d'). apply IH.
Qed.

Lemma chain_snoc made s0 l s' :
  chain made s0 l -> commit_step made (List.last l s0) s' ->
  chain made s0 (l ++ [s']).
Proof.
  induction 1 as [s|s s1 rest Hstep Hc IH]; intros Hs'; simpl in *.
  - by repeat constructor.
  - constructor; [done|]. apply IH.
    destruct rest; [done|]. by rewrite (last_nonempty _ _ _ s).
Qed.

Lemma chain_mono (made made' : pystr -> json -> Prop) s0 l :
  (∀ k r, made k r -> made' k r) -> chain made s0 l -> chain made' s0 l.
Proof.
  intros Himp. induction 1 as [s|s s1 rest Hstep Hc IH]; constructor; auto.
  destruct Hstep as (k & r & H & ?). exists k, r. split; auto.
Qed.

Lemma chain_ok made s0 l :
  progress_ok s0 -> chain made s0 l ->
  Forall progress_ok l
  ∧ progress_ok (List.last l s0)
  ∧ length (List.last l s0).1 = length s0.1 + length l
  ∧ (list_to_set s0.1 : gset pystr) ⊆ list_to_set (List.last l s0).1
  ∧ s0.2 `prefix_of` (List.last l s0).2.
Proof.
  clear json_loads api clock.
  intros Hok Hc. induction Hc as [s|s s1 rest Hstep Hc IH].
  - simpl. repeat split; auto; try apply Hok.
  - destruct (commit_step_ok _ _ _ Hok Hstep) as (Hok1 & Hl1 & Hs1 & Hp1).
    destruct (IH Hok1) as (I1 & I2 & I3 & I4 & I5).
    assert (Hlast : List.last (s1 :: rest) s = List.last rest s1).
    { destruct rest as [|q rest]; [done|].
      change (List.last (s1 :: q :: rest) s) with (List.last (q :: rest) s).
      apply last_nonempty. }
    rewrite Hlast. split; [by constructor|]. split; [done|].
    split; [simpl; lia|]. split; [set_solver|]. by etrans.
Qed.

Lemma chain_grown made s0 l :
  progress_ok s0 -> chain made s0 l -> grown made s0 l (List.last l s0).
Proof.
  clear json_loads api clock.
  intros Hok Hc. destruct (chain_ok _ _ _ Hok Hc) as (C1 & C2 & C3 & C4 & C5).
  unfold grown. repeat split; auto; try apply C2.
  destruct C2 as [_ <-]. destruct Hok as [_ <-]. exact C3.
Qed.

Lemma stored_commit f b p :
  stored (fs_commit f b p) b = (p_completed p, p_adaptations p).
Proof. unfold stored, fs_commit. simpl. by rewrite lookup_insert_eq. Qed.

Lemma truncated_lookup f b :
  progress_file (fs_truncated f b) !! b = Some Truncated.
Proof. unfold fs_truncated. simpl. by rewrite lookup_insert_eq. Qed.

(** The local state and the files along a loop over jobs: the records
    written, the record and the output on file, the locals. *)
Lemma run_jobs_chain b tot jobs st w o w' ev :
  in_sync b st w ->
  run_jobs b tot jobs st w = (o, w', ev) ->
  let s0 := stored (fs w) b in
  let lw := List.last (snapshots ev) s0 in
  chain (made_by (calls w) ev jobs) s0 (snapshots ev)
  ∧ length (requests ev) = calls w' - calls w
  ∧ calls w <= calls w'
  ∧ match o with
    | Normal st' => stored (fs w') b = lw ∧ in_sync b st' w'
                    ∧ (snapshots ev = [] -> fs w' = fs w)
                    ∧ (loadable (fs w) b -> loadable (fs w') b)
    | Raised e st' =>
        e = UnicodeEncodeError
        ∧ progress_file (fs w') !! b = Some Truncated
        ∧ ∃ k r, made_by (calls w) ev jobs k r ∧ k ∉ lw.1
                 ∧ completed st' = {[k]} ∪ list_to_set lw.1
                 ∧ adaptations st' = lw.2 ++ [r]
    end
  ∧ (snapshots ev ≠ [] -> output_file (fs w') !! b = Some lw.2)
  ∧ (snapshots ev = [] -> output_file (fs w') = output_file (fs w)).
Proof.
  intros Hsync Hrun s0 lw. subst lw.
  set (c0 := calls w).
  pose (R := fun (o1 : outcome locals) (w1 : world) (e : list event) =>
    chain (made_by c0 e jobs) s0 (snapshots e)
    ∧ length (requests e) = calls w1 - c0
    ∧ c0 <= calls w1
    ∧ match o1 with
      | Normal s => stored (fs w1) b = List.last (snapshots e) s0
                    ∧ in_sync b s w1
                    ∧ (snapshots e = [] -> fs w1 = fs w)
                    ∧ (loadable (fs w) b -> loadable (fs w1) b)
      | Raised ex s =>
          ex = UnicodeEncodeError
          ∧ progress_file (fs w1) !! b = Some Truncated
          ∧ ∃ k r, made_by c0 e jobs k r
                   ∧ k ∉ (List.last (snapshots e) s0).1
                   ∧ completed s
                     = {[k]} ∪ list_to_set (List.last (snapshots e) s0).1
                   ∧ adaptations s = (List.last (snapshots e) s0).2 ++ [r]
      end
    ∧ (snapshots e ≠ [] ->
       output_file (fs w1) !! b = Some (List.last (snapshots e) s0).2)
    ∧ (snapshots e = [] -> output_file (fs w1) = output_file (fs w))).
  apply (for_each_try_rule _ R) in Hrun; [exact Hrun| |].
  { unfold R. split; [constructor|]. split; [simpl; lia|].
    split; [unfold c0; lia|].
    split; [split; [done|split; [exact Hsync|done]]|]. by split. }
  clear Hrun. intros j s1 w1 ev1 o2 w2 ev2 Hj
    (H1 & Hq & Hc & (H2 & [H3 H4] & H5 & H8) & H6 & H7) Hb.
  apply job_body_inv in Hb
    as [(_ & -> & -> & ->)
       |(Hk & res & w3 & inner & tail & Ha & Hin & -> & Hres)].
  { rewrite app_nil_r. unfold R. by repeat split. }
  apply adapt_requests in Ha as (Qr & Qle & Qres).
  apply retry_events_quiet in Hin as (_ & _ & _ & Hsn & _).
  set (cur := (Z.of_nat (size (completed s1)) + 1)%Z) in *.
  assert (Hmono : ∀ e2 k r, made_by c0 ev1 jobs k r ->
                            made_by c0 (ev1 ++ e2) jobs k r).
  { intros e2 k r (j' & n & m & ? & ? & ? & ? & Hl).
    exists j', n, m. repeat split; auto.
    rewrite requests_app. by apply lookup_app_l_Some. }
  assert (Hreq : requests (ev1 ++ EvJobStart (job_key j) cur tot
                           :: inner ++ tail)
                 = requests ev1 ++ requests inner ++ requests tail).
  { rewrite requests_app.
    change (requests (EvJobStart (job_key j) cur tot :: inner ++ tail))
      with (requests (inner ++ tail)). by rewrite requests_app. }
  assert (Hsnap : snapshots (ev1 ++ EvJobStart (job_key j) cur tot
                             :: inner ++ tail)
                  = snapshots ev1 ++ snapshots tail).
  { rewrite snapshots_app.
    change (snapshots (EvJobStart (job_key j) cur tot :: inner ++ tail))
      with (snapshots (inner ++ tail)). by rewrite snapshots_app, Hsn. }
  assert (Hlen : requests tail = [] ->
    length (requests ev1 ++ requests inner ++ requests tail)
    = calls w3 - c0).
  { intros ->. rewrite app_nil_r, length_app, Hq, Qr, length_replicate.
    lia. }
  assert (Hchain : chain (made_by c0 (ev1 ++ EvJobStart (job_key j) cur tot
                                      :: inner ++ tail) jobs)
                     s0 (snapshots ev1)).
  { eapply chain_mono; [|exact H1]. intros k r. apply Hmono. }
  assert (Hfresh : job_key j ∉ (List.last (snapshots ev1) s0).1).
  { rewrite <- H2. rewrite H3, elem_of_list_to_set in Hk. done. }
  unfold R. rewrite Hsnap.
  destruct res as [r|]; cbv zeta in Hres.
  - destruct Hres as (_ & Hc2 & _ & Hres).
    destruct Qres as (Qlt & Qad & _).
    assert (Hmade : requests tail = [] ->
      made_by c0 (ev1 ++ EvJobStart (job_key j) cur tot :: inner ++ tail)
        jobs (job_key j) r).
    { intros Htl. exists j, (calls w3 - 1), (ticks w1).
      split; [done|]. split; [done|]. split; [done|]. split; [lia|].
      rewrite Hreq, Htl, app_nil_r, Qr.
      rewrite lookup_app_r by (rewrite Hq; lia).
      apply lookup_replicate_2. rewrite Hq. lia. }
    match type of Hres with
    | context [progress_encodes ?q] => set (p := q) in *
    end.
    destruct (progress_encodes p).
    + destruct Hres as (-> & Hfs & ->).
      change (snapshots [EvMkdir; EvWriteProgress b p;
                         EvWriteOutput b (adaptations s1 ++ [r]); EvJobOk;
                         EvSleep DELAY_BETWEEN_REQUESTS])
        with [(p_completed p, p_adaptations p)].
      assert (Hst : stored (fs w2) b
                    = (elements ({[job_key j]} ∪ completed s1),
                       adaptations s1 ++ [r])).
      { rewrite Hfs, stored_commit. done. }
      rewrite last_last. cbn [p_completed p_adaptations p].
      split.
      { apply chain_snoc; [done|]. exists (job_key j), r. cbn [fst snd].
        split; [by apply Hmade|]. split; [done|].
        split; [apply NoDup_elements|].
        split; [by rewrite list_to_set_elements_L, H3, H2|].
        by rewrite H4, H2. }
      split; [rewrite Hreq, Hc2; by apply Hlen|]. split; [lia|].
      split.
      { split; [done|]. split; [|split].
        - unfold in_sync. rewrite Hst. cbn [fst snd st_commit completed
            adaptations]. by rewrite list_to_set_elements_L.
        - intros Hnil. by destruct (snapshots ev1).
        - intros _. unfold loadable. rewrite Hfs. unfold fs_commit.
          cbn [progress_file]. by rewrite lookup_insert_eq. }
      split.
      { intros _. rewrite Hfs. unfold fs_commit. cbn [output_file snd].
        by rewrite lookup_insert_eq. }
      intros Hnil. by destruct (snapshots ev1).
    + destruct Hres as (-> & Hfs & ->).
      change (snapshots [EvMkdir]) with (@nil (list pystr * list json)).
      rewrite app_nil_r.
      split; [done|]. split; [rewrite Hreq, Hc2; by apply Hlen|].
      split; [lia|]. split.
      { split; [done|]. split; [rewrite Hfs; apply truncated_lookup|].
        exists (job_key j), r. split; [by apply Hmade|]. split; [done|].
        cbn [st_commit completed adaptations].
        by rewrite H3, H4, H2. }
      rewrite Hfs. unfold fs_truncated. cbn [output_file]. by split.
  - destruct Hres as (-> & -> & Hfs & _ & ->).
    change (snapshots [EvJobFailed; EvSleep DELAY_BETWEEN_REQUESTS])
      with (@nil (list pystr * list json)).
    rewrite app_nil_r.
    split; [done|]. split; [rewrite Hreq; by apply Hlen|].
    split; [lia|]. rewrite Hfs. split.
    { split; [done|]. split; [|done].
      unfold in_sync in *. rewrite Hfs. cbn [st_fail completed adaptations].
      done. }
    by split.
Qed.

Lemma initial_in_sync b w : in_sync b (initial_locals_of (stored (fs w) b)) w.
Proof. done. Qed.

Lemma made_by_log c0 ev jobs b l k r :
  made_by c0 ev jobs k r -> made_by c0 (ev ++ [EvWriteLog b l]) jobs k r.
Proof.
  intros (j & n & m & ? & ? & ? & ? & Hl). exists j, n, m.
  repeat split; auto. rewrite requests_app. by apply lookup_app_l_Some.
Qed.

(** What a batch run does to the progress record. *)
Lemma run_batch_grown templates b range items w x w' ev :
  progress_ok (stored (fs w) b) ->
  run_batch templates b range items w = (x, w', ev) ->
  let lw := List.last (snapshots ev) (stored (fs w) b) in
  grown (made_by (calls w) ev (enumerate_jobs templates items))
    (stored (fs w) b) (snapshots ev) lw
  ∧ (loadable (fs w') b -> stored (fs w') b = lw)
  ∧ (x = Returned -> loadable (fs w') b)
  ∧ (x = Uncaught JSONDecodeError -> w' = w ∧ ev = [])
  ∧ (snapshots ev ≠ [] -> output_file (fs w') !! b = Some lw.2).
Proof.
  intros Hok Hrun lw. subst lw.
  destruct (loadable_cases (fs w) b) as [Hl|Ht].
  - rewrite run_batch_unfold in Hrun by done. cbv zeta in Hrun.
    destruct (_ =? 0)%Z.
    { simplify_eq. split; [apply chain_grown; [done|constructor]|].
      by repeat split. }
    destruct (run_jobs b _ _ _ w) as [[o w1] ev1] eqn:Hj.
    apply run_jobs_chain in Hj as (C1 & _ & _ & C4 & C5 & _);
      [|apply initial_in_sync]. cbv zeta in C1, C4, C5.
    destruct o as [st|e st].
    + destruct C4 as (S1 & _ & _ & S4).
      assert (Hg : ∀ l, grown (made_by (calls w) (ev1 ++ [EvWriteLog b l])
                                 (enumerate_jobs templates items))
                          (stored (fs w) b) (snapshots ev1)
                          (List.last (snapshots ev1) (stored (fs w) b))).
      { intros l. apply chain_grown; [done|].
        eapply chain_mono; [|exact C1]. intros k r. apply made_by_log. }
      destruct (log_encodes _); simplify_eq.
      * rewrite snapshots_app.
        change (snapshots [EvWriteLog b _])
          with (@nil (list pystr * list json)).
        rewrite app_nil_r. split; [apply Hg|].
        split; [done|]. split; [intros _; by apply S4|].
        split; [done|]. exact C5.
      * split; [by apply chain_grown|]. split; [done|].
        split; [done|]. split; [done|]. exact C5.
    + simplify_eq. destruct C4 as (-> & Htr & _).
      split; [by apply chain_grown|].
      split; [intros Hl'; by destruct Hl'|]. split; [done|].
      split; [done|]. exact C5.
  - rewrite run_batch_truncated in Hrun by done. simplify_eq.
    split; [apply chain_grown; [done|constructor]|]. by repeat split.
Qed.

(** C3.  The progress record keeps its invariant as long as every commit
    can be written.  A store with no progress file loads as the empty
    record, which satisfies it; loading returns exactly what the
    file holds, and raises [JSONDecodeError] on a truncated file.  One
    commit: when the record it builds can be encoded,
    [save_batch_progress] writes exactly the completed keys with the new
    key and the results with the new result appended, to the progress file
    and the results to the output file; when it cannot, the write raises,
    the progress file is left truncated, so that its entries are lost, the
    output file keeps what it held, and the loop is left.  From a record
    with no duplicate key and as many keys as results, every record a run
    writes is obtained from the previous one by one commit (one new key and,
    appended, the result built from the answer to a request sent for the
    job with that key), has again no duplicate key and as many keys as
    results; keys and results only grow from record to record, the old
    results staying in place as a prefix; and the file ends as the last
    record written unless a commit raised.  This holds for the loop over
    any list of jobs and for a whole batch. *)
Theorem progress_record_invariant :
  (∀ f b, progress_file f !! b = None ->
          stored f b = ([], []) ∧ progress_ok (stored f b))
  ∧ (∀ b w, loadable (fs w) b ->
            load_batch_progress b w = (Ok (stored (fs w) b), w, []))
  ∧ (∀ b w, progress_file (fs w) !! b = Some Truncated ->
            load_batch_progress b w = (Raise JSONDecodeError, w, []))
  ∧ (∀ b tot v vt t st w r w1 ev1,
       let key := join_key (vignette_id v) vt in
       let p := {| p_batch := b;
                   p_completed := elements ({[key]} ∪ completed st);
                   p_adaptations := adaptations st ++ [r];
                   p_updated := clock (ticks w1) |} in
       key ∉ completed st ->
       adapt_single_vignette v vt t w = (Some r, w1, ev1) ->
       let res := job_body b tot v (vt, t) st w in
       if progress_encodes p
       then value_of res = Normal (st_commit st key r)
            ∧ progress_file (fs (world_of res)) !! b = Some (Intact p)
            ∧ output_file (fs (world_of res)) !! b
              = Some (adaptations st ++ [r])
            ∧ snapshots (events_of res) = [(p_completed p, p_adaptations p)]
       else value_of res = Raised UnicodeEncodeError (st_commit st key r)
            ∧ progress_file (fs (world_of res)) !! b = Some Truncated
            ∧ stored (fs (world_of res)) b = ([], [])
            ∧ output_file (fs (world_of res)) !! b = output_file (fs w) !! b
            ∧ snapshots (events_of res) = [])
  ∧ (∀ b tot jobs w,
       progress_ok (stored (fs w) b) ->
       loadable (fs w) b ->
       let res := run_jobs b tot jobs (initial_locals_of (stored (fs w) b)) w in
       let written := snapshots (events_of res) in
       let lw := List.last written (stored (fs w) b) in
       grown (made_by (calls w) (events_of res) jobs) (stored (fs w) b)
         written lw
       ∧ match value_of res with
         | Normal st' =>
             stored (fs (world_of res)) b = lw
             ∧ loadable (fs (world_of res)) b
             ∧ adaptations st' = lw.2
         | Raised e st' =>
             e = UnicodeEncodeError
             ∧ progress_file (fs (world_of res)) !! b = Some Truncated
             ∧ ∃ r, adaptations st' = lw.2 ++ [r]
         end)
  ∧ (∀ templates b range items w,
       progress_ok (stored (fs w) b) ->
       let res := run_batch templates b range items w in
       let written := snapshots (events_of res) in
       let lw := List.last written (stored (fs w) b) in
       grown (made_by (calls w) (events_of res)
                (enumerate_jobs templates items))
         (stored (fs w) b) written lw
       ∧ (loadable (fs (world_of res)) b ->
          stored (fs (world_of res)) b = lw)
       ∧ (value_of res = Returned -> loadable (fs (world_of res)) b)).
Proof.
  split; [|split; [|split; [|split; [|split]]]].
  - intros f b H. unfold stored. rewrite H. split; [done|].
    split; [constructor|done].
  - apply load_batch_progress_loadable.
  - intros b w H. by rewrite load_batch_progress_run, H.
  - intros b tot v vt t st w r w1 ev1 key p Hk Ha res. subst res.
    rewrite (job_body_run _ _ _ _ _ _ _ _ _ _ Hk Ha). cbv zeta.
    fold key. fold p.
    apply adapt_single_vignette_spec in Ha as (Hfs & _ & Hev & _).
    apply retry_events_quiet in Hev as (_ & _ & _ & Hsn & _).
    destruct (progress_encodes p); unfold value_of, world_of, events_of;
      cbn [fst snd fs].
    + split; [done|]. unfold fs_commit. cbn [progress_file output_file].
      rewrite !lookup_insert_eq. split; [done|]. split; [done|].
      change (snapshots (EvJobStart ?k ?c tot :: ?l)) with (snapshots l).
      by rewrite snapshots_app, Hsn.
    + split; [done|]. rewrite truncated_lookup. split; [done|].
      split; [unfold stored; by rewrite truncated_lookup|].
      split; [by rewrite Hfs|].
      change (snapshots (EvJobStart ?k ?c tot :: ?l)) with (snapshots l).
      by rewrite snapshots_app, Hsn.
  - intros b tot jobs w Hok Hl res written lw. subst lw written res.
    destruct (run_jobs b tot jobs _ w) as [[o w'] ev] eqn:Hrun.
    apply run_jobs_chain in Hrun as (C1 & _ & _ & C4 & _);
      [|apply initial_in_sync]. cbv zeta in C1, C4.
    unfold value_of, world_of, events_of. cbn [fst snd].
    split; [by apply chain_grown|].
    destruct o as [st'|e st'].
    + destruct C4 as (S1 & [_ S2] & _ & S4). split; [done|].
      split; [by apply S4|]. by rewrite S2, S1.
    + destruct C4 as (-> & Ht & k & r & _ & _ & _ & Hads).
      split; [done|]. split; [done|]. by exists r.
  - intros templates b range items w Hok res written lw.
    subst lw written res.
    destruct (run_batch templates b range items w) as [[x w'] ev] eqn:Hrun.
    apply run_batch_grown in Hrun as (G1 & G2 & G3 & _); [|done].
    unfold value_of, world_of, events_of. cbn [fst snd]. done.
Qed.
(** ** C1: resuming *)

Lemma stored_nonempty_loadable f b :
  (stored f b).1 ≠ [] -> loadable f b.
Proof.
  clear. unfold stored, loadable.
  by destruct (progress_file f !! b) as [[p|]|].
Qed.

Lemma run_batch_resume templates b range items w x w' ev :
  run_batch templates b range items w = (x, w', ev) ->
  let done0 : gset pystr := list_to_set (stored (fs w) b).1 in
  Forall (fun k => k ∉ done0) (attempted ev)
  ∧ Forall (fun q => join_key q.1 q.2 ∉ done0) (requests ev)
  ∧ (loadable (fs w') b -> done0 ⊆ list_to_set (stored (fs w') b).1).
Proof.
  intros Hrun done0.
  destruct (loadable_cases (fs w) b) as [Hl|Ht].
  - rewrite run_batch_unfold in Hrun by done. cbv zeta in Hrun.
    destruct (_ =? 0)%Z; [simplify_eq; by repeat split|].
    destruct (run_jobs b _ _ _ w) as [[o w1] ev1] eqn:Hj.
    pose proof Hj as Hres. apply run_jobs_resume in Hres
      as (pre & suf & _ & _ & R1 & _ & _ & R4 & R5 & _).
    apply run_jobs_chain in Hj as (_ & _ & _ & C4 & _);
      [|apply initial_in_sync]. cbv zeta in C4.
    destruct o as [st|e st].
    + destruct C4 as (_ & [S1 _] & _).
      assert (Hsub : done0 ⊆ list_to_set (stored (fs w1) b).1).
      { rewrite <- S1. exact R1. }
      destruct (log_encodes _); simplify_eq.
      * rewrite attempted_app, requests_app.
        change (attempted [EvWriteLog b _]) with (@nil pystr).
        change (requests [EvWriteLog b _]) with (@nil (pystr * pystr)).
        rewrite !app_nil_r. done.
      * done.
    + simplify_eq. destruct C4 as (_ & Htr & _).
      split; [done|]. split; [done|]. intros Hl'. by destruct Hl'.
  - rewrite run_batch_truncated in Hrun by done. simplify_eq.
    split; [done|]. split; [done|]. intros Hl'. by destruct Hl'.
Qed.

(** C1.  Resuming skips what is done.  For every batch run: no job whose
    key is in the completed set loaded at start-up is started, no request
    is sent for such a job, and the completed keys on file are kept, as
    long as no commit raised and left the file truncated.  For two items
    and two variants whose four keys are distinct, started from a progress
    record holding the keys of the first item: the jobs started are jobs of
    the second item, in order, both of them when the run returns; and when
    there is no failure (the service answers every request with a complete
    object, and what is to be written can be encoded) the run returns and
    the progress record ends with exactly the four keys and two more
    results, the old ones in place. *)
Theorem idempotent_resume :
  (∀ templates b range items w,
     let res := run_batch templates b range items w in
     let done0 : gset pystr := list_to_set (stored (fs w) b).1 in
     Forall (fun k => k ∉ done0) (attempted (events_of res))
     ∧ Forall (fun q => join_key q.1 q.2 ∉ done0) (requests (events_of res))
     ∧ (loadable (fs (world_of res)) b ->
        done0 ⊆ list_to_set (stored (fs (world_of res)) b).1))
  ∧ (∀ b range v1 v2 V1 V2 t1 t2 w,
       let k11 := join_key (vignette_id v1) V1 in
       let k12 := join_key (vignette_id v1) V2 in
       let k21 := join_key (vignette_id v2) V1 in
       let k22 := join_key (vignette_id v2) V2 in
       NoDup [k11; k12; k21; k22] ->
       progress_ok (stored (fs w) b) ->
       (stored (fs w) b).1 ≡ₚ [k11; k12] ->
       let res := run_batch [(V1, t1); (V2, t2)] b range [v1; v2] w in
       let after := stored (fs (world_of res)) b in
       attempted (events_of res) `prefix_of` [k21; k22]
       ∧ (value_of res = Returned -> attempted (events_of res) = [k21; k22])
       ∧ ((∀ n, good_response n) ->
          clean_service ->
          clean_vignette v1 = true -> clean_vignette v2 = true ->
          encodes V1 = true -> encodes V2 = true ->
          clean_record (stored (fs w) b) = true ->
          value_of res = Returned
          ∧ attempted (events_of res) = [k21; k22]
          ∧ after.1 ≡ₚ [k11; k12; k21; k22]
          ∧ length after.2 = length (stored (fs w) b).2 + 2
          ∧ (stored (fs w) b).2 `prefix_of` after.2)).
Proof.
  split.
  { intros templates b range items w res done0. subst res.
    destruct (run_batch templates b range items w) as [[x w'] ev] eqn:Hrun.
    by apply run_batch_resume in Hrun. }
  intros b range v1 v2 V1 V2 t1 t2 w k11 k12 k21 k22 Hnd Hok Hperm res after.
  subst after res.
  set (s0 := stored (fs w) b) in *.
  set (jobs := [(v1, (V1, t1)); (v1, (V2, t2)); (v2, (V1, t1));
                (v2, (V2, t2))]).
  assert (Hl : loadable (fs w) b).
  { apply stored_nonempty_loadable. fold s0. intros E. rewrite E in Hperm.
    by apply Permutation_nil_cons in Hperm. }
  assert (Hc0 : (list_to_set s0.1 : gset pystr) = {[k11; k12]}).
  { apply set_eq. intros k. rewrite elem_of_list_to_set, Hperm. set_solver. }
  assert (Hsize : size (list_to_set s0.1 : gset pystr) = 2).
  { rewrite size_list_to_set by apply Hok. by rewrite Hperm. }
  assert (Hfilter : filter (fun k => k ∉ ({[k11; k12]} : gset pystr))
                      [k11; k12; k21; k22] = [k21; k22]).
  { pose proof Hnd as Hnd'.
    apply NoDup_cons in Hnd' as (N1 & Hnd').
    apply NoDup_cons in Hnd' as (N2 & Hnd').
    apply NoDup_cons in Hnd' as (N3 & Hnd').
    rewrite filter_cons_False by set_solver.
    rewrite filter_cons_False by set_solver.
    rewrite filter_cons_True by set_solver.
    rewrite filter_cons_True by set_solver. done. }
  pose proof (run_batch_unfold [(V1, t1); (V2, t2)] b range [v1; v2] w Hl)
    as Hun. cbv zeta in Hun. fold s0 in Hun.
  cbn [initial_locals_of completed] in Hun. rewrite Hsize in Hun.
  assert (Hz : (Z.of_nat (total_for_batch [(V1, t1); (V2, t2)] [v1; v2])
                - Z.of_nat 2 =? 0)%Z = false) by done.
  rewrite Hz in Hun. clear Hz.
  change (enumerate_jobs [(V1, t1); (V2, t2)] [v1; v2]) with jobs in Hun.
  destruct (run_jobs b _ jobs _ w) as [[o w1] ev1] eqn:Hrun.
  pose proof Hrun as Hres. apply run_jobs_resume in Hres
    as (pre & suf & Hj & Hnorm & _ & _ & _ & _ & _ & R6 & R7).
  change (map job_key jobs) with [k11; k12; k21; k22] in R6.
  cbn [initial_locals_of completed] in R6, R7. rewrite Hc0 in R6, R7.
  specialize (R6 Hnd).
  assert (Hkeys : [k11; k12; k21; k22] = map job_key pre ++ map job_key suf).
  { change [k11; k12; k21; k22] with (map job_key jobs).
    by rewrite Hj, map_app. }
  assert (Hatt : attempted (events_of
                   (run_batch [(V1, t1); (V2, t2)] b range [v1; v2] w))
                 = attempted ev1).
  { rewrite Hun. destruct o as [st|e st]; [|done].
    destruct (log_encodes _); [|done].
    unfold events_of. cbn [snd]. rewrite attempted_app.
    change (attempted [EvWriteLog b _]) with (@nil pystr).
    by rewrite app_nil_r. }
  assert (Hpre : attempted ev1 `prefix_of` [k21; k22]).
  { rewrite R6, <- Hfilter, Hkeys, filter_app. by apply prefix_app_r. }
  assert (Hall : is_normal o = true -> attempted ev1 = [k21; k22]).
  { intros Hn. rewrite R6, <- Hfilter, Hkeys, (Hnorm Hn).
    by rewrite app_nil_r. }
  rewrite Hatt. split; [done|]. split.
  { rewrite Hun. destruct o as [st|e st]; [|done]. intros _. by apply Hall. }
  intros Hgood Hsvc Hv1 Hv2 HV1 HV2 Hrec.
  apply andb_prop in Hrec as [Hrec1 Hrec2].
  assert (Hclean : clean_locals (initial_locals_of s0)).
  { split; [|split; [done|done]]. cbn [initial_locals_of completed].
    intros k Hk%elem_of_list_to_set.
    rewrite forallb_forall in Hrec1. by apply Hrec1, list_elem_of_In. }
  assert (Hjobs : Forall (fun j => clean_vignette j.1 = true
                                   ∧ encodes j.2.1 = true) jobs).
  { repeat constructor; done. }
  pose proof (run_jobs_clean _ _ _ _ _ _ _ _ Hsvc Hjobs Hclean Hrun)
    as [Hn (_ & _ & Hf)].
  destruct o as [st|e st]; [|done]. cbn [state_of] in *.
  destruct (R7 Hgood) as [E1 _].
  change (map job_key pre) with (map job_key pre) in E1.
  pose proof Hrun as Hch. apply run_jobs_chain in Hch
    as (C1 & _ & _ & (S0 & [S1 S2] & _) & _); [|apply initial_in_sync].
  cbv zeta in C1, S0. fold s0 in C1, S0.
  destruct (chain_ok _ _ _ Hok C1) as (_ & K2 & _ & _ & K5).
  rewrite <- S0 in K2, K5.
  assert (Hlog : ∀ ts, log_encodes
                   {| l_batch := b; l_completed := clock ts;
                      l_total := length (adaptations st);
                      l_failed := failed st;
                      l_vignette_range := (range.1 + 1, range.2);
                      l_variants := map fst [(V1, t1); (V2, t2)] |} = true).
  { intros ts. unfold log_encodes.
    cbn [l_completed l_failed l_variants map fst forallb].
    destruct Hsvc as [_ Hc]. by rewrite Hc, Hf, HV1, HV2. }
  rewrite Hlog in Hun. rewrite Hun.
  unfold value_of, world_of. cbn [fst snd fs].
  change (stored (fs_with_log (fs w1) b ?l) b) with (stored (fs w1) b).
  split; [done|]. split; [by apply Hall|].
  assert (Hp : (stored (fs w1) b).1 ≡ₚ [k11; k12; k21; k22]).
  { apply NoDup_Permutation; [apply K2|done|].
    intros k. rewrite <- (elem_of_list_to_set (C:=gset pystr)), <- S1, E1.
    rewrite (Hnorm eq_refl), app_nil_r in Hkeys. rewrite <- Hkeys.
    set_solver. }
  split; [exact Hp|]. split; [|exact K5].
  destruct K2 as [_ <-]. rewrite Hp. destruct Hok as [_ <-].
  rewrite Hperm. done.
Qed.

(** ** C8 and C10: merging *)

Lemma merge_step_run b acc w :
  merge_step b acc w
  = (acc ++ default [] (output_file (fs w) !! b), w, [merge_report (fs w) b]).
Proof.
  unfold merge_step, merge_report, bind, get_fs, emit, ret.
  destruct (output_file (fs w) !! b); simpl; by rewrite ?app_nil_r.
Qed.

Lemma merged_cons f b bs :
  merged f (b :: bs) = default [] (output_file f !! b) ++ merged f bs.
Proof.
  unfold merged, found_outputs. cbn [omap list_omap].
  by destruct (output_file f !! b).
Qed.

Lemma merge_loop_run bs acc w :
  for_each merge_step bs acc w
  = (acc ++ merged (fs w) bs, w, map (merge_report (fs w)) bs).
Proof.
  revert acc. induction bs as [|b bs IH]; intros acc.
  - simpl. unfold ret, merged. simpl. by rewrite app_nil_r.
  - cbn [for_each]. unfold bind. rewrite merge_step_run, IH, merged_cons.
    by rewrite app_assoc.
Qed.

Lemma collect_batches_run bs w :
  collect_batches bs w
  = (merged (fs w) bs, w, map (merge_report (fs w)) bs).
Proof. unfold collect_batches. by rewrite merge_loop_run. Qed.

Lemma merged_length f bs :
  length (merged f bs) = sum_list (length <$> found_outputs f bs).
Proof.
  unfold merged. induction (found_outputs f bs) as [|d ds IH]; [done|].
  simpl. by rewrite length_app, IH.
Qed.

Lemma merged_app f bs1 bs2 :
  merged f (bs1 ++ bs2) = merged f bs1 ++ merged f bs2.
Proof.
  unfold merged, found_outputs. by rewrite omap_app, concat_app.
Qed.

Lemma merged_nonempty f bs : merged f bs ≠ [] ↔ some_output f bs.
Proof.
  unfold some_output. induction bs as [|b bs IH].
  - split; [done|]. intros (b & d & Hb & _). by apply elem_of_nil in Hb.
  - change (b :: bs) with ([b] ++ bs). rewrite merged_app.
    unfold merged at 1, found_outputs. cbn [omap list_omap].
    destruct (output_file f !! b) as [data|] eqn:Hb; simpl.
    + rewrite app_nil_r. destruct data as [|x data].
      * simpl. rewrite IH. split.
        -- intros (b' & d & H1 & H2 & H3). exists b', d.
           split; [by right|done].
        -- intros (b' & d & H1 & H2 & H3).
           apply elem_of_cons in H1 as [->|H1]; [congruence|].
           by exists b', d.
      * split; [|done]. intros _. exists b, (x :: data).
        split; [by left|done].
    + rewrite IH. split.
      * intros (b' & d & H1 & H2 & H3). exists b', d.
        split; [by right|done].
      * intros (b' & d & H1 & H2 & H3).
        apply elem_of_cons in H1 as [->|H1]; [congruence|].
        by exists b', d.
Qed.

Lemma merge_batches_run bs w :
  merge_batches bs w
  = match merged (fs w) bs with
    | [] => (tt, w, map (merge_report (fs w)) bs ++ [EvNothingToMerge])
    | _ :: _ =>
        let all := merged (fs w) bs in
        let l := {| m_merged_at := clock (ticks w);
                    m_total := length all; m_batches := bs |} in
        (tt,
         {| calls := calls w; ticks := S (ticks w);
            fs := {| input_file := input_file (fs w);
                     progress_file := progress_file (fs w);
                     output_file := output_file (fs w);
                     log_file := log_file (fs w);
                     final_output := Some all;
                     merge_log_file := Some l |} |},
         map (merge_report (fs w)) bs ++ [EvWriteFinal all; EvWriteMergeLog l])
    end.
Proof.
  unfold Runner.merge_batches, bind. rewrite collect_batches_run.
  by destruct (merged (fs w) bs).
Qed.

Lemma merge_report_quiet f bs :
  existsb is_merge_write (map (merge_report f) bs) = false.
Proof.
  induction bs as [|b bs IH]; [done|]. simpl. rewrite IH.
  unfold merge_report. by destruct (output_file f !! b).
Qed.

(** C8. The merge pass collects the batch outputs that exist, in the order
    of the batch numbers (1, 2, 3 for [BATCH_CONFIG]): the collection is the
    concatenation of the outputs found and its size the sum of their sizes.
    A batch without output is reported as not found, adds nothing, and the
    loop goes on with the batches after it.  When the collection is not
    empty it is what the final file holds, and the merge log records its
    size and the batch numbers. *)
Theorem merge_concatenates bs w :
  let f := fs w in
  let all := merged f bs in
  let res := merge_batches bs w in
  collect_batches bs w = (all, w, map (merge_report f) bs)
  ∧ all = concat (found_outputs f bs)
  ∧ length all = sum_list (length <$> found_outputs f bs)
  ∧ (all ≠ [] ->
     final_output (fs (world_of res)) = Some all
     ∧ m_total <$> merge_log_file (fs (world_of res)) = Some (length all)
     ∧ m_batches <$> merge_log_file (fs (world_of res)) = Some bs)
  ∧ (∀ pre b suf, bs = pre ++ b :: suf -> output_file f !! b = None ->
       EvBatchNotFound b ∈ events_of res
       ∧ all = merged f pre ++ merged f suf)
  ∧ (∀ b d, b ∈ bs -> output_file f !! b = Some d ->
       EvBatchLoaded b (length d) ∈ events_of res)
  ∧ merge_all_batches w = merge_batches [1; 2; 3]%Z w
  ∧ merged f [1; 2; 3]%Z
    = default [] (output_file f !! 1%Z)
      ++ default [] (output_file f !! 2%Z)
      ++ default [] (output_file f !! 3%Z).
Proof.
  intros f all res.
  assert (Hev : ∀ b, b ∈ bs -> merge_report f b ∈ events_of res).
  { intros b Hb. subst res. rewrite merge_batches_run. fold f.
    assert (Hin : merge_report f b ∈ map (merge_report f) bs).
    { apply list_elem_of_In, in_map, list_elem_of_In, Hb. }
    destruct (merged f bs); unfold events_of; cbn [snd];
      apply elem_of_app; by left. }
  split; [apply collect_batches_run|]. split; [done|].
  split; [apply merged_length|]. split; [|split; [|split; [|split]]].
  - intros Hne. subst res. rewrite merge_batches_run. fold f all.
    destruct all as [|x all']; [done|]. done.
  - intros pre b suf -> Hb. split.
    + specialize (Hev b). unfold merge_report in Hev. rewrite Hb in Hev.
      apply Hev. apply elem_of_app. right. by left.
    + subst all. rewrite merged_app, merged_cons, Hb. done.
  - intros b d Hb Hd. specialize (Hev b Hb). unfold merge_report in Hev.
    by rewrite Hd in Hev.
  - done.
  - rewrite !merged_cons. unfold merged. simpl. by rewrite app_nil_r.
Qed.

(** C10. The merged output and the merge log are written together or not
    at all, and they are written exactly when some batch output exists and
    holds at least one record.  Otherwise, in particular when no batch
    output exists, the merge leaves every file as it was. *)
Theorem merge_writes_iff_some_output w :
  let bs := map fst BATCH_CONFIG in
  let res := merge_all_batches w in
  (existsb is_merge_write (events_of res) = true ↔ some_output (fs w) bs)
  ∧ (some_output (fs w) bs ->
     ∃ l, events_of res
          = map (merge_report (fs w)) bs
            ++ [EvWriteFinal (merged (fs w) bs); EvWriteMergeLog l]
          ∧ final_output (fs (world_of res)) = Some (merged (fs w) bs)
          ∧ merge_log_file (fs (world_of res)) = Some l)
  ∧ (¬ some_output (fs w) bs ->
     world_of res = w
     ∧ events_of res = map (merge_report (fs w)) bs ++ [EvNothingToMerge])
  ∧ ((∀ b, b ∈ bs -> output_file (fs w) !! b = None) ->
     world_of res = w
     ∧ existsb is_merge_write (events_of res) = false).
Proof.
  intros bs res.
  assert (Hrun := merge_batches_run bs w). fold bs in Hrun.
  change (merge_batches bs w) with res in Hrun.
  assert (Hno : merged (fs w) bs = [] ->
    world_of res = w
    ∧ events_of res = map (merge_report (fs w)) bs ++ [EvNothingToMerge]
    ∧ existsb is_merge_write (events_of res) = false).
  { intros E. rewrite E in Hrun. rewrite Hrun. unfold world_of, events_of.
    cbn [fst snd]. split; [done|]. split; [done|].
    rewrite existsb_app, merge_report_quiet. done. }
  assert (Hyes : merged (fs w) bs ≠ [] ->
    existsb is_merge_write (events_of res) = true
    ∧ ∃ l, events_of res
           = map (merge_report (fs w)) bs
             ++ [EvWriteFinal (merged (fs w) bs); EvWriteMergeLog l]
           ∧ final_output (fs (world_of res)) = Some (merged (fs w) bs)
           ∧ merge_log_file (fs (world_of res)) = Some l).
  { intros Hne. destruct (merged (fs w) bs) as [|x all'] eqn:E; [done|].
    rewrite Hrun. unfold world_of, events_of. cbn [fst snd].
    split; [|by eexists].
    rewrite existsb_app, merge_report_quiet. done. }
  split; [|split; [|split]].
  - rewrite <- merged_nonempty. split.
    + intros Hw E. apply Hno in E as (_ & _ & E). congruence.
    + intros Hne. by apply Hyes.
  - intros Hs%merged_nonempty. by apply Hyes.
  - intros Hs. assert (E : merged (fs w) bs = []).
    { destruct (merged (fs w) bs) eqn:E; [done|]. exfalso. apply Hs.
      apply merged_nonempty. by rewrite E. }
    apply Hno in E as (? & ? & _). done.
  - intros Hnone. assert (E : merged (fs w) bs = []).
    { destruct (merged (fs w) bs) eqn:E; [done|]. exfalso.
      assert (Hs : some_output (fs w) bs)
        by (apply merged_nonempty; by rewrite E).
      destruct Hs as (b & d & Hb & Hd & _). rewrite (Hnone b Hb) in Hd.
      done. }
    apply Hno in E as (? & _ & ?). done.
Qed.

End Properties.

(** * Runs on the sample data *)

Example extract_json_plain :
  extract_json (py "  {}  ") = py "{}".
Proof. reflexivity. Qed.

Example extract_json_fenced :
  extract_json (fenced (py "json") (py "{}") NL) = py "{}".
Proof. reflexivity. Qed.

Example extract_json_no_newline :
  extract_json (py "```{}```") = py "{}".
Proof. reflexivity. Qed.

Example adapt_ok :
  adapt_single_vignette Sample.loads Sample.always_ok Sample.clock
    Sample.v1 Sample.UWM.1 Sample.UWM.2 Sample.fresh
  = (Some Sample.result1,
     {| calls := 1; ticks := 1; fs := Sample.no_files |},
     [EvRequest (py "PILOT-001") (py "urban_wealthy_male")]).
Proof. vm_compute. reflexivity. Qed.

Example adapt_incomplete :
  events_of (adapt_single_vignette Sample.loads Sample.always_incomplete
               Sample.clock Sample.v1 Sample.UWM.1 Sample.UWM.2 Sample.fresh)
  = [EvRequest (py "PILOT-001") (py "urban_wealthy_male"); EvSleep 15;
     EvRequest (py "PILOT-001") (py "urban_wealthy_male"); EvSleep 15;
     EvRequest (py "PILOT-001") (py "urban_wealthy_male"); EvSleep 15;
     EvRequest (py "PILOT-001") (py "urban_wealthy_male"); EvSleep 15;
     EvRequest (py "PILOT-001") (py "urban_wealthy_male")].
Proof. vm_compute. reflexivity. Qed.

Example resume_half_done :
  attempted (events_of (run_batch Sample.loads Sample.always_ok Sample.clock
                          [Sample.UWM; Sample.UPF] 1 (0, 15)
                          [Sample.v1; Sample.v2] Sample.half_done))
  = [py "PILOT-002_urban_wealthy_male"; py "PILOT-002_urban_poor_female"].
Proof. vm_compute. reflexivity. Qed.

(** The service answers with an object that has the four required fields
    and nothing else: the result carries the category, the model name and
    the time stamp, but neither the item id [PILOT-001] nor the variant
    code [UWM]. *)
Lemma result_without_item_id_or_code :
  adapt_single_vignette Sample.loads Sample.always_ok Sample.clock
    Sample.v1 Sample.UWM.1 Sample.UWM.2 Sample.fresh
  = (Some Sample.result1,
     {| calls := 1; ticks := 1; fs := Sample.no_files |},
     [EvRequest (py "PILOT-001") (py "urban_wealthy_male")])
  ∧ carries Sample.result1 (vignette_id Sample.v1) = false
  ∧ carries Sample.result1 (code Sample.UWM.2) = false
  ∧ ¬ provenance_claim.
Proof.
  split; [exact adapt_ok|]. split; [reflexivity|]. split; [reflexivity|].
  intros H. destruct (H _ _ _ _ _ _ _ _ _ _ adapt_ok) as (Hid & _).
  vm_compute in Hid. discriminate.
Qed.

(** The service answers with an object whose [vignette_id] holds a lone
    surrogate.  The object has the four required fields and becomes a
    result; [save_batch_progress] cannot encode it and raises.  The job was
    started, the rate-limit delay is not applied, and the run ends with the
    exception. *)
Lemma delay_skipped_when_commit_raises :
  let res := process_batch Scenario.loads_surrogate Scenario.always_surrogate
               Sample.clock 1 Sample.fresh in
  value_of res = Uncaught UnicodeEncodeError
  ∧ attempted (events_of res) = [py "PILOT-001_urban_wealthy_male"]
  ∧ requests (events_of res)
    = [(py "PILOT-001", py "urban_wealthy_male")]
  ∧ delays (events_of res) = 0
  ∧ ¬ delay_claim.
Proof.
  split; [vm_compute; reflexivity|]. split; [vm_compute; reflexivity|].
  split; [vm_compute; reflexivity|]. split; [vm_compute; reflexivity|].
  intros H.
  specialize (H Scenario.loads_surrogate Scenario.always_surrogate
                Sample.clock 1%Z Sample.fresh).
  vm_compute in H. discriminate.
Qed.

(** The same service, on a store that holds the two results of an earlier
    run: the first job that is not done yet is started, its commit raises,
    and the progress file, written in place, is left truncated.  The two
    keys and the two results it held are gone, and the next load fails. *)
Lemma record_lost_when_commit_raises :
  let w := Sample.half_done in
  let res := process_batch Scenario.loads_surrogate Scenario.always_surrogate
               Sample.clock 1 w in
  progress_ok (stored (fs w) 1)
  ∧ (stored (fs w) 1).2 = [Sample.result1; Sample.result1]
  ∧ attempted (events_of res) = [py "PILOT-001_rural_poor_male"]
  ∧ progress_file (fs (world_of res)) !! 1%Z = Some Truncated
  ∧ stored (fs (world_of res)) 1 = ([], [])
  ∧ output_file (fs (world_of res)) !! 1%Z
    = Some [Sample.result1; Sample.result1]
  ∧ value_of (load_batch_progress 1 (world_of res)) = Raise JSONDecodeError
  ∧ ¬ growth_claim.
Proof.
  split; [split; [by_compute|reflexivity]|].
  split; [reflexivity|]. split; [vm_compute; reflexivity|].
  split; [vm_compute; reflexivity|]. split; [vm_compute; reflexivity|].
  split; [vm_compute; reflexivity|]. split; [vm_compute; reflexivity|].
  intros H.
  destruct (H Scenario.loads_surrogate Scenario.always_surrogate
              Sample.clock 1%Z Sample.half_done) as [_ Hp].
  vm_compute in Hp. destruct Hp as [k Hk]. discriminate Hk.
Qed.

(** * Instances *)

Lemma sample_clean_service :
  clean_service Sample.loads Sample.always_ok Sample.clock.
Proof.
  split; [|reflexivity]. intros n text x H1 H2.
  injection H1 as <-. vm_compute in H2. injection H2 as <-. reflexivity.
Defined.

Lemma sample_good_response n :
  good_response Sample.loads Sample.always_ok n.
Proof.
  exists Sample.complete_text. eexists.
  split; [reflexivity|]. split; vm_compute; reflexivity.
Defined.

Lemma idempotent_resume_witness :
  let res := run_batch Sample.loads Sample.always_ok Sample.clock
               [Sample.UWM; Sample.UPF] 1 (0, 15) [Sample.v1; Sample.v2]
               Sample.half_done in
  value_of res = Returned
  ∧ attempted (events_of res)
    = [py "PILOT-002_urban_wealthy_male"; py "PILOT-002_urban_poor_female"]
  ∧ (stored (fs (world_of res)) 1).1
    ≡ₚ [py "PILOT-001_urban_wealthy_male"; py "PILOT-001_urban_poor_female";
        py "PILOT-002_urban_wealthy_male"; py "PILOT-002_urban_poor_female"].
Proof.
  destruct (idempotent_resume Sample.loads Sample.always_ok Sample.clock)
    as [_ H].
  destruct (H 1%Z (0, 15) Sample.v1 Sample.v2 Sample.UWM.1 Sample.UPF.1
              Sample.UWM.2 Sample.UPF.2 Sample.half_done) as (_ & _ & H3).
  - by_compute.
  - split; [by_compute|reflexivity].
  - reflexivity.
  - destruct H3 as (A & B & C & _).
    + exact sample_good_response.
    + exact sample_clean_service.
    + reflexivity.
    + reflexivity.
    + reflexivity.
    + reflexivity.
    + reflexivity.
    + split; [exact A|]. split; [exact B|exact C].
Defined.

Lemma rate_limit_backoff_witness :
  adapt_single_vignette Sample.loads Sample.always_429 Sample.clock
    Sample.v1 Sample.UWM.1 Sample.UWM.2 Sample.fresh
  = (None, advance MAX_RETRIES Sample.fresh,
     rate_limited_events (py "PILOT-001") Sample.UWM.1 MAX_RETRIES
       INITIAL_RETRY_DELAY)
  ∧ sleeps (rate_limited_events (py "PILOT-001") Sample.UWM.1 MAX_RETRIES
              INITIAL_RETRY_DELAY)
    = [60; 120; 240; 300; 300]%Z
  ∧ sleeps (events_of
              (for_each_try
                 (job_body Sample.loads Sample.always_429 Sample.clock
                    1 12 Sample.v1)
                 [Sample.UWM; Sample.UPF]
                 {| completed := ∅; adaptations := []; failed := [] |}
                 Sample.fresh))
    = [60; 120; 240; 300; 300; 8; 60; 120; 240; 300; 300; 8]%Z.
Proof.
  destruct (rate_limit_backoff Sample.loads Sample.always_429 Sample.clock
              Sample.v1 Sample.UWM.1 Sample.UWM.2 Sample.fresh MAX_RETRIES)
    as (_ & _ & _ & H3 & H4).
  - unfold MAX_RETRIES. lia.
  - intros i _. reflexivity.
  - destruct (H3 eq_refl) as (A & B & _). split; [exact A|].
    split; [exact B|].
    apply (H4 eq_refl 1%Z 12%Z
             {| completed := ∅; adaptations := []; failed := [] |}
             Sample.UPF.1 Sample.UPF.2).
    + apply not_elem_of_empty.
    + apply not_elem_of_empty.
    + intros i _. reflexivity.
Defined.

Lemma progress_record_invariant_witness :
  let res := run_batch Sample.loads Sample.always_ok Sample.clock
               [Sample.UWM; Sample.UPF] 1 (0, 15) [Sample.v1; Sample.v2]
               Sample.half_done in
  let job := job_body Sample.loads Sample.always_ok Sample.clock 1 12
               Sample.v1 (Sample.UWM.1, Sample.UWM.2)
               (initial_locals_of ([], [])) Sample.fresh in
  progress_ok (stored Sample.no_files 1)
  ∧ stored (fs (world_of job)) 1
    = ([py "PILOT-001_urban_wealthy_male"], [Sample.result1])
  ∧ output_file (fs (world_of job)) !! 1%Z = Some [Sample.result1]
  ∧ grown (made_by Sample.loads Sample.always_ok Sample.clock
             (calls Sample.half_done) (events_of res)
             (enumerate_jobs [Sample.UWM; Sample.UPF]
                [Sample.v1; Sample.v2]))
      (stored (fs Sample.half_done) 1) (snapshots (events_of res))
      (List.last (snapshots (events_of res))
         (stored (fs Sample.half_done) 1))
  ∧ stored (fs (world_of res)) 1
    = List.last (snapshots (events_of res)) (stored (fs Sample.half_done) 1).
Proof.
  destruct (progress_record_invariant Sample.loads Sample.always_ok
              Sample.clock) as (H1 & _ & _ & H4 & _ & H6).
  assert (Hok : progress_ok (stored (fs Sample.half_done) 1))
    by (split; [by_compute|reflexivity]).
  split; [apply H1; reflexivity|].
  pose proof (H4 1%Z 12%Z Sample.v1 Sample.UWM.1 Sample.UWM.2
                (initial_locals_of ([], [])) Sample.fresh Sample.result1
                {| calls := 1; ticks := 1; fs := Sample.no_files |}
                [EvRequest (py "PILOT-001") (py "urban_wealthy_male")]
                (not_elem_of_empty _) adapt_ok) as Hc.
  cbv zeta in Hc.
  match type of Hc with
  | if ?c then _ else _ =>
      assert (E : c = true) by (vm_compute; reflexivity); rewrite E in Hc
  end.
  destruct Hc as (_ & Hp & Ho & _).
  split; [unfold stored; rewrite Hp; vm_compute; reflexivity|].
  split; [exact Ho|].
  destruct (H6 [Sample.UWM; Sample.UPF] 1%Z (0, 15) [Sample.v1; Sample.v2]
              Sample.half_done Hok) as (G1 & G2 & G3).
  split; [exact G1|]. apply G2. vm_compute. discriminate.
Defined.

Lemma fenced_response_parses_alike_witness :
  extract_json (fenced (py "json") Sample.complete_text NL)
  = extract_json Sample.complete_text
  ∧ Sample.loads (extract_json (fenced (py "json") Sample.complete_text NL))
    = Sample.loads (extract_json Sample.complete_text).
Proof.
  destruct (fenced_response_parses_alike Sample.loads Sample.clock
              (py "json") Sample.complete_text NL) as (H1 & _ & H3 & _).
  - by_compute.
  - reflexivity.
  - reflexivity.
  - split; [exact H1|exact H3].
Defined.

Lemma missing_field_is_retried_witness :
  attempt_body Sample.loads Sample.always_incomplete Sample.clock
    Sample.v1 Sample.UWM.1 0 60 Sample.fresh
  = (Continue 60, advance 1 Sample.fresh,
     [EvRequest (py "PILOT-001") Sample.UWM.1; EvSleep 15]).
Proof.
  destruct (missing_field_is_retried Sample.loads Sample.always_incomplete
              Sample.clock Sample.v1 Sample.UWM.1 0 60%Z Sample.fresh
              Sample.incomplete_text
              [(py "vignette_id", JStr (py "X"));
               (py "question", JStr (py "Q")); (py "options", JObj [])]
              (py "answer")) as (H1 & _).
  - reflexivity.
  - vm_compute. reflexivity.
  - by_compute.
  - reflexivity.
  - exact H1.
Defined.


Lemma merge_concatenates_witness :
  let res := merge_batches Sample.clock [1; 2; 3]%Z Sample.two_outputs in
  final_output (fs (world_of res))
  = Some [Sample.result1; Sample.result1; Sample.complete_object]
  ∧ m_total <$> merge_log_file (fs (world_of res)) = Some 3
  ∧ EvBatchNotFound 2 ∈ events_of res
  ∧ EvBatchLoaded 3 1 ∈ events_of res.
Proof.
  destruct (merge_concatenates Sample.clock [1; 2; 3]%Z Sample.two_outputs)
    as (_ & _ & _ & H4 & H5 & H6 & _).
  destruct H4 as (A & B & _); [vm_compute; discriminate|].
  destruct (H5 [1%Z] 2%Z [3%Z] eq_refl) as (C & _); [reflexivity|].
  split; [exact A|]. split; [exact B|]. split; [exact C|].
  apply (H6 3%Z [Sample.complete_object]); [by_compute|reflexivity].
Defined.

Lemma result_metadata_witness :
  getitem (py "category") Sample.result1
  = Some (JStr (py "cardiovascular"))
  ∧ getitem (py "model") Sample.result1 = Some (JStr MODEL_NAME)
  ∧ getitem (py "timestamp") Sample.result1
    = Some (JStr (Sample.clock 0))
  ∧ ∃ news,
      adaptations (state_of (value_of
        (run_jobs Sample.loads Sample.always_ok Sample.clock 1 4
           [(Sample.v2, Sample.UWM)]
           {| completed := ∅; adaptations := [Sample.result1];
              failed := [] |}
           Sample.fresh)))
      = [Sample.result1] ++ news.
Proof.
  destruct (result_metadata Sample.loads Sample.always_ok Sample.clock
              Sample.v1 Sample.UWM.1 Sample.UWM.2 Sample.fresh
              Sample.result1 _ _ adapt_ok)
    as ((text & kvs & _ & _ & _ & _ & _ & _ & _ & A & B & D & _) & C).
  split; [exact A|]. split; [exact B|]. split; [exact D|].
  destruct (C 1%Z 4%Z [(Sample.v2, Sample.UWM)]
              {| completed := ∅; adaptations := [Sample.result1];
                 failed := [] |} Sample.fresh) as (news & E & _).
  exists news. exact E.
Defined.

Lemma merge_writes_iff_some_output_witness :
  existsb is_merge_write
    (events_of (merge_all_batches Sample.clock Sample.two_outputs)) = true
  ∧ final_output (fs (world_of (merge_all_batches Sample.clock
                                  Sample.two_outputs)))
    = Some [Sample.result1; Sample.result1; Sample.complete_object]
  ∧ world_of (merge_all_batches Sample.clock Sample.fresh) = Sample.fresh
  ∧ existsb is_merge_write
      (events_of (merge_all_batches Sample.clock Sample.fresh)) = false.
Proof.
  assert (Hsome : some_output (fs Sample.two_outputs) (map fst BATCH_CONFIG)).
  { exists 1%Z, [Sample.result1; Sample.result1].
    split; [by_compute|]. split; [reflexivity|discriminate]. }
  assert (Hnone : ∀ b, b ∈ map fst BATCH_CONFIG ->
                       output_file (fs Sample.fresh) !! b = None).
  { intros b _. apply lookup_empty. }
  destruct (merge_writes_iff_some_output Sample.clock Sample.two_outputs)
    as (H1 & H2 & _).
  destruct (merge_writes_iff_some_output Sample.clock Sample.fresh)
    as (_ & _ & H3 & H4).
  destruct (H2 Hsome) as (l & _ & A & _).
  destruct H3 as (B & _).
  { intros (b & d & Hb & Hd & _). rewrite (Hnone b Hb) in Hd. discriminate. }
  destruct (H4 Hnone) as (_ & C).
  split; [apply H1, Hsome|]. split; [exact A|]. split; [exact B|exact C].
Defined.

(** * Further properties *)

Section Further.

Variable json_loads : pystr -> option json.
Variable api : nat -> api_outcome.
Variable clock : nat -> pystr.

Notation attempt_body := (attempt_body json_loads api clock).
Notation retry_loop := (retry_loop json_loads api clock).
Notation adapt_single_vignette := (adapt_single_vignette json_loads api clock).
Notation handle_text := (handle_text json_loads clock).
Notation adapted := (adapted json_loads api clock).
Notation job_body := (job_body json_loads api clock).
Notation process_jobs := (process_jobs json_loads api clock).
Notation run_jobs := (run_jobs json_loads api clock).
Notation run_batch := (run_batch json_loads api clock).
Notation process_batch := (process_batch json_loads api clock).
Notation good_response := (good_response json_loads api).
Notation made_by := (made_by json_loads api clock).
Notation clean_service := (clean_service json_loads api clock).
Notation save_batch_progress := (save_batch_progress clock).
Notation merge_batches := (merge_batches clock).
Notation merge_all_batches := (merge_all_batches clock).

(** ** More on the retry loop *)

Lemma handle_text_shape v text attempt d w e w' ev :
  handle_text v text attempt d w = (e, w', ev) ->
  (∃ x, e = Return (Some x)) ∧ ev = []
  ∨ e = Return None ∧ ev = [] ∧ attempt = MAX_RETRIES - 1
  ∨ e = Continue d ∧ attempt ≠ MAX_RETRIES - 1
    ∧ (ev = [EvSleep 10] ∨ ev = [EvSleep 15]).
Proof.
  unfold Runner.handle_text. intros H.
  assert (Hex : forall a0 w0 e0 w1 ev0,
    on_exception a0 d w0 = (e0, w1, ev0) ->
    e0 = Return None ∧ ev0 = [] ∧ a0 = MAX_RETRIES - 1
    ∨ e0 = Continue d ∧ a0 ≠ MAX_RETRIES - 1
      ∧ (ev0 = [EvSleep 10] ∨ ev0 = [EvSleep 15])).
  { intros a0 w0 e0 w1 ev0
      (_ & [(? & -> & ->)|(? & -> & ->)])%on_exception_spec; auto. }
  assert (Hjs : forall a0 w0 e0 w1 ev0,
    on_json_error a0 d w0 = (e0, w1, ev0) ->
    e0 = Return None ∧ ev0 = [] ∧ a0 = MAX_RETRIES - 1
    ∨ e0 = Continue d ∧ a0 ≠ MAX_RETRIES - 1
      ∧ (ev0 = [EvSleep 10] ∨ ev0 = [EvSleep 15])).
  { intros a0 w0 e0 w1 ev0
      (_ & [(? & -> & ->)|(? & -> & ->)])%on_json_error_spec; auto. }
  destruct (json_loads (extract_json text)) as [result|];
    [|right; by eapply Hjs].
  destruct (all_in REQUIRED_FIELDS result) as [[|]|];
    [|right; by eapply Hex..].
  destruct result as [| | | | |kvs]; simpl in H;
    try (right; by eapply Hex).
  left. run_m. simplify_eq. split; [by eexists|done].
Qed.

(** One pass through the loop body: one request, then nothing when the
    function returns, or one sleep of at least 10 seconds and at most the
    capped back-off delay when the loop goes on. *)
Lemma attempt_body_shape v vt attempt d w e w' ev :
  (60 <= d)%Z ->
  attempt_body v vt attempt d w = (e, w', ev) ->
  ∃ tail, ev = EvRequest (vignette_id v) vt :: tail
  ∧ match e with
    | Return _ => tail = []
    | Continue d' =>
        ∃ s, tail = [EvSleep s]
             ∧ (10 <= s <= Z.min d MAX_RETRY_DELAY)%Z
             ∧ (d' = d ∨ d' = (d * 2)%Z ∧ s = Z.min d MAX_RETRY_DELAY)
    end.
Proof.
  intros Hd. unfold Runner.attempt_body, bind, call_gemini_api.
  unfold MAX_RETRY_DELAY.
  destruct (api (calls w)) as [text|c| |] eqn:Hapi.
  - destruct (handle_text v text attempt d _) as [[e1 w1] ev1] eqn:Hh.
    intros ?; simplify_eq. eexists. split; [done|].
    apply handle_text_shape in Hh
      as [[[x ->] ->]|[(-> & -> & _)|(-> & _ & [->| ->])]]; try done.
    + exists 10%Z. split; [done|]. split; [lia|by left].
    + exists 15%Z. split; [done|]. split; [lia|by left].
  - unfold on_http_error, MAX_RETRY_DELAY, MAX_RETRIES.
    destruct (Z.eqb_spec c 429); [|destruct (Z.eqb_spec c 503);
      [|destruct (Nat.eqb_spec attempt (5 - 1))]];
      run_m; intros ?; simplify_eq; eexists; (split; [done|]); try done.
    + eexists. split; [done|]. split; [lia|]. right. done.
    + exists 30%Z. split; [done|]. split; [lia|by left].
    + exists 30%Z. split; [done|]. split; [lia|by left].
  - destruct (on_json_error attempt d _) as [[e1 w1] ev1] eqn:Hh.
    intros ?; simplify_eq. eexists. split; [done|].
    apply on_json_error_spec in Hh as (_ & [(_ & -> & ->)|(_ & -> & ->)]);
      [done|]. exists 10%Z. split; [done|]. split; [lia|by left].
  - destruct (on_exception attempt d _) as [[e1 w1] ev1] eqn:Hh.
    intros ?; simplify_eq. eexists. split; [done|].
    apply on_exception_spec in Hh as (_ & [(_ & -> & ->)|(_ & -> & ->)]);
      [done|]. exists 15%Z. split; [done|]. split; [lia|by left].
Qed.

Lemma backoff_budget_mono n d d' :
  (d <= d')%Z -> (backoff_budget n d <= backoff_budget n d')%Z.
Proof.
  revert d d'. induction n as [|n IH]; intros d d' H; simpl; [lia|].
  specialize (IH (d * 2)%Z (d' * 2)%Z). lia.
Qed.

Lemma backoff_budget_nonneg n d : (0 <= d)%Z -> (0 <= backoff_budget n d)%Z.
Proof.
  revert d. induction n as [|n IH]; intros d H; simpl; [lia|].
  specialize (IH (d * 2)%Z). unfold MAX_RETRY_DELAY. lia.
Qed.

Lemma requests_cons_request vid vt ev :
  requests (EvRequest vid vt :: ev) = (vid, vt) :: requests ev.
Proof. done. Qed.

Lemma sleeps_cons_request vid vt ev :
  sleeps (EvRequest vid vt :: ev) = sleeps ev.
Proof. done. Qed.

Lemma sleeps_cons_sleep s ev : sleeps (EvSleep s :: ev) = s :: sleeps ev.
Proof. done. Qed.

Lemma requests_cons_sleep s ev : requests (EvSleep s :: ev) = requests ev.
Proof. done. Qed.

(** The retry loop over the attempts [a, a+1, ..., MAX_RETRIES - 1]. *)
Lemma retry_loop_shape v vt n a d w r w' ev :
  a + n = MAX_RETRIES -> (60 <= d)%Z ->
  retry_loop v vt (seq a n) d w = (r, w', ev) ->
  calls w <= calls w'
  ∧ length (requests ev) = calls w' - calls w
  ∧ (1 <= n -> calls w < calls w')
  ∧ match r with
    | None => calls w' = calls w + n
    | Some x => ∃ m, adapted v (pred (calls w')) m x
    end
  ∧ (total (sleeps ev) <= backoff_budget n d)%Z
  ∧ Forall (fun s => 10 <= s <= MAX_RETRY_DELAY)%Z (sleeps ev)
  ∧ ∃ b, spacing true ev = Some b.
Proof.
  revert a d w r w' ev. induction n as [|n IH]; intros a d w r w' ev Han Hd.
  - simpl. unfold ret. intros ?; simplify_eq. simpl.
    repeat split; auto; try lia. by eexists.
  - cbn [seq Runner.retry_loop]. unfold bind.
    destruct (attempt_body v vt a d w) as [[e w1] ev1] eqn:Hb.
    pose proof Hb as Hspec.
    apply attempt_body_spec in Hspec as (_ & Hc & _ & He); [|done].
    apply attempt_body_shape in Hb as (tail & -> & Hshape); [|done].
    destruct e as [res|d'].
    + subst tail. unfold ret. intros ?; simplify_eq. simpl.
      pose proof (backoff_budget_nonneg n (d * 2)%Z).
      unfold MAX_RETRY_DELAY in *.
      repeat split; auto; try lia.
      * destruct r as [x|].
        -- exists (ticks w). by rewrite Hc.
        -- unfold MAX_RETRIES in *. lia.
      * by eexists.
    + destruct Hshape as (s & -> & Hs & Hd').
      destruct (retry_loop v vt (seq (S a) n) d' w1) as [[r2 w2] ev2] eqn:Hr.
      intros ?; simplify_eq.
      apply IH in Hr as (I1 & I2 & I3 & I4 & I5 & I6 & I7); [|lia|done].
      cbn [app]. rewrite requests_cons_request, requests_cons_sleep,
        sleeps_cons_request, sleeps_cons_sleep.
      split; [lia|]. split; [simpl; lia|]. split; [lia|]. split.
      { destruct r as [x|]; [done|]. lia. }
      split.
      { simpl. assert (backoff_budget n d' <= backoff_budget n (d * 2))%Z
          by (apply backoff_budget_mono; lia). lia. }
      split.
      { constructor; [|done]. unfold MAX_RETRY_DELAY in *. lia. }
      cbn [spacing]. unfold DELAY_BETWEEN_REQUESTS.
      destruct (Z.leb_spec 8 s) as [_|?]; [|lia]. exact I7.
Qed.

Lemma attempt_body_good v vt a d w :
  good_response (calls w) ->
  ∃ x, attempt_body v vt a d w
       = (Return (Some x),
          {| calls := S (calls w); ticks := S (ticks w); fs := fs w |},
          [EvRequest (vignette_id v) vt])
       ∧ adapted v (calls w) (ticks w) x.
Proof.
  intros (text & kvs & Hapi & Hload & Hall).
  unfold Runner.attempt_body, bind, call_gemini_api.
  rewrite Hapi. unfold Runner.handle_text. rewrite Hload, Hall.
  cbn [setitem]. run_m. eexists. split; [done|].
  exists text, kvs. done.
Qed.

Lemma attempt_body_not_good v vt a d w e w' ev :
  (60 <= d)%Z -> ¬ good_response (calls w) -> a ≠ MAX_RETRIES - 1 ->
  attempt_body v vt a d w = (e, w', ev) ->
  calls w' = S (calls w) ∧ ∃ d', e = Continue d' ∧ (60 <= d')%Z.
Proof.
  intros Hd Hbad Ha Hb.
  apply attempt_body_spec in Hb as (_ & Hc & _ & He); [|done].
  split; [done|]. destruct e as [[x|]|d']; [| |by eauto].
  - destruct He as (text & kvs & H1 & H2 & H3 & _). exfalso. apply Hbad.
    by exists text, kvs.
  - done.
Qed.

Lemma retry_loop_first_good v vt pre a rest d w :
  (60 <= d)%Z ->
  Forall (fun i => i ≠ MAX_RETRIES - 1) pre ->
  (∀ i, i < length pre -> ¬ good_response (calls w + i)) ->
  good_response (calls w + length pre) ->
  ∃ x m w' ev,
    retry_loop v vt (pre ++ a :: rest) d w = (Some x, w', ev)
    ∧ adapted v (calls w + length pre) m x
    ∧ calls w' = calls w + length pre + 1.
Proof.
  revert d w. induction pre as [|p pre IH]; intros d w Hd Hpre Hbad Hgood.
  - simpl in *. rewrite Nat.add_0_r in Hgood.
    destruct (attempt_body_good v vt a d w Hgood) as (x & Hb & Hx).
    cbn [Runner.retry_loop]. unfold bind. rewrite Hb. unfold ret.
    eexists x, _, _, _. split; [done|]. rewrite Nat.add_0_r.
    split; [done|]. simpl. lia.
  - apply Forall_cons in Hpre as [Hp Hpre].
    cbn [app Runner.retry_loop]. unfold bind.
    destruct (attempt_body v vt p d w) as [[e w1] ev1] eqn:Hb.
    apply attempt_body_not_good in Hb as (Hc & d' & -> & Hd'); [|done| |done].
    2:{ specialize (Hbad 0). rewrite Nat.add_0_r in Hbad. apply Hbad.
        simpl. lia. }
    destruct (IH d' w1 Hd' Hpre) as (x & m & w' & ev & Hr & Hx & Hw').
    + intros i Hi. rewrite Hc.
      replace (S (calls w) + i) with (calls w + S i) by lia.
      apply Hbad. simpl. lia.
    + rewrite Hc. replace (S (calls w) + length pre)
        with (calls w + length (p :: pre)) by (simpl; lia). done.
    + rewrite Hr. eexists x, m, w', _. split; [done|].
      rewrite Hc in Hx, Hw'. simpl.
      replace (calls w + S (length pre)) with (S (calls w) + length pre)
        by lia.
      split; [done|]. lia.
Qed.

Lemma retry_loop_unavailable v vt pre rest d w :
  (∀ i, i < length pre -> api (calls w + i) = ApiHTTPError 503) ->
  retry_loop v vt (pre ++ rest) d w
  = let '(r, w', ev) := retry_loop v vt rest d (advance (length pre) w) in
    (r, w', unavailable_events (vignette_id v) vt (length pre) ++ ev).
Proof.
  revert w. induction pre as [|a pre IH]; intros w Hapi.
  - simpl. rewrite advance_0.
    by destruct (retry_loop v vt rest d w) as [[? ?] ?].
  - cbn [app Runner.retry_loop length unavailable_events].
    unfold bind, Runner.attempt_body, bind, call_gemini_api.
    generalize (Hapi 0). rewrite Nat.add_0_r. intros ->; [|simpl; lia].
    unfold on_http_error. simpl Z.eqb. cbv iota. run_m.
    rewrite IH.
    + replace (advance (length pre)
                 {| calls := S (calls w); ticks := ticks w; fs := fs w |})
        with (advance (S (length pre)) w)
        by (unfold advance; simpl; f_equal; lia).
      by destruct (retry_loop v vt rest _ _) as [[? ?] ?].
    + intros i Hi. simpl calls.
      replace (S (calls w) + i) with (calls w + S i) by lia.
      apply Hapi. simpl. lia.
Qed.

Lemma sleeps_unavailable vid vt n :
  sleeps (unavailable_events vid vt n) = replicate n 30%Z.
Proof. induction n as [|n IH]; [done|]. simpl. by rewrite <- IH. Qed.

(** X1. A job is given up only after all [MAX_RETRIES] requests were
    sent: when [adapt_single_vignette] returns [None] it has sent exactly
    five requests, and when it returns a result it has sent between one and
    five and the result is built from the answer to the last one. *)
Theorem job_gives_up_only_after_all_attempts v vt t w :
  let res := adapt_single_vignette v vt t w in
  let sent := length (requests (events_of res)) in
  calls (world_of res) = calls w + sent
  ∧ match value_of res with
    | None => sent = MAX_RETRIES
    | Some x => 1 <= sent <= MAX_RETRIES
                ∧ ∃ m, adapted v (calls w + sent - 1) m x
    end.
Proof.
  intros res sent. subst sent res.
  destruct (adapt_single_vignette v vt t w) as [[r w'] ev] eqn:Ha.
  pose proof Ha as Hs.
  apply adapt_single_vignette_spec in Hs as (_ & Hbound & _).
  unfold Runner.adapt_single_vignette in Ha.
  apply (retry_loop_shape v vt MAX_RETRIES 0) in Ha
    as (H1 & H2 & H3 & H4 & _); [|done|unfold INITIAL_RETRY_DELAY; lia].
  unfold events_of, world_of, value_of. cbn [fst snd].
  rewrite H2. split; [lia|].
  destruct r as [x|].
  - assert (calls w < calls w') by (apply H3; unfold MAX_RETRIES; lia).
    split; [lia|]. destruct H4 as [m Hm]. exists m.
      replace (calls w + (calls w' - calls w) - 1) with (pred (calls w'))
        by lia. done.
  - lia.
Qed.

(** X2. The first usable answer wins: when the first [k] answers of a job
    ([k < MAX_RETRIES]) are not an object with the required fields, whatever
    else they are, and answer [k] is one, the job returns the result built
    from answer [k] and sends no further request. *)
Theorem first_good_response_wins v vt t w k :
  k < MAX_RETRIES ->
  (∀ i, i < k -> ¬ good_response (calls w + i)) ->
  good_response (calls w + k) ->
  let res := adapt_single_vignette v vt t w in
  calls (world_of res) = calls w + k + 1
  ∧ ∃ x m, value_of res = Some x ∧ adapted v (calls w + k) m x.
Proof.
  intros Hk Hbad Hgood res. subst res.
  unfold Runner.adapt_single_vignette.
  replace (seq 0 MAX_RETRIES)
    with (seq 0 k ++ k :: seq (S k) (MAX_RETRIES - S k)).
  2:{ change (k :: seq (S k) (MAX_RETRIES - S k))
        with (seq k (S (MAX_RETRIES - S k))).
      rewrite <- seq_app. f_equal. lia. }
  destruct (retry_loop_first_good v vt (seq 0 k) k
              (seq (S k) (MAX_RETRIES - S k)) INITIAL_RETRY_DELAY w)
    as (x & m & w' & ev & Hr & Hx & Hw').
  - unfold INITIAL_RETRY_DELAY. lia.
  - apply Forall_forall. intros i Hi%elem_of_seq.
    unfold MAX_RETRIES in *. lia.
  - by rewrite length_seq.
  - by rewrite length_seq.
  - rewrite length_seq in *. rewrite Hr. unfold world_of, value_of.
    cbn [fst snd]. split; [done|]. by exists x, m.
Qed.

(** X3. Inside one job every sleep lasts between 10 and 300 seconds and
    all sleeps together last at most 60 + 120 + 240 + 300 + 300 = 1020
    seconds, whatever the service answers. *)
Theorem retry_wait_bounded v vt t w :
  let ev := events_of (adapt_single_vignette v vt t w) in
  Forall (fun s => 10 <= s <= MAX_RETRY_DELAY)%Z (sleeps ev)
  ∧ (total (sleeps ev) <= 1020)%Z.
Proof.
  intros ev. subst ev.
  destruct (adapt_single_vignette v vt t w) as [[r w'] ev] eqn:Ha.
  unfold Runner.adapt_single_vignette in Ha.
  apply (retry_loop_shape v vt MAX_RETRIES 0) in Ha
    as (_ & _ & _ & _ & H5 & H6 & _); [|done|unfold INITIAL_RETRY_DELAY; lia].
  split; [exact H6|exact H5].
Qed.

(** X4. HTTP 503 does not grow the back-off: after [k] answers 503, each
    followed by a sleep of 30 seconds, the loop goes on with the delay still
    at [INITIAL_RETRY_DELAY], so a 429 that follows waits 60 seconds; five
    answers 503 make the job fail after five sleeps of 30 seconds, the last
    one slept although no attempt follows. *)
Theorem service_unavailable_keeps_backoff v vt t w k :
  k <= MAX_RETRIES ->
  (∀ i, i < k -> api (calls w + i) = ApiHTTPError 503) ->
  let vid := vignette_id v in
  (adapt_single_vignette v vt t w
   = let '(r, w', ev) :=
       retry_loop v vt (seq k (MAX_RETRIES - k)) INITIAL_RETRY_DELAY
         (advance k w) in
     (r, w', unavailable_events vid vt k ++ ev))
  ∧ (k = MAX_RETRIES ->
     adapt_single_vignette v vt t w
     = (None, advance MAX_RETRIES w, unavailable_events vid vt MAX_RETRIES)
     ∧ sleeps (unavailable_events vid vt MAX_RETRIES)
       = [30; 30; 30; 30; 30]%Z)
  ∧ (k < MAX_RETRIES -> api (calls w + k) = ApiHTTPError 429 ->
     ∃ rest, sleeps (events_of (adapt_single_vignette v vt t w))
             = replicate k 30%Z ++ 60%Z :: rest).
Proof.
  intros Hk Hapi vid.
  assert (Hgen : adapt_single_vignette v vt t w
    = let '(r, w', ev) :=
        retry_loop v vt (seq k (MAX_RETRIES - k)) INITIAL_RETRY_DELAY
          (advance k w) in
      (r, w', unavailable_events vid vt k ++ ev)).
  { unfold Runner.adapt_single_vignette.
    replace (seq 0 MAX_RETRIES) with (seq 0 k ++ seq k (MAX_RETRIES - k))
      by (rewrite <- seq_app; f_equal; lia).
    rewrite retry_loop_unavailable; rewrite length_seq; done. }
  split; [exact Hgen|]. split.
  - intros ->. rewrite Hgen, Nat.sub_diag. cbn [seq Runner.retry_loop].
    unfold ret. rewrite app_nil_r. done.
  - intros Hlt H429. rewrite Hgen.
    replace (MAX_RETRIES - k) with (S (MAX_RETRIES - S k)) by lia.
    change (seq k (S (MAX_RETRIES - S k)))
      with ([k] ++ seq (S k) (MAX_RETRIES - S k)).
    rewrite retry_loop_rate_limited_prefix.
    2:{ intros i Hi. simpl in Hi. assert (i = 0) as -> by lia.
        simpl. rewrite Nat.add_0_r. exact H429. }
    destruct (retry_loop v vt (seq (S k) (MAX_RETRIES - S k)) _ _)
      as [[r w'] ev].
    unfold events_of. cbn [snd length rate_limited_events].
    rewrite sleeps_app, sleeps_unavailable. cbn [app].
    rewrite sleeps_cons_request, sleeps_cons_sleep. by eexists.
Qed.

(** X5. Only a JSON object can become a result.  A response that parses
    to anything else (a list, a string, a number, ...) ends in the general
    exception handler even when the membership test on the required fields
    passes: the attempt sleeps 15 seconds and the loop goes on, or the job
    gives up on the last attempt. *)
Theorem non_object_response_is_retried v vt attempt d w text x :
  api (calls w) = ApiText text ->
  json_loads (extract_json text) = Some x ->
  (∀ kvs, x ≠ JObj kvs) ->
  attempt_body v vt attempt d w
  = (if Nat.eqb attempt (MAX_RETRIES - 1)
     then (Return None, advance 1 w, [EvRequest (vignette_id v) vt])
     else (Continue d, advance 1 w,
           [EvRequest (vignette_id v) vt; EvSleep 15])).
Proof.
  intros Hapi Hload Hx.
  unfold Runner.attempt_body, bind, call_gemini_api. rewrite Hapi.
  unfold Runner.handle_text. rewrite Hload.
  replace (advance 1 w)
    with {| calls := S (calls w); ticks := ticks w; fs := fs w |}
    by (unfold advance; f_equal; lia).
  assert (Hexc : on_exception attempt d
             {| calls := S (calls w); ticks := ticks w; fs := fs w |}
           = (if Nat.eqb attempt (MAX_RETRIES - 1)
              then (Return None,
                    {| calls := S (calls w); ticks := ticks w; fs := fs w |},
                    [])
              else (Continue d,
                    {| calls := S (calls w); ticks := ticks w; fs := fs w |},
                    [EvSleep 15]))).
  { unfold on_exception. by destruct (Nat.eqb attempt (MAX_RETRIES - 1)). }
  destruct (all_in REQUIRED_FIELDS x) as [[|]|].
  - destruct x as [| | | | |kvs]; cbn [setitem]; try (rewrite Hexc;
      by destruct (Nat.eqb attempt (MAX_RETRIES - 1))).
    by destruct (Hx kvs).
  - rewrite Hexc. by destruct (Nat.eqb attempt (MAX_RETRIES - 1)).
  - rewrite Hexc. by destruct (Nat.eqb attempt (MAX_RETRIES - 1)).
Qed.

(** ** More on the batch loop *)

Lemma spacing_app s ev1 ev2 :
  spacing s (ev1 ++ ev2) = spacing s ev1 ≫= fun s' => spacing s' ev2.
Proof.
  clear json_loads api clock.
  revert s. induction ev1 as [|e ev1 IH]; intros s; [done|].
  destruct e; simpl; try apply IH. destruct s; [apply IH|done].
Qed.

Lemma total_app xs ys : total (xs ++ ys) = (total xs + total ys)%Z.
Proof.
  clear json_loads api clock.
  unfold total. induction xs as [|x xs IH]; simpl; lia.
Qed.

Lemma same_elsewhere_refl b f : same_elsewhere b f f.
Proof. by repeat split. Qed.

Lemma same_elsewhere_trans b f1 f2 f3 :
  same_elsewhere b f1 f2 -> same_elsewhere b f2 f3 -> same_elsewhere b f1 f3.
Proof.
  clear json_loads api clock.
  intros (A1 & A2 & A3 & A4) (B1 & B2 & B3 & B4).
  repeat split; try congruence; intros;
    destruct (A4 b') as (? & ? & ?); auto;
    destruct (B4 b') as (? & ? & ?); auto; congruence.
Qed.

Lemma same_elsewhere_commit b f p : same_elsewhere b f (fs_commit f b p).
Proof.
  clear json_loads api clock.
  repeat split; auto; simpl; by rewrite lookup_insert_ne.
Qed.

Lemma same_elsewhere_log b f l : same_elsewhere b f (fs_with_log f b l).
Proof.
  clear json_loads api clock.
  repeat split; auto; simpl; by rewrite lookup_insert_ne.
Qed.

(** What the events of one call of [adapt_single_vignette] look like. *)
Lemma adapt_shape v vt t w r w' ev :
  adapt_single_vignette v vt t w = (r, w', ev) ->
  fs w' = fs w
  ∧ 1 <= length (requests ev) <= MAX_RETRIES
  ∧ (total (sleeps ev) <= 1020)%Z
  ∧ (∃ b, spacing true ev = Some b)
  ∧ attempted ev = []
  ∧ snapshots ev = []
  ∧ Forall (fun q => q = (vignette_id v, vt)) (requests ev).
Proof.
  intros Ha. pose proof Ha as Hs.
  apply adapt_single_vignette_spec in Hs as (Hfs & Hbound & Hev & _).
  apply retry_events_quiet in Hev as (_ & _ & Q3 & Q4 & _ & Q6).
  unfold Runner.adapt_single_vignette in Ha.
  apply (retry_loop_shape v vt MAX_RETRIES 0) in Ha
    as (H1 & H2 & H3 & _ & H5 & _ & H7);
    [|done|unfold INITIAL_RETRY_DELAY; lia].
  assert (calls w < calls w') by (apply H3; unfold MAX_RETRIES; lia).
  repeat split; auto; lia.
Qed.

Lemma same_elsewhere_truncated b f : same_elsewhere b f (fs_truncated f b).
Proof.
  clear json_loads api clock.
  repeat split; auto; simpl; by rewrite lookup_insert_ne.
Qed.

Lemma same_elsewhere_log_truncated b f :
  same_elsewhere b f (fs_log_truncated f b).
Proof.
  clear json_loads api clock.
  repeat split; auto; simpl; by rewrite lookup_insert_ne.
Qed.

Lemma written_log_none ev :
  Forall (fun e => ∀ b l, e ≠ EvWriteLog b l) ev -> written_log ev = None.
Proof.
  clear json_loads api clock.
  intros H. unfold written_log.
  destruct ev as [|e ev] using rev_ind; [done|].
  rewrite last_last. apply Forall_app in H as [_ H].
  apply Forall_cons in H as [H _]. destruct e; try done.
  exfalso. by eapply H.
Qed.

Lemma retry_events_no_log vid vt inner :
  Forall (retry_event vid vt) inner ->
  Forall (fun e => ∀ b l, e ≠ EvWriteLog b l) inner.
Proof.
  clear json_loads api clock.
  intros H. eapply Forall_impl; [exact H|].
  intros e [->|(s & -> & _)] b l; done.
Qed.

Lemma started_job_events k c tot inner tail b0 :
  attempted inner = [] -> snapshots inner = [] ->
  spacing true inner = Some b0 ->
  attempted tail = [] -> requests tail = [] ->
  let ev := EvJobStart k c tot :: inner ++ tail in
  attempted ev = [k]
  ∧ requests ev = requests inner
  ∧ sleeps ev = sleeps inner ++ sleeps tail
  ∧ snapshots ev = snapshots tail
  ∧ spacing true ev = spacing b0 tail.
Proof.
  clear json_loads api clock.
  intros A1 A2 A3 T1 T2 ev. subst ev.
  change (attempted (EvJobStart k c tot :: ?l)) with (k :: attempted l).
  change (requests (EvJobStart k c tot :: ?l)) with (requests l).
  change (sleeps (EvJobStart k c tot :: ?l)) with (sleeps l).
  change (snapshots (EvJobStart k c tot :: ?l)) with (snapshots l).
  change (spacing true (EvJobStart k c tot :: ?l)) with (spacing true l).
  rewrite !attempted_app, !requests_app, !sleeps_app, !snapshots_app.
  rewrite A1, A2, T1, T2. simpl. rewrite !app_nil_r.
  repeat split; auto.
  by rewrite spacing_app, A3.
Qed.

(** The three ways a started job ends: committed, commit raised, failed. *)
Lemma job_body_ends b tot j st w o w' ev :
  job_body b tot j.1 j.2 st w = (o, w', ev) ->
  job_key j ∉ completed st ->
  ∃ inner tail b0,
    ev = EvJobStart (job_key j) (Z.of_nat (size (completed st)) + 1) tot
           :: inner ++ tail
    ∧ Forall (retry_event (vignette_id j.1) j.2.1) inner
    ∧ 1 <= length (requests inner) <= MAX_RETRIES
    ∧ (total (sleeps inner) <= 1020)%Z
    ∧ spacing true inner = Some b0
    ∧ attempted inner = [] ∧ snapshots inner = []
    ∧ Forall (fun q => q = (vignette_id j.1, j.2.1)) (requests inner)
    ∧ ((∃ r p, o = Normal (st_commit st (job_key j) r)
               ∧ fs w' = fs_commit (fs w) b p
               ∧ tail = [EvMkdir; EvWriteProgress b p;
                         EvWriteOutput b (adaptations st ++ [r]);
                         EvJobOk; EvSleep DELAY_BETWEEN_REQUESTS])
       ∨ (∃ r, o = Raised UnicodeEncodeError (st_commit st (job_key j) r)
               ∧ fs w' = fs_truncated (fs w) b
               ∧ tail = [EvMkdir])
       ∨ (o = Normal (st_fail st (job_key j)) ∧ fs w' = fs w
          ∧ tail = [EvJobFailed; EvSleep DELAY_BETWEEN_REQUESTS])).
Proof.
  intros H Hk.
  apply job_body_inv in H
    as [(Hin & _)|(_ & res & w1 & inner & tail & Ha & Hin & -> & Hres)];
    [done|].
  apply adapt_shape in Ha as (_ & Hreq & Htot & [b0 Hsp] & Hatt & Hsnap & Hq).
  exists inner, tail, b0. do 8 (split; [done|]).
  destruct res as [r|].
  - cbv zeta in Hres. destruct Hres as (_ & _ & _ & Hres).
    match type of Hres with context [progress_encodes ?q] => set (p := q) in *
    end.
    destruct (progress_encodes p).
    + left. exists r, p. done.
    + right. left. exists r. done.
  - right. right. destruct Hres as (-> & _ & ? & _ & ->). done.
Qed.

(** What the loop over a list of jobs keeps, from the local state [st] and
    the world [w] it starts in. *)
Lemma run_jobs_account b tot jobs st w o w' ev :
  run_jobs b tot jobs st w = (o, w', ev) ->
  same_elsewhere b (fs w) (fs w')
  ∧ (is_normal o = true -> snapshots ev = [] -> fs w' = fs w)
  ∧ (∃ s, spacing true ev = Some s ∧ (is_normal o = true -> s = true))
  ∧ Forall (fun e => ∀ b' l, e ≠ EvWriteLog b' l) ev
  ∧ length (attempted ev) <= length (requests ev)
    <= MAX_RETRIES * length (attempted ev)
  ∧ (total (sleeps ev) <= 1028 * Z.of_nat (length (attempted ev)))%Z
  ∧ Forall (fun q => ∃ j, j ∈ jobs ∧ q = (vignette_id j.1, j.2.1))
      (requests ev)
  ∧ completed st ⊆ completed (state_of o)
  ∧ ∃ F, failed (state_of o) = failed st ++ F
         ∧ length (attempted ev)
           = length (snapshots ev) + length F
             + (if is_normal o then 0 else 1)
         ∧ F `sublist_of` attempted ev
         ∧ ∀ k, k ∈ attempted ev
                ↔ k ∈ F ∨ (k ∈ completed (state_of o) ∧ k ∉ completed st).
Proof.
  intros Hrun.
  pose (R := fun (o1 : outcome locals) (w1 : world) (e : list event) =>
    same_elsewhere b (fs w) (fs w1)
    ∧ (is_normal o1 = true -> snapshots e = [] -> fs w1 = fs w)
    ∧ (∃ s, spacing true e = Some s ∧ (is_normal o1 = true -> s = true))
    ∧ Forall (fun e => ∀ b' l, e ≠ EvWriteLog b' l) e
    ∧ length (attempted e) <= length (requests e)
      <= MAX_RETRIES * length (attempted e)
    ∧ (total (sleeps e) <= 1028 * Z.of_nat (length (attempted e)))%Z
    ∧ Forall (fun q => ∃ j, j ∈ jobs ∧ q = (vignette_id j.1, j.2.1))
        (requests e)
    ∧ completed st ⊆ completed (state_of o1)
    ∧ ∃ F, failed (state_of o1) = failed st ++ F
           ∧ length (attempted e)
             = length (snapshots e) + length F
               + (if is_normal o1 then 0 else 1)
           ∧ F `sublist_of` attempted e
           ∧ ∀ k, k ∈ attempted e
                  ↔ k ∈ F
                    ∨ (k ∈ completed (state_of o1) ∧ k ∉ completed st)).
  apply (for_each_try_rule _ R) in Hrun; [exact Hrun| |].
  { unfold R. cbn [state_of is_normal].
    split; [apply same_elsewhere_refl|]. split; [done|].
    split; [by exists true|]. split; [constructor|].
    split; [simpl; lia|]. split; [simpl; lia|].
    split; [constructor|]. split; [done|]. exists [].
    rewrite app_nil_r. split; [done|]. split; [done|]. split; [done|].
    intros k. split.
    - intros Hk. by apply elem_of_nil in Hk.
    - intros [Hk|[? ?]]; [by apply elem_of_nil in Hk|done]. }
  clear Hrun. intros j s1 w1 ev1 o2 w2 ev2 Hj
    (I1 & I2 & (s & I3 & I3') & IL & I4 & I5 & I6 & I7 & F & I8 & I9 & I10
     & I11) Hb.
  cbn [state_of is_normal] in *. rewrite (I3' eq_refl) in I3. clear I3' s.
  specialize (I2 eq_refl).
  destruct (decide (job_key j ∈ completed s1)) as [Hk|Hk].
  { destruct j as [v [vt t]]. unfold job_key in Hk. cbn [fst snd] in *.
    rewrite job_body_skip in Hb by done. simplify_eq.
    rewrite app_nil_r. unfold R. cbn [state_of is_normal].
    split; [done|]. split; [done|]. split; [by exists true|].
    do 5 (split; [done|]). by exists F. }
  apply job_body_ends in Hb
    as (inner & tail & b0 & -> & Hin & Hreq & Htot & Hsp & Hatt & Hsnap & Hq
        & Hend); [|done].
  assert (T12 : attempted tail = [] ∧ requests tail = []).
  { destruct Hend as [(r & p & _ & _ & ->)|[(r & _ & _ & ->)|(_ & _ & ->)]];
      done. }
  destruct T12 as [T1 T2].
  destruct (started_job_events (job_key j)
              (Z.of_nat (size (completed s1)) + 1) tot inner tail b0
              Hatt Hsnap Hsp T1 T2) as (E1 & E2 & E3 & E4 & E5).
  assert (HL : Forall (fun e => ∀ b' l, e ≠ EvWriteLog b' l)
                 (EvJobStart (job_key j)
                    (Z.of_nat (size (completed s1)) + 1) tot
                  :: inner ++ tail)).
  { apply Forall_cons. split; [done|]. apply Forall_app. split.
    - by eapply retry_events_no_log.
    - destruct Hend as [(r & p & _ & _ & ->)|[(r & _ & _ & ->)|(_ & _ & ->)]];
        repeat (apply Forall_cons; split; [done|]); constructor. }
  assert (HQ : Forall (fun q => ∃ j, j ∈ jobs ∧ q = (vignette_id j.1, j.2.1))
                 (requests ev1 ++ requests inner)).
  { apply Forall_app. split; [done|].
    eapply Forall_impl; [exact Hq|]. intros q ->. by exists j. }
  unfold R.
  rewrite attempted_app, requests_app, sleeps_app, snapshots_app, spacing_app,
    I3. cbn [mbind option_bind].
  rewrite total_app, !length_app, E1, E2, E3, E4, E5, total_app.
  destruct Hend as [(r & p & -> & Hfs & ->)|[(r & -> & Hfs & ->)
                                            |(-> & Hfs & ->)]];
    cbn [state_of is_normal].
  - split; [rewrite Hfs; eapply same_elsewhere_trans;
            [exact I1|apply same_elsewhere_commit]|].
    split.
    { intros _ [_ H2]%app_eq_nil. done. }
    split; [exists true; split; [cbn; by destruct b0|done]|].
    split; [by apply Forall_app|].
    split; [simpl; unfold MAX_RETRIES in *; lia|]. split.
    { simpl. unfold DELAY_BETWEEN_REQUESTS. lia. }
    split; [done|]. split; [cbn [st_commit completed]; set_solver|].
    exists F. split; [done|]. split.
    { change (snapshots [EvMkdir; EvWriteProgress b p;
                          EvWriteOutput b (adaptations s1 ++ [r]); EvJobOk;
                          EvSleep DELAY_BETWEEN_REQUESTS])
        with [(p_completed p, p_adaptations p)]. simpl. lia. }
    split; [by apply sublist_inserts_r|].
    intros k. rewrite elem_of_app, I11, list_elem_of_singleton.
    cbn [st_commit completed]. set_solver.
  - split; [rewrite Hfs; eapply same_elsewhere_trans;
            [exact I1|apply same_elsewhere_truncated]|].
    split; [done|]. split; [by exists b0|]. split; [by apply Forall_app|].
    split; [simpl; unfold MAX_RETRIES in *; lia|]. split.
    { simpl. lia. }
    split; [done|]. split; [cbn [st_commit completed]; set_solver|].
    exists F. split; [done|]. split; [simpl; lia|].
    split; [by apply sublist_inserts_r|].
    intros k. rewrite elem_of_app, I11, list_elem_of_singleton.
    cbn [st_commit completed]. set_solver.
  - split; [rewrite Hfs; done|].
    split.
    { intros _ [H1 _]%app_eq_nil. rewrite Hfs. by apply I2. }
    split; [exists true; split; [cbn; by destruct b0|done]|].
    split; [by apply Forall_app|].
    split; [simpl; unfold MAX_RETRIES in *; lia|]. split.
    { simpl. unfold DELAY_BETWEEN_REQUESTS. lia. }
    split; [done|]. split; [done|].
    exists (F ++ [job_key j]). cbn [st_fail failed completed].
    split; [by rewrite I8, app_assoc|]. split.
    { rewrite length_app. simpl. lia. }
    split; [by apply sublist_app|].
    intros k. rewrite !elem_of_app, I11, list_elem_of_singleton. set_solver.
Qed.

(** The facts about a batch run that the further properties share. *)
Lemma run_batch_account templates b range items w x w' ev :
  run_batch templates b range items w = (x, w', ev) ->
  let lw := List.last (snapshots ev) (stored (fs w) b) in
  same_elsewhere b (fs w) (fs w')
  ∧ (∃ s, spacing true ev = Some s
          ∧ (x ≠ Uncaught UnicodeEncodeError -> s = true))
  ∧ length (attempted ev) <= length (requests ev)
    <= MAX_RETRIES * length (attempted ev)
  ∧ length (attempted ev) <= length items * length templates
  ∧ (total (sleeps ev) <= 1028 * Z.of_nat (length (attempted ev)))%Z
  ∧ Forall (fun q => ∃ v t, v ∈ items ∧ t ∈ templates
                            ∧ q = (vignette_id v, t.1)) (requests ev)
  ∧ (synced b (fs w) -> synced b (fs w'))
  ∧ (snapshots ev ≠ [] -> output_file (fs w') !! b = Some lw.2)
  ∧ (snapshots ev = [] -> output_file (fs w') = output_file (fs w))
  ∧ (loadable (fs w') b -> stored (fs w') b = lw)
  ∧ match x with
    | Returned =>
        (ev = [] ∧ w' = w)
        ∨ ∃ l, written_log ev = Some l
               ∧ l_total l = length (stored (fs w') b).2
               ∧ log_file (fs w') !! b = Some (Intact l)
               ∧ l_failed l `sublist_of` attempted ev
               ∧ length (attempted ev)
                 = length (snapshots ev) + length (l_failed l)
               ∧ ∀ k, k ∈ attempted ev
                      ↔ k ∈ l_failed l
                        ∨ (k ∈ (stored (fs w') b).1
                           ∧ k ∉ (stored (fs w) b).1)
    | Uncaught JSONDecodeError =>
        ev = [] ∧ w' = w ∧ progress_file (fs w) !! b = Some Truncated
    | Uncaught UnicodeEncodeError =>
        written_log ev = None
        ∧ (progress_file (fs w') !! b = Some Truncated
           ∨ log_file (fs w') !! b = Some Truncated)
    | SysExit _ => False
    end.
Proof.
  intros Hr lw. subst lw.
  destruct (loadable_cases (fs w) b) as [Hl|Ht].
  2:{ rewrite run_batch_truncated in Hr by done. simplify_eq.
      split; [apply same_elsewhere_refl|]. split; [by exists true|].
      do 3 (split; [simpl; lia|]). split; [constructor|].
      do 3 (split; [done|]). split; [|done].
      intros H. by destruct H. }
  rewrite run_batch_unfold in Hr by done. cbv zeta in Hr.
  destruct (_ =? 0)%Z.
  { simplify_eq. split; [apply same_elsewhere_refl|].
    split; [by exists true|]. do 3 (split; [simpl; lia|]).
    split; [constructor|]. do 4 (split; [done|]). by left. }
  destruct (run_jobs b _ _ _ w) as [[o w1] ev1] eqn:Hrun.
  pose proof Hrun as Hacc. apply run_jobs_account in Hacc
    as (A1 & A2 & (s & A3 & A3') & AL & A4 & A5 & A6 & A7 & F & A8 & A9 & A10
        & A11).
  pose proof Hrun as Hres. apply run_jobs_resume in Hres
    as (pre & suf & Hjobs & _ & _ & _ & R3 & _).
  apply run_jobs_chain in Hrun as (_ & _ & _ & S1 & S3 & S4);
    [|apply initial_in_sync].
  assert (Hlen : length (attempted ev1) <= length items * length templates).
  { apply sublist_length in R3. rewrite length_map in R3.
    pose proof (enumerate_jobs_length templates items) as Hn.
    rewrite Hjobs, length_app in Hn. lia. }
  assert (Hreq : Forall (fun q => ∃ v t, v ∈ items ∧ t ∈ templates
                                         ∧ q = (vignette_id v, t.1))
                   (requests ev1)).
  { eapply Forall_impl; [exact A6|]. intros q ([v t] & Hj & ->).
    unfold enumerate_jobs in Hj. apply list_elem_of_In, in_flat_map in Hj
      as (v' & Hv & Hj). apply in_map_iff in Hj as (t' & Ht & Ht').
    simplify_eq. exists v, t. cbn [fst snd].
    by rewrite !list_elem_of_In. }
  destruct o as [st|e st]; cbn [state_of is_normal] in *.
  - destruct S1 as (S1 & [S5 S6] & _ & S7).
    set (l := {| l_batch := b; l_completed := clock (ticks w1);
                 l_total := length (adaptations st); l_failed := failed st;
                 l_vignette_range := (range.1 + 1, range.2);
                 l_variants := map fst templates |}) in *.
    assert (Hsync : synced b (fs w) -> synced b (fs w1)).
    { unfold synced.
      destruct (snapshots ev1) as [|sn sns] eqn:Esn.
      - by rewrite (A2 eq_refl eq_refl).
      - intros _.
        destruct (progress_file (fs w1) !! b) as [[p|]|] eqn:Ep; [|done..].
        rewrite S3 by done. rewrite <- S1. unfold stored. by rewrite Ep. }
    destruct (log_encodes l); simplify_eq; cbn [fs].
    + assert (Hst : stored (fs_with_log (fs w1) b l) b = stored (fs w1) b)
        by done.
      rewrite attempted_app, requests_app, sleeps_app, snapshots_app,
        spacing_app, A3.
      change (attempted [EvWriteLog b l]) with (@nil pystr).
      change (requests [EvWriteLog b l]) with (@nil (pystr * pystr)).
      change (sleeps [EvWriteLog b l]) with (@nil Z).
      change (snapshots [EvWriteLog b l])
        with (@nil (list pystr * list json)).
      rewrite !app_nil_r.
      split; [eapply same_elsewhere_trans;
              [exact A1|apply same_elsewhere_log]|].
      split; [exists s; split; [done|intros _; by apply A3']|].
      do 4 (split; [done|]).
      split; [exact Hsync|]. split; [exact S3|]. split; [exact S4|].
      split; [done|]. right. exists l.
      split; [unfold written_log; by rewrite last_last|].
      rewrite Hst. cbn [l_total l_failed l]. rewrite S6.
      split; [done|]. split.
      { cbn [fs_with_log log_file]. by rewrite lookup_insert_eq. }
      assert (HF : failed st = F) by (rewrite A8; done). rewrite HF.
      split; [done|]. split; [lia|].
      intros k. rewrite A11, <- !(elem_of_list_to_set (C:=gset pystr)), <- S5.
      done.
    + split; [eapply same_elsewhere_trans;
              [exact A1|apply same_elsewhere_log_truncated]|].
      split; [exists s; split; [done|intros _; by apply A3']|].
      do 4 (split; [done|]).
      split; [exact Hsync|]. split; [exact S3|]. split; [exact S4|].
      split; [done|].
      split; [by apply written_log_none|]. right.
      cbn [fs_log_truncated log_file]. by rewrite lookup_insert_eq.
  - destruct S1 as (-> & St & _). simplify_eq.
    split; [done|]. split; [by exists s|]. do 4 (split; [done|]).
    split; [unfold synced; by rewrite St|].
    split; [exact S3|]. split; [exact S4|].
    split; [intros H; by destruct H|].
    split; [by apply written_log_none|]. by left.
Qed.

(** X6. A batch run touches only its own files: the input, the merged
    output, the merge log and the progress, output and log files of every
    other batch are left as they were; and every request it sends is for a
    vignette of the batch and one of the templates. *)
Theorem batch_run_touches_only_its_files :
  (∀ templates b range items w,
     let res := run_batch templates b range items w in
     same_elsewhere b (fs w) (fs (world_of res))
     ∧ Forall (fun q => ∃ v t, v ∈ items ∧ t ∈ templates
                               ∧ q = (vignette_id v, t.1))
         (requests (events_of res)))
  ∧ (∀ b w,
       same_elsewhere b (fs w) (fs (world_of (process_batch b w)))).
Proof.
  split.
  - intros templates b range items w res. subst res.
    destruct (run_batch templates b range items w) as [[x w'] ev] eqn:Hr.
    apply run_batch_account in Hr as (H1 & _ & _ & _ & _ & H6 & _). done.
  - intros b w. rewrite process_batch_unfold.
    destruct (config_lookup b BATCH_CONFIG) as [[s e]|];
      [|apply same_elsewhere_refl].
    destruct (run_batch _ b (s, e) _ w) as [[x w'] ev] eqn:Hr.
    apply run_batch_account in Hr as (H1 & _). done.
Qed.

(** X7. No started job of a run that returns is lost.  A run returns
    either without having done anything, or after writing its log; then
    every job it started was either committed (its key is new in the
    progress record) or is listed in the log's [failed] list, in the order
    the jobs were started; the number of started jobs is the number of
    commits plus the number of failures, and the log's [total] is the
    number of results on file.  A run that ends with an exception writes no
    log: with [JSONDecodeError] it found the progress file truncated and
    did nothing; with [UnicodeEncodeError] it leaves the progress file or
    the log file truncated. *)
Theorem every_started_job_is_accounted templates b range items w :
  let res := run_batch templates b range items w in
  let ev := events_of res in
  let before := stored (fs w) b in
  let after := stored (fs (world_of res)) b in
  match value_of res with
  | Returned =>
      (ev = [] ∧ world_of res = w)
      ∨ ∃ l, written_log ev = Some l
             ∧ l_total l = length after.2
             ∧ log_file (fs (world_of res)) !! b = Some (Intact l)
             ∧ l_failed l `sublist_of` attempted ev
             ∧ length (attempted ev)
               = length (snapshots ev) + length (l_failed l)
             ∧ ∀ k, k ∈ attempted ev
                    ↔ k ∈ l_failed l ∨ (k ∈ after.1 ∧ k ∉ before.1)
  | Uncaught JSONDecodeError =>
      ev = [] ∧ world_of res = w
      ∧ progress_file (fs w) !! b = Some Truncated
  | Uncaught UnicodeEncodeError =>
      written_log ev = None
      ∧ (progress_file (fs (world_of res)) !! b = Some Truncated
         ∨ log_file (fs (world_of res)) !! b = Some Truncated)
  | SysExit _ => False
  end.
Proof.
  intros res ev before after. subst res ev before after.
  destruct (run_batch templates b range items w) as [[x w'] ev] eqn:Hr.
  apply run_batch_account in Hr
    as (_ & _ & _ & _ & _ & _ & _ & _ & _ & _ & H).
  exact H.
Qed.

(** X8. The output file of a batch stays in step with its progress file.
    If it held the results of the progress file before a run, then after
    the run it holds the results of the progress file whenever that file
    holds a record.  Once a run has committed anything, the output file
    holds the results of the last record the run wrote, also when a later
    commit raised and left the progress file truncated; and a run that
    committed nothing leaves the output file as it was. *)
Theorem output_stays_in_sync templates b range items w :
  let res := run_batch templates b range items w in
  let ev := events_of res in
  (synced b (fs w) -> synced b (fs (world_of res)))
  ∧ (snapshots ev ≠ [] ->
     output_file (fs (world_of res)) !! b
     = Some (List.last (snapshots ev) (stored (fs w) b)).2)
  ∧ (snapshots ev ≠ [] -> loadable (fs (world_of res)) b ->
     output_file (fs (world_of res)) !! b
     = Some (stored (fs (world_of res)) b).2)
  ∧ (snapshots ev = [] ->
     output_file (fs (world_of res)) = output_file (fs w)).
Proof.
  intros res ev. subst res ev.
  destruct (run_batch templates b range items w) as [[x w'] ev] eqn:Hr.
  apply run_batch_account in Hr
    as (_ & _ & _ & _ & _ & _ & H7 & H8 & H9 & H10 & _).
  unfold world_of, events_of. cbn [fst snd].
  split; [done|]. split; [done|]. split; [|done].
  intros Hs Hl. rewrite (H10 Hl). by apply H8.
Qed.

(** X9. The request and time budget of a batch run: at least one and at
    most [MAX_RETRIES] requests per started job, so at most
    [MAX_RETRIES * N * M] requests for [N] vignettes and [M] templates; and
    at most 1028 seconds slept per started job (1020 in retries, 8 after
    the job). *)
Theorem request_budget templates b range items w :
  let ev := events_of (run_batch templates b range items w) in
  length (attempted ev) <= length (requests ev)
  ∧ length (requests ev) <= MAX_RETRIES * length (attempted ev)
  ∧ length (requests ev) <= MAX_RETRIES * (length items * length templates)
  ∧ (total (sleeps ev) <= 1028 * Z.of_nat (length (attempted ev)))%Z.
Proof.
  intros ev. subst ev.
  destruct (run_batch templates b range items w) as [[x w'] ev] eqn:Hr.
  apply run_batch_account in Hr as (_ & _ & H3 & H4 & H5 & _).
  unfold events_of. cbn [snd]. unfold MAX_RETRIES in *.
  repeat split; try lia; nia.
Qed.

(** X10. Requests are spaced: in the trace of a batch run, between any two
    requests there is a single sleep of at least [DELAY_BETWEEN_REQUESTS]
    seconds.  A run that does not end with [UnicodeEncodeError] ends with
    such a sleep behind its last request, so a run that follows it is
    spaced from it as well; a run whose commit raised ends without that
    sleep. *)
Theorem requests_are_spaced :
  (∀ templates b range items w,
     let res := run_batch templates b range items w in
     ∃ s, spacing true (events_of res) = Some s
          ∧ (value_of res ≠ Uncaught UnicodeEncodeError -> s = true))
  ∧ (∀ b w,
       let res := process_batch b w in
       ∃ s, spacing true (events_of res) = Some s
            ∧ (value_of res ≠ Uncaught UnicodeEncodeError -> s = true))
  ∧ (∀ b1 b2 w,
       let r1 := process_batch b1 w in
       let r2 := process_batch b2 (world_of r1) in
       value_of r1 ≠ Uncaught UnicodeEncodeError ->
       ∃ s, spacing true (events_of r1 ++ events_of r2) = Some s
            ∧ (value_of r2 ≠ Uncaught UnicodeEncodeError -> s = true)).
Proof.
  assert (H1 : ∀ templates b range items w,
     let res := run_batch templates b range items w in
     ∃ s, spacing true (events_of res) = Some s
          ∧ (value_of res ≠ Uncaught UnicodeEncodeError -> s = true)).
  { intros templates b range items w res. subst res.
    destruct (run_batch templates b range items w) as [[x w'] ev] eqn:Hr.
    apply run_batch_account in Hr as (_ & H2 & _). done. }
  assert (H2 : ∀ b w,
     let res := process_batch b w in
     ∃ s, spacing true (events_of res) = Some s
          ∧ (value_of res ≠ Uncaught UnicodeEncodeError -> s = true)).
  { intros b w res. subst res. rewrite process_batch_unfold.
    destruct (config_lookup b BATCH_CONFIG) as [[s e]|]; [apply H1|].
    by exists true. }
  split; [exact H1|]. split; [exact H2|].
  intros b1 b2 w r1 r2 Hx. subst r1 r2.
  destruct (H2 b1 w) as (s1 & E1 & F1). rewrite spacing_app, E1.
  rewrite (F1 Hx). simpl. apply H2.
Qed.

(** ** Job keys *)

Lemma join_key_inj_l vid vt1 vt2 :
  join_key vid vt1 = join_key vid vt2 -> vt1 = vt2.
Proof.
  clear json_loads api clock.
  unfold join_key. intros H%app_inv_head. by apply app_inv_head in H.
Qed.

Lemma template_key_inj vid1 vid2 vt1 vt2 :
  vt1 ∈ map fst DEMOGRAPHIC_TEMPLATES ->
  vt2 ∈ map fst DEMOGRAPHIC_TEMPLATES ->
  join_key vid1 vt1 = join_key vid2 vt2 ->
  vid1 = vid2 ∧ vt1 = vt2.
Proof.
  clear json_loads api clock.
  intros H1 H2 H.
    assert (Hrev : rev vt1 ++ rev underscore ++ rev vid1
                   = rev vt2 ++ rev underscore ++ rev vid2).
    { apply (f_equal (@rev N)) in H. unfold join_key in H.
      by rewrite !rev_app_distr, <- !app_assoc in H. }
    clear H. vm_compute in H1, H2.
    assert (Hvid : rev vid1 = rev vid2 -> vid1 = vid2).
    { intros E. apply (f_equal (@rev N)) in E.
      by rewrite !rev_involutive in E. }
    repeat (apply elem_of_cons in H1 as [->|H1]);
      try (by apply elem_of_nil in H1);
      repeat (apply elem_of_cons in H2 as [->|H2]);
      try (by apply elem_of_nil in H2);
      simpl in Hrev; simplify_eq; auto.
Qed.

Lemma enumerate_keys_NoDup items :
  NoDup (map vignette_id items) ->
  NoDup (map job_key (enumerate_jobs DEMOGRAPHIC_TEMPLATES items)).
Proof.
  clear json_loads api clock.
  pose proof template_key_inj as Hinj.
  intros Hnd. unfold enumerate_jobs.
  induction items as [|v items IH]; [constructor|].
  change (map vignette_id (v :: items))
    with (vignette_id v :: map vignette_id items) in Hnd.
  apply NoDup_cons in Hnd as [Hv Hnd].
  change (flat_map (fun v0 => map (pair v0) DEMOGRAPHIC_TEMPLATES)
            (v :: items))
    with (map (pair v) DEMOGRAPHIC_TEMPLATES
          ++ flat_map (fun v0 => map (pair v0) DEMOGRAPHIC_TEMPLATES) items).
  rewrite map_app. apply NoDup_app. split; [|split].
  - rewrite map_map.
    change (map (fun x => job_key (v, x)) DEMOGRAPHIC_TEMPLATES)
      with (map (fun x : pystr * template => join_key (vignette_id v) x.1)
              DEMOGRAPHIC_TEMPLATES).
    rewrite <- (map_map fst (join_key (vignette_id v))).
    apply NoDup_fmap_2_strong.
    + intros x y _ _ E. by eapply join_key_inj_l.
    + by_compute.
  - intros k Hk1 Hk2.
    apply list_elem_of_In, in_map_iff in Hk1 as ([v1 t1] & <- & Hj1).
    apply in_map_iff in Hj1 as (t1' & E1 & Ht1). simplify_eq.
    apply list_elem_of_In, in_map_iff in Hk2 as ([v2 t2] & E2 & Hj2).
    apply in_flat_map in Hj2 as (v2' & Hv2 & Hj2).
    apply in_map_iff in Hj2 as (t2' & E3 & Ht2). simplify_eq.
    unfold job_key in E2. cbn [fst snd] in E2.
    apply Hinj in E2 as [E2 _].
    + apply Hv. rewrite <- E2. apply list_elem_of_In, in_map, Hv2.
    + apply list_elem_of_In, in_map, Ht2.
    + apply list_elem_of_In, in_map, Ht1.
  - by apply IH.
Qed.

(** X11. Job keys do not collide.  Although a key is the plain
    concatenation of the vignette id, an underscore and the variant name,
    and the variant names contain underscores themselves, two jobs over the
    six templates of the script have the same key only if they have the
    same vignette id and the same variant; so a batch of vignettes with
    distinct ids has pairwise distinct job keys. *)
Theorem job_keys_do_not_collide :
  (∀ vid1 vid2 vt1 vt2,
     vt1 ∈ map fst DEMOGRAPHIC_TEMPLATES ->
     vt2 ∈ map fst DEMOGRAPHIC_TEMPLATES ->
     join_key vid1 vt1 = join_key vid2 vt2 ->
     vid1 = vid2 ∧ vt1 = vt2)
  ∧ (∀ items,
       NoDup (map vignette_id items) ->
       NoDup (map job_key (enumerate_jobs DEMOGRAPHIC_TEMPLATES items))).
Proof. split; [apply template_key_inj|apply enumerate_keys_NoDup]. Qed.

(** ** Whole batches *)

Lemma config_lookup_range b s e :
  config_lookup b BATCH_CONFIG = Some (s, e) -> s <= e <= 50.
Proof.
  clear json_loads api clock.
  unfold BATCH_CONFIG. cbn [config_lookup].
  repeat (destruct (_ =? b)%Z; [intros ?; simplify_eq; lia|]). done.
Qed.

Lemma process_batch_as_run b s e w :
  config_lookup b BATCH_CONFIG = Some (s, e) ->
  process_batch b w
  = run_batch DEMOGRAPHIC_TEMPLATES b (s, e)
      (batch_slice (b, (s, e)) (input_file (fs w))) w.
Proof. intros H. rewrite process_batch_unfold, H. done. Qed.

Lemma filter_not_in_empty
    `{!∀ k : pystr, Decision (k ∉ (∅ : gset pystr))} (l : list pystr) :
  filter (fun k => k ∉ (∅ : gset pystr)) l = l.
Proof.
  clear json_loads api clock.
  induction l as [|k l IH]; [done|].
  rewrite filter_cons_True by set_solver. by rewrite IH.
Qed.

Lemma template_names_encode :
  forallb (fun t : pystr * template => encodes t.1) DEMOGRAPHIC_TEMPLATES
  = true.
Proof. clear json_loads api clock. vm_compute. reflexivity. Qed.

Lemma enumerate_jobs_clean items :
  Forall (fun v => clean_vignette v = true) items ->
  Forall (fun j : vignette * (pystr * template) =>
            clean_vignette j.1 = true ∧ encodes j.2.1 = true)
    (enumerate_jobs DEMOGRAPHIC_TEMPLATES items).
Proof.
  clear json_loads api clock.
  intros H. apply Forall_forall. intros [v t] Hj.
  unfold enumerate_jobs in Hj. apply list_elem_of_In, in_flat_map in Hj
    as (v' & Hv & Hj). apply in_map_iff in Hj as (t' & Ht & Ht').
  simplify_eq. cbn [fst snd]. split.
  - rewrite Forall_forall in H. by apply H, list_elem_of_In.
  - pose proof template_names_encode as Hn. rewrite forallb_forall in Hn.
    by apply (Hn t).
Qed.

(** X12. A batch that runs to the end is not run again.  From a store with
    no progress file for the batch, vignettes with distinct ids, a service
    that does not fail, and ids, categories, answers and time stamps that
    can be encoded, [process_batch] returns after it started every job of
    the batch in enumeration order, and leaves a progress record holding
    exactly the keys of all jobs and six results per vignette; calling
    [process_batch] again on what it left returns at once: no request, no
    write, not even a new log. *)
Theorem complete_run_then_noop b s e w :
  config_lookup b BATCH_CONFIG = Some (s, e) ->
  let items := batch_slice (b, (s, e)) (input_file (fs w)) in
  let keys := map job_key (enumerate_jobs DEMOGRAPHIC_TEMPLATES items) in
  NoDup (map vignette_id items) ->
  progress_file (fs w) !! b = None ->
  (∀ n, good_response n) ->
  clean_service ->
  Forall (fun v => clean_vignette v = true) items ->
  let r1 := process_batch b w in
  value_of r1 = Returned
  ∧ attempted (events_of r1) = keys
  ∧ (stored (fs (world_of r1)) b).1 ≡ₚ keys
  ∧ length (stored (fs (world_of r1)) b).2 = length items * 6
  ∧ process_batch b (world_of r1) = (Returned, world_of r1, []).
Proof.
  intros Hcfg items keys Hnd Hnone Hgood Hsvc Hitems r1. subst r1.
  assert (Hkeys : NoDup keys) by by apply enumerate_keys_NoDup.
  assert (Hlen : length keys = length items * 6).
  { subst keys. rewrite length_map, enumerate_jobs_length. done. }
  assert (Hs0 : stored (fs w) b = ([], []))
    by (unfold stored; by rewrite Hnone).
  assert (Hl0 : loadable (fs w) b) by (unfold loadable; by rewrite Hnone).
  rewrite (process_batch_as_run b s e w Hcfg). fold items.
  rewrite run_batch_unfold by done. cbv zeta. rewrite Hs0.
  assert (Htot : total_for_batch DEMOGRAPHIC_TEMPLATES items
                 = length items * 6) by done.
  rewrite Htot.
  change (size (completed (initial_locals_of ([], [])))) with 0.
  destruct (Z.eqb_spec (Z.of_nat (length items * 6) - Z.of_nat 0) 0)
    as [Hz|Hz].
  { unfold events_of, world_of, value_of. cbn [fst snd].
    assert (keys = []) as -> by (apply length_zero_iff_nil; lia).
    rewrite Hs0. split; [done|]. split; [done|]. split; [done|].
    split; [simpl; lia|].
    rewrite (process_batch_as_run b s e w Hcfg). fold items.
    rewrite run_batch_unfold by done. cbv zeta. rewrite Hs0, Htot.
    change (size (completed (initial_locals_of ([], [])))) with 0.
    destruct (Z.eqb_spec (Z.of_nat (length items * 6) - Z.of_nat 0) 0);
      [done|lia]. }
  destruct (run_jobs b _ (enumerate_jobs DEMOGRAPHIC_TEMPLATES items)
              (initial_locals_of ([], [])) w) as [[o w1] ev1] eqn:Hrun.
  assert (Hclean0 : clean_locals (initial_locals_of ([], []))).
  { split; [|done]. cbn [initial_locals_of completed fst].
    intros k Hk. rewrite list_to_set_nil in Hk. set_solver. }
  pose proof (run_jobs_clean json_loads api clock _ _ _ _ _ _ _ _ Hsvc
                (enumerate_jobs_clean items Hitems) Hclean0 Hrun)
    as [Hn (_ & _ & Hf)].
  destruct o as [st|x st]; [|done]. cbn [state_of] in *.
  pose proof Hrun as Hres. apply run_jobs_resume in Hres
    as (pre & suf & Hj & Hnorm & _ & _ & _ & _ & _ & R6 & R7).
  rewrite (Hnorm eq_refl), app_nil_r in Hj. subst pre.
  pose proof Hrun as Hacc. apply run_jobs_account in Hacc as (A1 & _).
  destruct (R7 Hgood) as [E1 _]. fold keys in R6, E1.
  cbn [initial_locals_of completed fst state_of] in R6, E1.
  rewrite list_to_set_nil in R6, E1.
  assert (Hatt : attempted ev1 = keys)
    by (rewrite (R6 Hkeys); apply filter_not_in_empty).
  assert (Hcomp : completed st = list_to_set keys)
    by (rewrite E1; apply union_empty_l_L).
  assert (Hsync0 : in_sync b (initial_locals_of ([], [])) w)
    by (unfold in_sync; by rewrite Hs0).
  pose proof (run_jobs_chain json_loads api clock b _ _ _ _ _ _ _
                Hsync0 Hrun) as (C1 & _ & _ & (C2 & [S1 S2] & _ & Hl1) & _).
  specialize (Hl1 Hl0).
  assert (Hok0 : progress_ok ([], [])) by (split; [constructor|done]).
  set (l := {| l_batch := b; l_completed := clock (ticks w1);
               l_total := length (adaptations st); l_failed := failed st;
               l_vignette_range := ((s, e).1 + 1, (s, e).2);
               l_variants := map fst DEMOGRAPHIC_TEMPLATES |}).
  assert (Hlog : log_encodes l = true).
  { unfold log_encodes. cbn [l l_completed l_failed l_variants].
    destruct Hsvc as [_ Hc]. rewrite Hc, Hf. vm_compute. reflexivity. }
  rewrite Hlog.
  assert (Hst : stored (fs_with_log (fs w1) b l) b = stored (fs w1) b)
    by done.
  assert (Hok1 : progress_ok (stored (fs w1) b)).
  { rewrite Hs0 in C1, C2.
    destruct (chain_ok _ _ _ Hok0 C1) as (_ & K & _). by rewrite C2. }
  assert (Hperm : (stored (fs w1) b).1 ≡ₚ keys).
  { apply NoDup_Permutation; [apply Hok1|done|].
    intros k.
    rewrite <- !(elem_of_list_to_set (C:=gset pystr)), <- S1, Hcomp.
    done. }
  unfold events_of, world_of, value_of. cbn [fst snd].
  rewrite attempted_app.
  change (attempted [EvWriteLog b l]) with (@nil pystr).
  rewrite app_nil_r. cbn [fs]. rewrite Hst.
  split; [done|]. split; [done|]. split; [done|]. split.
  { destruct Hok1 as [_ <-]. by rewrite Hperm. }
  rewrite process_batch_unfold, Hcfg. cbn [fs].
  assert (Hin : input_file (fs_with_log (fs w1) b l) = input_file (fs w)).
  { cbn [fs_with_log input_file]. apply A1. }
  rewrite Hin.
  change (take (e - s) (drop s (input_file (fs w)))) with items.
  rewrite run_batch_unfold by done. cbv zeta. cbn [fs].
  rewrite Hst, Htot.
  assert (Hsize : size (completed (initial_locals_of (stored (fs w1) b)))
                  = length items * 6).
  { cbn [initial_locals_of completed].
    rewrite size_list_to_set by apply Hok1. by rewrite Hperm. }
  rewrite Hsize.
  destruct (Z.eqb_spec (Z.of_nat (length items * 6)
                        - Z.of_nat (length items * 6)) 0); [done|lia].
Qed.

(** X13. The three batches cut the first fifty vignettes of the input
    into consecutive pieces: put together in the order of the batch numbers
    their slices are the first fifty vignettes, each once; what comes after
    the fiftieth is in no batch. *)
Theorem batches_partition_input (all_vignettes : list vignette) :
  concat (map (fun c => batch_slice c all_vignettes) BATCH_CONFIG)
  = take 50 all_vignettes.
Proof.
  clear json_loads api clock.
  unfold BATCH_CONFIG, batch_slice. cbn [map concat fst snd].
  rewrite app_nil_r, drop_0.
  change (15 - 0) with 15. change (30 - 15) with 15. change (50 - 30) with 20.
  rewrite app_assoc, (take_take_drop all_vignettes 15 15).
  change (15 + 15) with 30.
  rewrite (take_take_drop all_vignettes 30 20). done.
Qed.

(** ** Merge, store and command line *)

(** X14. Merging is repeatable and reads only: [merge_all_batches] never
    changes the input, a progress file, a batch output or a run log; and
    merging a second time leaves the same merged output and a merge log with
    the same total and batch list as the first time. *)
Theorem merge_is_repeatable w :
  let w1 := world_of (merge_all_batches w) in
  let w2 := world_of (merge_all_batches w1) in
  input_file (fs w1) = input_file (fs w)
  ∧ progress_file (fs w1) = progress_file (fs w)
  ∧ output_file (fs w1) = output_file (fs w)
  ∧ log_file (fs w1) = log_file (fs w)
  ∧ final_output (fs w2) = final_output (fs w1)
  ∧ m_total <$> merge_log_file (fs w2) = m_total <$> merge_log_file (fs w1)
  ∧ m_batches <$> merge_log_file (fs w2)
    = m_batches <$> merge_log_file (fs w1).
Proof.
  intros w1 w2. subst w2 w1. unfold Runner.merge_all_batches.
  set (bs := map fst BATCH_CONFIG).
  rewrite (merge_batches_run clock bs w).
  destruct (merged (fs w) bs) as [|x all'] eqn:E.
  - unfold world_of. cbn [fst snd]. rewrite (merge_batches_run clock bs w), E.
    done.
  - unfold world_of. cbn [fst snd].
    match goal with |- context [merge_batches bs ?u] =>
      set (w1 := u);
      assert (E1 : merged (fs w1) bs = x :: all') by (by rewrite <- E)
    end.
    rewrite (merge_batches_run clock bs w1), E1. done.
Qed.

Lemma status_steps_run cfg lines w :
  ∃ o, for_each_try status_step cfg lines w = (o, w, [])
       ∧ (Forall (fun c => loadable (fs w) c.1) cfg ->
          o = Normal
                (lines ++ map (fun c => (c.1, (c.2.1 + 1, c.2.2),
                                         batch_status (fs w) c)) cfg))
       ∧ (Exists (fun c => progress_file (fs w) !! c.1 = Some Truncated) cfg ->
          ∃ ls, o = Raised JSONDecodeError ls).
Proof.
  revert lines. induction cfg as [|c cfg IH]; intros lines.
  - exists (Normal lines). cbn [for_each_try map]. rewrite app_nil_r.
    split; [done|]. split; [done|]. intros H. by apply Exists_nil in H.
  - destruct c as [b [s e]]. cbn [for_each_try]. unfold bind at 1.
    unfold status_step at 1. unfold bind at 1.
    destruct (loadable_cases (fs w) b) as [Hl|Ht].
    + rewrite load_batch_progress_loadable by done. unfold ret at 1.
      cbn [fst snd].
      destruct (IH (lines ++ [(b, (s + 1, e), batch_status (fs w) (b, (s, e)))]))
        as (o & E & H1 & H2).
      exists o. unfold batch_status in E at 1. cbn [fst snd] in E.
      rewrite E. split; [done|]. split.
      * intros [_ H]%Forall_cons. rewrite (H1 H). cbn [map fst snd].
        by rewrite <- app_assoc.
      * intros [H|H]%Exists_cons; [|by apply H2].
        cbn [fst] in H. by destruct Hl.
    + exists (Raised JSONDecodeError lines).
      unfold Runner.load_batch_progress, bind, get_fs, ret. cbn [fst snd].
      rewrite Ht. cbn [fst snd]. split; [done|]. split.
      * intros [H _]%Forall_cons. cbn [fst] in H. by destruct H.
      * intros _. by exists lines.
Qed.

(** X16. [--status] makes the output directory if it is missing and
    otherwise only reads.  With [--status], whatever [--merge] and
    [--batch] say, [main] leaves every file as it is and sends no request:
    its only event is the [mkdir].  When no progress file is truncated it
    reports for each batch of [BATCH_CONFIG] its number, its first and last
    vignette number and its state; when one is, it ends with
    [JSONDecodeError].  Without [--status], [--merge] does what
    [merge_all_batches] does, whatever [--batch] says, after the [mkdir] of
    [main] and the one [merge_all_batches] starts with.  A [--batch]
    outside 1, 2, 3 does nothing at all, not even the [mkdir]. *)
Theorem status_makes_directory_then_reads a w :
  (valid_choice a = true -> arg_status a = true ->
   let res := main json_loads api clock a w in
   world_of res = w
   ∧ events_of res = [EvMkdir]
   ∧ (Forall (fun c => loadable (fs w) c.1) BATCH_CONFIG ->
      value_of res
      = StatusShown
          (map (fun c => (c.1, (c.2.1 + 1, c.2.2), batch_status (fs w) c))
             BATCH_CONFIG))
   ∧ (Exists (fun c => progress_file (fs w) !! c.1 = Some Truncated)
        BATCH_CONFIG ->
      value_of res = StatusFailed JSONDecodeError))
  ∧ (valid_choice a = true -> arg_status a = false -> arg_merge a = true ->
     world_of (main json_loads api clock a w)
     = world_of (merge_all_batches w)
     ∧ events_of (main json_loads api clock a w)
       = [EvMkdir; EvMkdir] ++ events_of (merge_all_batches w))
  ∧ (valid_choice a = false ->
     main json_loads api clock a w = (UsageError, w, [])).
Proof.
  unfold main. split; [|split].
  - intros -> ->. cbn [negb]. unfold bind, mkdir_output, emit, show_status.
    cbn [fst snd].
    destruct (status_steps_run BATCH_CONFIG [] w) as (o & E & H1 & H2).
    rewrite E. cbn [fst snd].
    split; [by destruct o|]. split; [by destruct o|]. split.
    + intros H. by rewrite (H1 H).
    + intros H. destruct (H2 H) as [ls ->]. done.
  - intros -> -> ->. cbn [negb]. unfold bind, mkdir_output, emit.
    cbn [fst snd].
    destruct (merge_all_batches w) as [[u w1] ev].
    unfold ret, world_of, events_of. cbn [fst snd app].
    by rewrite app_nil_r.
  - intros ->. done.
Qed.

(** X17. [--status] and [process_batch] agree on when a batch is done.
    For a batch of [BATCH_CONFIG], an input that reaches to the end of the
    batch and a progress file that can be loaded and holds no key twice,
    the status is [COMPLETE] exactly when [process_batch] has nothing to
    do, that is, returns without a single event and leaves the world as it
    is.  In every other case [process_batch] either returns, and then it
    ends by writing its log, or ends with [UnicodeEncodeError] and writes
    no log. *)
Theorem status_complete_iff_nothing_to_do b s e w :
  config_lookup b BATCH_CONFIG = Some (s, e) ->
  e <= length (input_file (fs w)) ->
  NoDup (stored (fs w) b).1 ->
  loadable (fs w) b ->
  let res := process_batch b w in
  (batch_status (fs w) (b, (s, e)) = Complete ↔ res = (Returned, w, []))
  ∧ (batch_status (fs w) (b, (s, e)) ≠ Complete ->
     match value_of res with
     | Returned => ∃ l, written_log (events_of res) = Some l
     | Uncaught x =>
         x = UnicodeEncodeError ∧ written_log (events_of res) = None
     | SysExit _ => False
     end).
Proof.
  intros Hcfg Hlen Hnd Hl res. subst res.
  pose proof (config_lookup_range b s e Hcfg) as Hse.
  rewrite (process_batch_as_run b s e w Hcfg).
  destruct (run_batch DEMOGRAPHIC_TEMPLATES b (s, e)
              (batch_slice (b, (s, e)) (input_file (fs w))) w)
    as [[x w'] ev] eqn:Hr.
  pose proof Hr as Hacc. apply run_batch_account in Hacc
    as (_ & _ & _ & _ & _ & _ & _ & _ & _ & _ & Hx).
  rewrite run_batch_unfold in Hr by done. cbv zeta in Hr.
  assert (Htot : total_for_batch DEMOGRAPHIC_TEMPLATES
                   (batch_slice (b, (s, e)) (input_file (fs w)))
                 = (e - s) * 6).
  { unfold total_for_batch, batch_slice. cbn [fst snd].
    rewrite length_take, length_drop.
    change (length (map fst DEMOGRAPHIC_TEMPLATES)) with 6. lia. }
  rewrite Htot in Hr. cbn [initial_locals_of completed] in Hr.
  rewrite size_list_to_set in Hr by done.
  unfold batch_status. cbn [fst snd].
  change (length DEMOGRAPHIC_TEMPLATES) with 6.
  destruct (Z.eqb_spec (Z.of_nat ((e - s) * 6)
                        - Z.of_nat (length (stored (fs w) b).1)) 0)
    as [Hz|Hz].
  - assert (Heq : length (stored (fs w) b).1 = (e - s) * 6) by lia.
    rewrite Heq, Nat.eqb_refl. simplify_eq. split; [done|]. intros H. done.
  - destruct (Nat.eqb_spec (length (stored (fs w) b).1) ((e - s) * 6))
      as [Heq|Hne]; [lia|].
    unfold value_of, events_of. cbn [fst snd].
    destruct (run_jobs b _ _ _ w) as [[o w1] ev1].
    split.
    + split; [done|]. intros H.
      destruct o as [st|x0 st]; [|by simplify_eq].
      destruct (log_encodes _); simplify_eq.
      match goal with H : _ ++ [_] = [] |- _ =>
        by apply app_eq_nil in H as [_ ?] end.
    + intros _. destruct x as [z| |[|]]; try done.
      * destruct Hx as [[-> _]|(l & Hw & _)]; [|by exists l].
        destruct o as [st|x0 st]; [|by simplify_eq].
        destruct (log_encodes _); simplify_eq.
        match goal with H : _ ++ [_] = [] |- _ =>
          by apply app_eq_nil in H as [_ ?] end.
      * by destruct Hx as [Hw _].
      * destruct Hx as (_ & _ & Ht). by destruct Hl.
Qed.
(** ** Fences: the edges of [extract_json] *)

Lemma find_NL_none (s : pystr) : 10%N ∉ s -> find NL s = None.
Proof.
  clear json_loads api clock.
  induction s as [|c s IH]; intros Hs; [done|].
  apply not_elem_of_cons in Hs as [Hc Hs]. unfold NL in *.
  cbn [find startswith]. destruct (N.eqb_spec 10 c) as [E|_]; [done|].
  cbn [andb]. by rewrite (IH Hs).
Qed.

Lemma rfind_none (sub s : pystr) : find sub s = None -> rfind sub s = None.
Proof.
  clear json_loads api clock.
  induction s as [|c s IH]; [done|]. cbn [find rfind].
  destruct (startswith sub (c :: s)); [done|].
  destruct (find sub s); [done|]. intros _. by rewrite IH.
Qed.

Lemma rfind_app_some (sub l r : pystr) i :
  rfind sub r = Some i -> rfind sub (l ++ r) = Some (length l + i).
Proof.
  clear json_loads api clock.
  intros Hr. induction l as [|c l IH]; [done|].
  cbn [app rfind length]. by rewrite IH.
Qed.

Lemma contains_false (sub s : pystr) :
  contains sub s = false -> find sub s = None.
Proof. unfold contains. by destruct (find sub s). Qed.

Lemma rfind_last_fence (P trailer : pystr) :
  contains FENCE (py "``" ++ trailer) = false ->
  rfind FENCE (P ++ FENCE ++ trailer) = Some (length P).
Proof.
  intros H%contains_false%rfind_none.
  rewrite (rfind_app_some FENCE P (FENCE ++ trailer) 0); [by rewrite Nat.add_0_r|].
  change (FENCE ++ trailer) with (96%N :: (py "``" ++ trailer)).
  cbn [rfind]. rewrite H. done.
Qed.

(** X18. A response that opens with a fence line.  When the trimmed text
    is three backticks, a tag, a newline and a body: if the body holds no
    further fence (the closing fence is missing) [extract_json] gives the
    body, trimmed; if the body is a payload, a closing fence and some
    commentary after it that makes no further fence, [extract_json] drops
    the fence and the commentary and gives the payload, trimmed. *)
Theorem opening_fence_line (text tag body : pystr) :
  strip text = FENCE ++ tag ++ NL ++ body ->
  10%N ∉ tag ->
  (contains FENCE body = false -> extract_json text = strip body)
  ∧ (∀ P trailer,
       body = P ++ FENCE ++ trailer ->
       contains FENCE (py "``" ++ trailer) = false ->
       extract_json text = strip P).
Proof.
  intros Ht Htag. unfold extract_json. rewrite Ht.
  change (startswith FENCE (FENCE ++ ?x)) with true. cbv iota.
  assert (Hf : find NL (FENCE ++ tag ++ NL ++ body)
               = Some (length (FENCE ++ tag))).
  { unfold NL. rewrite (app_assoc FENCE tag). apply find_char.
    unfold FENCE. intros [H|H]%elem_of_app; [|done].
    vm_compute in H. clear -H. set_solver. }
  rewrite Hf.
  assert (Hd : drop (length (FENCE ++ tag) + length NL)
                 (FENCE ++ tag ++ NL ++ body) = body).
  { rewrite (app_assoc FENCE tag), (app_assoc _ NL).
    by rewrite <- length_app, drop_app_length. }
  rewrite Hd. split.
  - intros H%contains_false%rfind_none. by rewrite H.
  - intros P trailer -> H. rewrite (rfind_last_fence P trailer H).
    by rewrite take_app_length.
Qed.

(** X19. A response fenced on one line.  When the trimmed text is three
    backticks, a payload without a newline and three backticks,
    [extract_json] drops the two fences and nothing else: what stands
    between them, a language tag included, is the result, trimmed. *)
Theorem one_line_fence (text P : pystr) :
  strip text = FENCE ++ P ++ FENCE ->
  10%N ∉ P ->
  extract_json text = strip P.
Proof.
  intros Ht HP. unfold extract_json. rewrite Ht.
  change (startswith FENCE (FENCE ++ ?x)) with true. cbv iota.
  rewrite find_NL_none.
  - change (drop 3 (FENCE ++ ?x)) with x.
    by rewrite rfind_suffix, take_app_length.
  - unfold FENCE. intros H. rewrite !elem_of_app in H.
    destruct H as [H|[H|H]]; [|done|]; vm_compute in H; clear -H; set_solver.
Qed.

(** ** File names *)

Lemma py_inj (s t : string) : py s = py t -> s = t.
Proof.
  clear json_loads api clock.
  unfold py. intros H.
  assert (Hm : list_ascii_of_string s = list_ascii_of_string t).
  { revert H. generalize (list_ascii_of_string s) (list_ascii_of_string t).
    induction l as [|a l IH]; intros [|b l']; [done..|].
    cbn [map]. intros [= Hab Hl].
    f_equal; [|by apply IH].
    rewrite <- (ascii_N_embedding a), <- (ascii_N_embedding b).
    by rewrite Hab. }
  rewrite <- (string_of_list_ascii_of_string s),
          <- (string_of_list_ascii_of_string t). by rewrite Hm.
Qed.

Lemma str_of_int_inj (n m : Z) : str_of_int n = str_of_int m -> n = m.
Proof.
  clear json_loads api clock.
  unfold str_of_int. intros H%py_inj. by apply (inj pretty).
Qed.

Lemma suffix_clash (x y s1 s2 : pystr) :
  6 <= length s1 -> 6 <= length s2 ->
  x ++ s1 = y ++ s2 -> take 6 (rev s1) = take 6 (rev s2).
Proof.
  clear json_loads api clock.
  intros H1 H2 E. apply (f_equal (@rev N)) in E.
  rewrite !rev_app_distr in E. apply (f_equal (take 6)) in E.
  rewrite !take_app_le in E by (rewrite length_rev; lia). done.
Qed.

(** X20. The files of a run have names of their own.  Two names built by
    [get_batch_paths] are equal only for the same batch number and the same
    kind of file, so no batch writes over the output, progress or log of
    another batch; and none of them is the name of the merged output or of
    the merge log. *)
Theorem batch_files_have_own_names (b1 b2 : Z) (k1 k2 : path_kind) :
  (get_batch_paths b1 k1 = get_batch_paths b2 k2 -> b1 = b2 ∧ k1 = k2)
  ∧ get_batch_paths b1 k1 ≠ FINAL_OUTPUT_NAME
  ∧ get_batch_paths b1 k1 ≠ MERGE_LOG_NAME.
Proof.
  split; [|split].
  - unfold get_batch_paths.
    destruct k1, k2; intros H; apply app_inv_head in H;
      first [ apply app_inv_tail in H; apply str_of_int_inj in H; by subst
            | apply suffix_clash in H; [discriminate H|vm_compute; lia..] ].
  - unfold get_batch_paths, FINAL_OUTPUT_NAME. destruct k1; discriminate.
  - unfold get_batch_paths, MERGE_LOG_NAME. destruct k1; discriminate.
Qed.

End Further.

(** * Instances of the further properties *)

Lemma first_good_response_wins_witness :
  let res := adapt_single_vignette Sample.loads Scenario.flaky Sample.clock
               Sample.v1 Sample.UWM.1 Sample.UWM.2 Sample.fresh in
  calls (world_of res) = 3
  ∧ ∃ x m, value_of res = Some x
           ∧ adapted Sample.loads Scenario.flaky Sample.clock Sample.v1 2 m x.
Proof.
  apply (first_good_response_wins Sample.loads Scenario.flaky Sample.clock
           Sample.v1 Sample.UWM.1 Sample.UWM.2 Sample.fresh 2).
  - unfold MAX_RETRIES. lia.
  - intros i Hi (text & kvs & E1 & E2 & E3).
    destruct i as [|[|i]]; [| |lia];
      injection E1 as <-; vm_compute in E2; injection E2 as <-;
      vm_compute in E3; discriminate E3.
  - exists Sample.complete_text. eexists.
    split; [reflexivity|]. split; vm_compute; reflexivity.
Defined.

Lemma service_unavailable_keeps_backoff_witness :
  (adapt_single_vignette Sample.loads Scenario.always_503 Sample.clock
     Sample.v1 Sample.UWM.1 Sample.UWM.2 Sample.fresh
   = (None, advance MAX_RETRIES Sample.fresh,
      unavailable_events (py "PILOT-001") Sample.UWM.1 MAX_RETRIES)
   ∧ sleeps (unavailable_events (py "PILOT-001") Sample.UWM.1 MAX_RETRIES)
     = [30; 30; 30; 30; 30]%Z)
  ∧ ∃ rest,
      sleeps (events_of
                (adapt_single_vignette Sample.loads
                   Scenario.unavailable_then_limited Sample.clock
                   Sample.v1 Sample.UWM.1 Sample.UWM.2 Sample.fresh))
      = replicate 2 30%Z ++ 60%Z :: rest.
Proof.
  split.
  - destruct (service_unavailable_keeps_backoff Sample.loads
                Scenario.always_503 Sample.clock Sample.v1 Sample.UWM.1
                Sample.UWM.2 Sample.fresh MAX_RETRIES) as (_ & H & _).
    + unfold MAX_RETRIES. lia.
    + intros i Hi. reflexivity.
    + exact (H eq_refl).
  - destruct (service_unavailable_keeps_backoff Sample.loads
                Scenario.unavailable_then_limited Sample.clock Sample.v1
                Sample.UWM.1 Sample.UWM.2 Sample.fresh 2) as (_ & _ & H).
    + unfold MAX_RETRIES. lia.
    + intros i Hi. destruct i as [|[|i]]; [reflexivity|reflexivity|lia].
    + apply H; [unfold MAX_RETRIES; lia|reflexivity].
Defined.

Lemma non_object_response_is_retried_witness :
  attempt_body Scenario.loads_list Scenario.always_list Sample.clock
    Sample.v1 Sample.UWM.1 0 60 Sample.fresh
  = (Continue 60, advance 1 Sample.fresh,
     [EvRequest (py "PILOT-001") Sample.UWM.1; EvSleep 15]).
Proof.
  apply (non_object_response_is_retried Scenario.loads_list
           Scenario.always_list Sample.clock Sample.v1 Sample.UWM.1 0 60%Z
           Sample.fresh Scenario.list_text (JArr [])).
  - reflexivity.
  - vm_compute. reflexivity.
  - intros kvs H. discriminate H.
Defined.

Lemma output_stays_in_sync_witness :
  let res := run_batch Sample.loads Sample.always_ok Sample.clock
               [Sample.UWM; Sample.UPF] 1 (0, 15) [Sample.v1; Sample.v2]
               Sample.fresh in
  synced 1 (fs (world_of res))
  ∧ output_file (fs (world_of res)) !! 1%Z
    = Some (stored (fs (world_of res)) 1).2.
Proof.
  destruct (output_stays_in_sync Sample.loads Sample.always_ok Sample.clock
              [Sample.UWM; Sample.UPF] 1%Z (0, 15) [Sample.v1; Sample.v2]
              Sample.fresh) as (H1 & _ & H3 & _).
  split.
  - apply H1. vm_compute. exact I.
  - apply H3.
    + vm_compute. discriminate.
    + vm_compute. intros H. discriminate H.
Defined.

Lemma job_keys_do_not_collide_witness :
  (py "PILOT-001" = py "PILOT-001" ∧ Sample.UWM.1 = Sample.UWM.1)
  ∧ NoDup (map job_key
             (enumerate_jobs DEMOGRAPHIC_TEMPLATES [Sample.v1; Sample.v2])).
Proof.
  destruct job_keys_do_not_collide as [H1 H2]. split.
  - apply H1; [by_compute|by_compute|reflexivity].
  - apply H2. by_compute.
Defined.

Lemma complete_run_then_noop_witness :
  let r1 := process_batch Sample.loads Sample.always_ok Sample.clock 1
              Sample.fresh in
  value_of r1 = Returned
  ∧ length (attempted (events_of r1)) = 12
  ∧ process_batch Sample.loads Sample.always_ok Sample.clock 1 (world_of r1)
    = (Returned, world_of r1, []).
Proof.
  destruct (complete_run_then_noop Sample.loads Sample.always_ok Sample.clock
              1%Z 0 15 Sample.fresh) as (H0 & H1 & _ & _ & H4).
  - reflexivity.
  - by_compute.
  - reflexivity.
  - exact sample_good_response.
  - exact sample_clean_service.
  - repeat constructor.
  - split; [exact H0|]. split; [by rewrite H1|exact H4].
Defined.

Lemma status_complete_iff_nothing_to_do_witness :
  process_batch Sample.loads Sample.always_ok Sample.clock 1
    Scenario.all_done
  = (Returned, Scenario.all_done, []).
Proof.
  destruct (status_complete_iff_nothing_to_do Sample.loads Sample.always_ok
              Sample.clock 1%Z 0 15 Scenario.all_done) as [[H _] _].
  - reflexivity.
  - vm_compute. lia.
  - by_compute.
  - vm_compute. intros H. discriminate H.
  - apply H. vm_compute. reflexivity.
Defined.

Lemma status_makes_directory_then_reads_witness :
  (world_of (main Sample.loads Sample.always_ok Sample.clock
               Scenario.status_and_merge Sample.two_outputs)
   = Sample.two_outputs
   ∧ events_of (main Sample.loads Sample.always_ok Sample.clock
                  Scenario.status_and_merge Sample.two_outputs)
     = [EvMkdir])
  ∧ events_of (main Sample.loads Sample.always_ok Sample.clock
                 Scenario.merge_and_batch Sample.two_outputs)
    = [EvMkdir; EvMkdir]
      ++ events_of (merge_all_batches Sample.clock Sample.two_outputs)
  ∧ main Sample.loads Sample.always_ok Sample.clock Scenario.batch_four
      Sample.two_outputs
    = (UsageError, Sample.two_outputs, []).
Proof.
  split; [|split].
  - destruct (status_makes_directory_then_reads Sample.loads
                Sample.always_ok Sample.clock Scenario.status_and_merge
                Sample.two_outputs) as [H _].
    destruct (H eq_refl eq_refl) as (H1 & H2 & _). split; [exact H1|exact H2].
  - apply (status_makes_directory_then_reads Sample.loads Sample.always_ok
             Sample.clock Scenario.merge_and_batch Sample.two_outputs);
      reflexivity.
  - apply (status_makes_directory_then_reads Sample.loads Sample.always_ok
             Sample.clock Scenario.batch_four Sample.two_outputs).
    reflexivity.
Defined.

Lemma opening_fence_line_witness :
  extract_json Scenario.unclosed = py "{}"
  ∧ extract_json Scenario.with_commentary = py "{}".
Proof.
  split.
  - destruct (opening_fence_line Scenario.unclosed (py "json") (py "{}"))
      as [H _].
    + vm_compute. reflexivity.
    + by_compute.
    + apply H. reflexivity.
  - destruct (opening_fence_line Scenario.with_commentary (py "json")
                (py "{}" ++ NL ++ FENCE ++ py " Done."))
      as [_ H].
    + vm_compute. reflexivity.
    + by_compute.
    + apply (H (py "{}" ++ NL) (py " Done.")); reflexivity.
Defined.

Lemma one_line_fence_witness :
  extract_json Scenario.on_one_line = py "json {}".
Proof.
  apply (one_line_fence Scenario.on_one_line (py "json {}")).
  - vm_compute. reflexivity.
  - by_compute.
Defined.

Lemma batch_files_have_own_names_witness :
  (1 = 1)%Z ∧ OutputPath = OutputPath.
Proof.
  destruct (batch_files_have_own_names 1 1 OutputPath OutputPath) as [H _].
  apply H. reflexivity.
Defined.

